(** * Email detector: validators and heuristic scanner

    A shallow embedding of the canonical implementation
    (CharacterClassifier, LocalPartValidator, DomainPartValidator,
    EmailValidator, EmailScanner) together with the properties the
    specification states about them.

    Conventions of the embedding.
    - A byte is an [ascii]; a text buffer is a [list ascii].
    - [size_t] is modelled by [nat]: every subtraction the code performs is
      guarded so that it cannot wrap, and buffers are far shorter than 2^64.
    - [std::string_view::npos] results are modelled by [option nat].
    - [text[i]] is [at_ text i]; reads past the end (which the code guards
      against) return the zero byte.
    - A [for]/[while] loop is a [Fixpoint] on a counter that bounds the number
      of remaining iterations, with the loop variables passed explicitly. *)

From Stdlib Require Import String Ascii List Arith Bool Lia ZArith NArith Sorted.
Import ListNotations.

Local Open Scope nat_scope.

(** Byte comparison [c == d]. *)
Infix "=c?" := Ascii.eqb (at level 70, no associativity).

(* ------------------------------------------------------------------------- *)
(** ** Buffers *)

Abbreviation byte := ascii (only parsing).
Abbreviation text_t := (list ascii) (only parsing).

Definition at_ (text : text_t) (i : nat) : byte := nth i text zero.

(** [std::string(data + start, n)] / the span [[start, start + n)]. *)
Definition substr (text : text_t) (start n : nat) : text_t :=
  firstn n (skipn start text).

(** A [std::string_view]: either a null data pointer with a declared length,
    or a readable buffer whose length is the number of its bytes. *)
Inductive string_view : Type :=
| NullView (declared_len : nat)
| View (bytes : text_t).

Definition sv_length (v : string_view) : nat :=
  match v with
  | NullView n => n
  | View l => length l
  end.

Definition sv_is_null (v : string_view) : bool :=
  match v with
  | NullView _ => true
  | View _ => false
  end.

Definition sv_bytes (v : string_view) : text_t :=
  match v with
  | NullView _ => []
  | View l => l
  end.

Definition lit (s : string) : text_t := list_ascii_of_string s.

(** The double-quote byte (code 34). *)
Definition DQUOTE : byte := ascii_of_nat 34.

(* ------------------------------------------------------------------------- *)
(** ** CharacterClassifier *)

Module CharacterClassifier.

Definition CHAR_ALPHA : N := 0x01.
Definition CHAR_DIGIT : N := 0x02.
Definition CHAR_ATEXT_SPECIAL : N := 0x04.
Definition CHAR_HEX : N := 0x08.
Definition CHAR_DOMAIN : N := 0x10.
Definition CHAR_QUOTE : N := 0x20.
Definition CHAR_INVALID_LOCAL : N := 0x40.
Definition CHAR_BOUNDARY : N := 0x80.

Definition charTable : list N :=
  [ (* 0-31: control characters *)
    0x40; 0x40; 0x40; 0x40; 0x40; 0x40; 0x40; 0x40; 0x40; 0xC0; 0xC0; 0x40; 0x40; 0xC0; 0x40; 0x40;
    0x40; 0x40; 0x40; 0x40; 0x40; 0x40; 0x40; 0x40; 0x40; 0x40; 0x40; 0x40; 0x40; 0x40; 0x40; 0x40;
    (* 32-47: space and symbols *)
    0xC0; 0x04; 0x60; 0x04; 0x04; 0x04; 0x04; 0x24; 0xC0; 0xC0; 0x04; 0x04; 0xC0; 0x14; 0x14; 0x04;
    (* 48-63: digits and more symbols *)
    0x1A; 0x1A; 0x1A; 0x1A; 0x1A; 0x1A; 0x1A; 0x1A; 0x1A; 0x1A; 0xC0; 0xC0; 0xC0; 0x04; 0xC0; 0x04;
    (* 64-79: @ and uppercase letters *)
    0x40; 0x19; 0x19; 0x19; 0x19; 0x19; 0x19; 0x11; 0x11; 0x11; 0x11; 0x11; 0x11; 0x11; 0x11; 0x11;
    (* 80-95: more uppercase and symbols *)
    0x11; 0x11; 0x11; 0x11; 0x11; 0x11; 0x11; 0x11; 0x11; 0x11; 0x11; 0xC0; 0x40; 0xC0; 0x04; 0x04;
    (* 96-111: backtick and lowercase letters *)
    0x24; 0x19; 0x19; 0x19; 0x19; 0x19; 0x19; 0x11; 0x11; 0x11; 0x11; 0x11; 0x11; 0x11; 0x11; 0x11;
    (* 112-127: more lowercase and symbols *)
    0x11; 0x11; 0x11; 0x11; 0x11; 0x11; 0x11; 0x11; 0x11; 0x11; 0x11; 0x04; 0x04; 0x04; 0x04; 0x40;
    (* 128-255: extended ASCII (invalid) *)
    0x40; 0x40; 0x40; 0x40; 0x40; 0x40; 0x40; 0x40; 0x40; 0x40; 0x40; 0x40; 0x40; 0x40; 0x40; 0x40;
    0x40; 0x40; 0x40; 0x40; 0x40; 0x40; 0x40; 0x40; 0x40; 0x40; 0x40; 0x40; 0x40; 0x40; 0x40; 0x40;
    0x40; 0x40; 0x40; 0x40; 0x40; 0x40; 0x40; 0x40; 0x40; 0x40; 0x40; 0x40; 0x40; 0x40; 0x40; 0x40;
    0x40; 0x40; 0x40; 0x40; 0x40; 0x40; 0x40; 0x40; 0x40; 0x40; 0x40; 0x40; 0x40; 0x40; 0x40; 0x40;
    0x40; 0x40; 0x40; 0x40; 0x40; 0x40; 0x40; 0x40; 0x40; 0x40; 0x40; 0x40; 0x40; 0x40; 0x40; 0x40;
    0x40; 0x40; 0x40; 0x40; 0x40; 0x40; 0x40; 0x40; 0x40; 0x40; 0x40; 0x40; 0x40; 0x40; 0x40; 0x40;
    0x40; 0x40; 0x40; 0x40; 0x40; 0x40; 0x40; 0x40; 0x40; 0x40; 0x40; 0x40; 0x40; 0x40; 0x40; 0x40;
    0x40; 0x40; 0x40; 0x40; 0x40; 0x40; 0x40; 0x40; 0x40; 0x40; 0x40; 0x40; 0x40; 0x40; 0x40; 0x40 ]%N.

(** [charTable[c]] *)
Definition tbl (c : byte) : N := nth (nat_of_ascii c) charTable 0%N.

(** [(charTable[c] & mask) != 0] *)
Definition has (c : byte) (mask : N) : bool := negb (N.eqb (N.land (tbl c) mask) 0).

Definition isAlpha (c : byte) : bool := has c CHAR_ALPHA.
Definition isDigit (c : byte) : bool := has c CHAR_DIGIT.
Definition isAlphaNum (c : byte) : bool := has c (N.lor CHAR_ALPHA CHAR_DIGIT).
Definition isHexDigit (c : byte) : bool := has c CHAR_HEX.
Definition isAtext (c : byte) : bool :=
  has c (N.lor (N.lor CHAR_ALPHA CHAR_DIGIT) CHAR_ATEXT_SPECIAL).
Definition isDomainChar (c : byte) : bool := has c CHAR_DOMAIN.
Definition isScanBoundary (c : byte) : bool := has c CHAR_BOUNDARY.
Definition isScanRightBoundary (c : byte) : bool :=
  has c CHAR_BOUNDARY || (c =c? ".") || (c =c? "!") || (c =c? "?").
Definition isInvalidLocalChar (c : byte) : bool := has c CHAR_INVALID_LOCAL.
Definition isQuoteChar (c : byte) : bool := has c CHAR_QUOTE.
Definition isQtextOrQpair (c : byte) : bool :=
  (33 <=? nat_of_ascii c) && (nat_of_ascii c <=? 126)
  && negb (c =c? "\") && negb (c =c? DQUOTE).

End CharacterClassifier.

Import CharacterClassifier.

(* ------------------------------------------------------------------------- *)
(** ** LocalPartValidator *)

Module LocalPartValidator.

Definition MAX_LOCAL_PART : nat := 64.

Definition TAB : byte := ascii_of_nat 9.

(** The [for (i = start; i < end; ++i)] loop of [validateDotAtom]; [n] is the
    number of bytes still to visit. *)
Fixpoint dotAtomLoop (text : text_t) (i n : nat) (prevDot : bool) : bool :=
  match n with
  | 0 => true
  | S n' =>
      let c := at_ text i in
      if c =c? "." then
        if prevDot then false else dotAtomLoop text (S i) n' true
      else if negb (isAtext c) then false
      else dotAtomLoop text (S i) n' false
  end.

Definition validateDotAtom (text : text_t) (start end_ : nat) : bool :=
  if (end_ <=? start) || (length text <? end_) || (MAX_LOCAL_PART <? end_ - start)
  then false
  else if (at_ text start =c? ".") || (at_ text (end_ - 1) =c? ".") then false
  else dotAtomLoop text start (end_ - start) false.

(** The [for (i = start + 1; i < end - 1; ++i)] loop of
    [validateQuotedString]. *)
Fixpoint quotedLoop (text : text_t) (i n : nat) (escaped : bool) : bool :=
  match n with
  | 0 => negb escaped
  | S n' =>
      if length text <=? i then false
      else
        let c := at_ text i in
        if escaped then
          if 127 <? nat_of_ascii c then false
          else quotedLoop text (S i) n' false
        else if c =c? "\" then quotedLoop text (S i) n' true
        else if c =c? DQUOTE then false
        else if negb (isQtextOrQpair c) && negb (c =c? " ") && negb (c =c? TAB)
             then false
        else quotedLoop text (S i) n' false
  end.

Definition validateQuotedString (text : text_t) (start end_ : nat) : bool :=
  let len := length text in
  if (end_ <=? start) || (len <? end_) || (MAX_LOCAL_PART + 2 <? end_ - start)
  then false
  else if negb (at_ text start =c? DQUOTE) || negb (at_ text (end_ - 1) =c? DQUOTE)
  then false
  else if end_ - start <? 3 then false
  else quotedLoop text (start + 1) ((end_ - 1) - (start + 1)) false.

(** The [for] loop of [validateScanMode]. *)
Fixpoint scanModeLoop (text : text_t) (i n : nat) (prevDot : bool) : bool :=
  match n with
  | 0 => true
  | S n' =>
      if length text <=? i then false
      else
        let c := at_ text i in
        if c =c? "." then
          if prevDot then false else scanModeLoop text (S i) n' true
        else if negb (isAtext c) then false
        else scanModeLoop text (S i) n' false
  end.

Definition validateScanMode (text : text_t) (start end_ : nat) : bool :=
  let len := length text in
  if (end_ <=? start) || (len <? end_) || (MAX_LOCAL_PART <? end_ - start)
  then false
  else if (at_ text start =c? DQUOTE) || (at_ text start =c? ".")
          || (at_ text (end_ - 1) =c? ".")
  then false
  else scanModeLoop text start (end_ - start) false.

Inductive ValidationMode : Type := EXACT | SCAN.

Definition validate (text : text_t) (start end_ : nat) (mode : ValidationMode) : bool :=
  if (end_ <=? start) || (length text <? end_) then false
  else
    match mode with
    | SCAN => validateScanMode text start end_
    | EXACT =>
        if at_ text start =c? DQUOTE then validateQuotedString text start end_
        else validateDotAtom text start end_
    end.

End LocalPartValidator.

(* ------------------------------------------------------------------------- *)
(** ** DomainPartValidator *)

Module DomainPartValidator.

Definition MAX_DOMAIN_PART : nat := 253.
Definition MAX_LABEL_LENGTH : nat := 63.

Definition INT_MAX : Z := 2147483647.

(** Two's-complement wrap of a 32-bit [int]. *)
Definition int_wrap (x : Z) : Z := ((x + 2147483648) mod 4294967296 - 2147483648)%Z.

(** First loop of [validateDomainLabels]: no two consecutive dots. *)
Fixpoint noDoubleDotLoop (text : text_t) (i n : nat) (prevDot : bool) : bool :=
  match n with
  | 0 => true
  | S n' =>
      if length text <=? i then false
      else if at_ text i =c? "." then
        if prevDot then false else noDoubleDotLoop text (S i) n' true
      else noDoubleDotLoop text (S i) n' false
  end.

(** [for (size_t i = end; i-- > start;)]: position of the last dot. *)
Fixpoint lastDotLoop (text : text_t) (start i : nat) : option nat :=
  match i with
  | 0 => None
  | S i' =>
      if start <? i then
        if at_ text i' =c? "." then Some i' else lastDotLoop text start i'
      else None
  end.

(** [for (j = labelStart; j < labelStart + labelLen; ++j)]: every byte of the
    label is alphanumeric or a hyphen. *)
Fixpoint labelCharsLoop (text : text_t) (j n : nat) : bool :=
  match n with
  | 0 => true
  | S n' =>
      let c := at_ text j in
      if negb (isAlphaNum c) && negb (c =c? "-") then false
      else labelCharsLoop text (S j) n'
  end.

(** [for (i = start; i <= end; ++i)]: walks the labels; the result is the
    final [labelCount], or [None] for [return false]. *)
Fixpoint labelsLoop (text : text_t) (end_ : nat) (n i labelStart labelCount : nat)
  : option nat :=
  match n with
  | 0 => Some labelCount
  | S n' =>
      if (i =? end_) || (at_ text i =c? ".") then
        let labelLen := i - labelStart in
        if (labelLen =? 0) || (MAX_LABEL_LENGTH <? labelLen) then None
        else if (length text <=? labelStart) || (length text <? labelStart + labelLen)
        then None
        else if (at_ text labelStart =c? "-")
                || (at_ text (labelStart + labelLen - 1) =c? "-")
        then None
        else if negb (labelCharsLoop text labelStart labelLen) then None
        else labelsLoop text end_ n' (S i) (S i) (S labelCount)
      else labelsLoop text end_ n' (S i) labelStart labelCount
  end.

(** [for (i = tldStart; i < end; ++i)]: the last label is alphanumeric. *)
Fixpoint tldLoop (text : text_t) (i n : nat) : bool :=
  match n with
  | 0 => true
  | S n' => if negb (isAlphaNum (at_ text i)) then false else tldLoop text (S i) n'
  end.

Definition validateDomainLabels (text : text_t) (start end_ : nat) : bool :=
  let len := length text in
  if (end_ <=? start) || (len <? end_) || (end_ - start <? 1)
     || (MAX_DOMAIN_PART <? end_ - start)
  then false
  else if (at_ text start =c? ".") || (at_ text start =c? "-")
          || (at_ text (end_ - 1) =c? ".") || (at_ text (end_ - 1) =c? "-")
  then false
  else if negb (noDoubleDotLoop text start (end_ - start) false) then false
  else
    let lastDotPos := lastDotLoop text start end_ in
    match labelsLoop text end_ (S end_ - start) start start 0 with
    | None => false
    | Some labelCount =>
        if labelCount <? 1 then false
        else
          match lastDotPos with
          | Some lastDot =>
              if 2 <=? labelCount then
                let tldStart := lastDot + 1 in
                let tldLen := end_ - tldStart in
                if tldLen <? 1 then false
                else tldLoop text tldStart (end_ - tldStart)
              else true
          | None => true
          end
    end.

(** Inner loop of [validateIPv4]: accumulates the decimal value of the group
    [[j, j + n)]; [groupLen] is [i - numStart].  [None] is [return false]. *)
Fixpoint ipv4Digits (text : text_t) (j n groupLen : nat) (octet : Z) (digitCount : nat)
  : option Z :=
  match n with
  | 0 => Some octet
  | S n' =>
      let c := at_ text j in
      if negb (isDigit c) then None
      else if (digitCount =? 0) && (c =c? "0") && (1 <? groupLen) then None
      else
        let digit := (Z.of_nat (nat_of_ascii c) - 48)%Z in
        if (octet >? Z.quot (INT_MAX - digit) 10)%Z then None
        else ipv4Digits text (S j) n' groupLen
               (int_wrap (octet * 10 + digit)) (S digitCount)
  end.

(** [for (i = start; i <= end && octetIdx < 4; ++i)]; the result is
    [(octetIdx, numStart)] at loop exit, or [None] for [return false].
    The [octets] array is written and never read, so it is not kept. *)
Fixpoint ipv4Loop (text : text_t) (end_ : nat) (n i octetIdx numStart : nat)
  : option (nat * nat) :=
  match n with
  | 0 => Some (octetIdx, numStart)
  | S n' =>
      if (i <=? end_) && (octetIdx <? 4) then
        if (i =? end_) || (at_ text i =c? ".") then
          if (i =? numStart) || (4 <=? octetIdx) then None
          else
            match ipv4Digits text numStart (i - numStart) (i - numStart) 0%Z 0 with
            | None => None
            | Some octet =>
                if (octet >? 255)%Z then None
                else ipv4Loop text end_ n' (S i) (S octetIdx) (S i)
            end
        else ipv4Loop text end_ n' (S i) octetIdx numStart
      else Some (octetIdx, numStart)
  end.

Definition validateIPv4 (text : text_t) (start end_ : nat) : bool :=
  if (end_ <=? start) || (length text <? end_) then false
  else
    match ipv4Loop text end_ (S end_ - start) start 0 start with
    | None => false
    | Some (octetIdx, numStart) =>
        if negb (octetIdx =? 4) then false
        else if negb (numStart - 1 =? end_) then false
        else true
    end.

Definition MAX_IPV6_ITERATIONS : nat := 1000.

(** Inner [while] of [validateIPv6]: consumes hexadecimal digits; the result
    is [(pos, hexDigits)], or [None] for [return false] (a fifth digit).  The
    body returns at the fifth digit, so five rounds are enough. *)
Fixpoint hexRun (text : text_t) (end_ : nat) (n pos hexDigits : nat)
  : option (nat * nat) :=
  match n with
  | 0 => None
  | S n' =>
      if (pos <? end_) && (pos <? length text) && isHexDigit (at_ text pos) then
        if 4 <? S hexDigits then None
        else hexRun text end_ n' (S pos) (S hexDigits)
      else Some (pos, hexDigits)
  end.

(** Code after the main loop of [validateIPv6]. *)
Definition ipv6Finish (segmentCount : nat) (hasCompression : bool) (iterations : nat)
  : bool :=
  if MAX_IPV6_ITERATIONS <=? iterations then false
  else if hasCompression then segmentCount <=? 7
  else segmentCount =? 8.

(** [while (pos < end && iterations++ < MAX_IPV6_ITERATIONS)].  [n] bounds the
    rounds; it starts above [MAX_IPV6_ITERATIONS], so the test on
    [iterations] always ends the loop first. *)
Fixpoint ipv6Loop (text : text_t) (end_ : nat) (n pos segmentCount : nat)
  (hasCompression : bool) (iterations : nat) : bool :=
  match n with
  | 0 => false
  | S n' =>
      if pos <? end_ then
        if iterations <? MAX_IPV6_ITERATIONS then
          let iterations := S iterations in
          let segStart := pos in
          match hexRun text end_ 5 pos 0 with
          | None => false
          | Some (pos, hexDigits) =>
              let after_colon segmentCount :=
                if end_ <=? pos then ipv6Finish segmentCount hasCompression iterations
                else if at_ text pos =c? ":" then
                  let pos := S pos in
                  if (pos <? end_) && (pos <? length text) && (at_ text pos =c? ":") then
                    if hasCompression then false
                    else
                      let pos := S pos in
                      if end_ <=? pos then ipv6Finish segmentCount true iterations
                      else ipv6Loop text end_ n' pos segmentCount true iterations
                  else if hexDigits =? 0 then false
                  else if end_ <=? pos then false
                  else ipv6Loop text end_ n' pos segmentCount hasCompression iterations
                else false in
              if 0 <? hexDigits then
                let segmentCount := S segmentCount in
                if 8 <? segmentCount then false
                else if (pos <? end_) && (pos <? length text) && (at_ text pos =c? ".") then
                  if validateIPv4 text segStart end_ then
                    ipv6Finish (segmentCount - 1 + 2) hasCompression iterations
                  else false
                else after_colon segmentCount
              else after_colon segmentCount
          end
        else ipv6Finish segmentCount hasCompression (S iterations)
      else ipv6Finish segmentCount hasCompression iterations
  end.

Definition validateIPv6 (text : text_t) (start end_ : nat) : bool :=
  if (end_ <=? start) || (length text <? end_) then false
  else
    let pos := start in
    if (pos + 1 <=? end_) && (pos + 1 <=? length text)
       && (at_ text pos =c? ":") && (at_ text (pos + 1) =c? ":")
    then
      let pos := pos + 2 in
      if end_ <=? pos then true
      else ipv6Loop text end_ (S MAX_IPV6_ITERATIONS) pos 0 true 0
    else if (pos <? length text) && (at_ text pos =c? ":") then false
    else ipv6Loop text end_ (S MAX_IPV6_ITERATIONS) pos 0 false 0.

(** [(p | 0x20) == lower]: case-insensitive comparison with a lowercase
    letter. *)
Definition eq_nocase (p lower : byte) : bool :=
  N.eqb (N.lor (N_of_ascii p) 0x20) (N_of_ascii lower).

(** Last loop of [validateIPLiteral]: looks for a colon; both outcomes lead
    to [return false]. *)
Fixpoint colonLoop (text : text_t) (i n : nat) : bool :=
  match n with
  | 0 => false
  | S n' =>
      if length text <=? i then false
      else if at_ text i =c? ":" then false
      else colonLoop text (S i) n'
  end.

Definition validateIPLiteral (text : text_t) (start end_ : nat) : bool :=
  let len := length text in
  if (end_ <=? start) || (len <? end_) then false
  else if negb (at_ text start =c? "[") || negb (at_ text (end_ - 1) =c? "]") then false
  else
    let ipStart := start + 1 in
    let ipEnd := end_ - 1 in
    if (ipEnd <=? ipStart) || (len <? ipEnd) then false
    else if (6 <? end_ - start) && (ipStart + 5 <=? len)
            && eq_nocase (at_ text ipStart) "i"
            && eq_nocase (at_ text (ipStart + 1)) "p"
            && eq_nocase (at_ text (ipStart + 2)) "v"
            && (at_ text (ipStart + 3) =c? "6")
            && (at_ text (ipStart + 4) =c? ":")
    then
      let addrStart := ipStart + 5 in
      let addrStart :=
        if (addrStart <? ipEnd) && (addrStart <? len) && (at_ text addrStart =c? ":")
        then ipStart + 4 else addrStart in
      validateIPv6 text addrStart ipEnd
    else if validateIPv4 text ipStart ipEnd then true
    else colonLoop text ipStart (ipEnd - ipStart).

Definition validate (text : text_t) (start end_ : nat) : bool :=
  if (end_ <=? start) || (length text <? end_) then false
  else if at_ text start =c? "[" then validateIPLiteral text start end_
  else validateDomainLabels text start end_.

End DomainPartValidator.

(* ------------------------------------------------------------------------- *)
(** ** EmailValidator *)

Module EmailValidator.

Definition MIN_EMAIL_SIZE : nat := 5.
Definition MAX_EMAIL_SIZE : nat := 320.

(** The single pass of [isValid] that looks for the separating [@].  The
    result is the final [atPos] ([None] inside for [npos]), or [None] for the
    early [return false] on a second unquoted [@]. *)
Fixpoint atLoop (text : text_t) (i n : nat) (atPos : option nat)
  (inQuotes escaped : bool) : option (option nat) :=
  match n with
  | 0 => Some atPos
  | S n' =>
      let c := at_ text i in
      if escaped then atLoop text (S i) n' atPos inQuotes false
      else if (c =c? "\") && inQuotes then atLoop text (S i) n' atPos inQuotes true
      else if c =c? DQUOTE then atLoop text (S i) n' atPos (negb inQuotes) escaped
      else if (c =c? "@") && negb inQuotes then
        match atPos with
        | Some _ => None
        | None => atLoop text (S i) n' (Some i) inQuotes escaped
        end
      else atLoop text (S i) n' atPos inQuotes escaped
  end.

Definition isValid (email : string_view) : bool :=
  let len := sv_length email in
  if (len <? MIN_EMAIL_SIZE) || (MAX_EMAIL_SIZE <? len) then false
  else if sv_is_null email then false
  else
    let text := sv_bytes email in
    match atLoop text 0 len None false false with
    | None => false
    | Some None => false
    | Some (Some atPos) =>
        if (atPos =? 0) || (len - 1 <=? atPos) then false
        else
          LocalPartValidator.validate text 0 atPos LocalPartValidator.EXACT
          && DomainPartValidator.validate text (atPos + 1) len
    end.

End EmailValidator.

(* ------------------------------------------------------------------------- *)
(** ** EmailScanner *)

Fixpoint text_eqb (a b : text_t) : bool :=
  match a, b with
  | [], [] => true
  | x :: a', y :: b' => (x =c? y) && text_eqb a' b'
  | _, _ => false
  end.

Module EmailScanner.

Definition MAX_INPUT_SIZE : nat := 10 * 1024 * 1024.
Definition MAX_LEFT_SCAN : nat := 4096.
Definition MAX_EMAILS_EXTRACT : nat := 10 * 1000.
Definition MAX_TOTAL_CHARS_SCANNED : nat := 1000 * 1000.
Definition MAX_SCAN_ITERATIONS : nat := 100 * 1000.

Record EmailBoundaries : Type := mkBoundaries {
  start : nat;
  end_ : nat;
  validBoundaries : bool;
  skipTo : nat
}.

Fixpoint findFirstAlnumLoop (data : text_t) (n pos : nat) : option nat :=
  match n with
  | 0 => None
  | S n' =>
      if isAlphaNum (at_ data pos) then Some pos
      else findFirstAlnumLoop data n' (S pos)
  end.

Definition findFirstAlnum (data : text_t) (pos limit : nat) : option nat :=
  let limit := Nat.min limit (length data) in
  findFirstAlnumLoop data (limit - pos) pos.

Fixpoint findFirstAtextLoop (data : text_t) (n pos : nat) : option nat :=
  match n with
  | 0 => None
  | S n' =>
      if isAtext (at_ data pos) then Some pos
      else findFirstAtextLoop data n' (S pos)
  end.

Definition findFirstAtext (data : text_t) (pos limit : nat) : option nat :=
  let limit := Nat.min limit (length data) in
  findFirstAtextLoop data (limit - pos) pos.

(** [while (end < len && isDomainChar(data[end])) ++end;] *)
Fixpoint domainRun (data : text_t) (n e : nat) : nat :=
  match n with
  | 0 => e
  | S n' =>
      if (e <? length data) && isDomainChar (at_ data e) then domainRun data n' (S e)
      else e
  end.

(** [while (end > atPos + 1 && data[end - 1] == c) --end;] *)
Fixpoint trimTrailing (data : text_t) (atPos : nat) (c : byte) (e : nat) : nat :=
  match e with
  | 0 => 0
  | S e' =>
      if (atPos + 1 <? e) && (at_ data e' =c? c) then trimTrailing data atPos c e'
      else e
  end.

(** The inner [while (true)] look-back of the left scan; the result is
    [(validStart, foundValid)]. *)
Fixpoint lookbackLoop (data : text_t) (atPos lookbackLimit : nat)
  (n lookback validStart : nat) (foundValid : bool) : nat * bool :=
  match n with
  | 0 => (validStart, foundValid)
  | S n' =>
      if (lookback <? lookbackLimit) || (atPos <=? lookback)
         || (length data <=? lookback)
      then (validStart, foundValid)
      else
        let c := at_ data lookback in
        if isAtext c && negb (c =c? ".") then
          if lookback =? lookbackLimit then (lookback, true)
          else lookbackLoop data atPos lookbackLimit n' (lookback - 1) lookback true
        else (validStart, foundValid)
  end.

(** [while (start > effectiveMin)]: the backward scan for the start of the
    local part.  The result is [(start, hitInvalidChar, invalidCharPos)].
    Every round that continues lowers [start], so [n = atPos] rounds are
    enough and at [n = 0] the loop test has failed. *)
Fixpoint leftScan (data : text_t) (atPos e effectiveMin : nat) (n start : nat)
  : nat * bool * nat :=
  match n with
  | 0 => (start, false, atPos)
  | S n' =>
      if effectiveMin <? start then
        let prevChar := at_ data (start - 1) in
        if prevChar =c? "@" then (start, false, atPos)
        else if (prevChar =c? ".") && (effectiveMin + 1 <? start) && (2 <=? start)
                && (at_ data (start - 2) =c? ".")
        then (start, true, start - 1)
        else if isInvalidLocalChar prevChar then
          if (prevChar =c? "@") && (effectiveMin + 1 <? start) then
            match lookbackLoop data atPos effectiveMin (S (start - 2)) (start - 2)
                    (start - 1) false with
            | (validStart, true) => leftScan data atPos e effectiveMin n' validStart
            | (_, false) => (start, true, start)
            end
          else (start, true, start)
        else if isQuoteChar prevChar then
          if (effectiveMin + 1 <? start) && (2 <=? start)
             && (at_ data (start - 2) =c? prevChar)
          then leftScan data atPos e effectiveMin n' (start - 1)
          else if (e <? length data) && (at_ data e =c? prevChar)
                  && (e + 1 <? length data) && (at_ data (e + 1) =c? prevChar)
          then leftScan data atPos e effectiveMin n' (start - 1)
          else if (e <? length data) && (at_ data e =c? prevChar)
          then (start, false, atPos)
          else if (effectiveMin + 1 <? start) && (2 <=? start) then
            let prevPrevChar := at_ data (start - 2) in
            if (prevPrevChar =c? "=") || (prevPrevChar =c? ":")
               || isScanBoundary prevPrevChar || isQuoteChar prevPrevChar
            then leftScan data atPos e effectiveMin n' (start - 1)
            else leftScan data atPos e effectiveMin n' (start - 1)
          else if start =? effectiveMin + 1 then (start - 1, false, atPos)
          else leftScan data atPos e effectiveMin n' (start - 1)
        else if prevChar =c? "." then leftScan data atPos e effectiveMin n' (start - 1)
        else if isAtext prevChar then leftScan data atPos e effectiveMin n' (start - 1)
        else (start, false, atPos)
      else (start, false, atPos)
  end.

(** [while (start < atPos && data[start] == '.') ++start;] *)
Fixpoint skipLeadingDots (data : text_t) (atPos : nat) (n start : nat) : nat :=
  match n with
  | 0 => start
  | S n' =>
      if (start <? atPos) && (at_ data start =c? ".")
      then skipLeadingDots data atPos n' (S start)
      else start
  end.

(** Legality of the byte before [start]. *)
Definition leftBoundaryOk (data : text_t) (effectiveMin start : nat) (didRecovery : bool)
  : bool :=
  if (effectiveMin <? start) && (0 <? start) then
    let prevChar := at_ data (start - 1) in
    let v1 :=
      if didRecovery then negb (isAlphaNum prevChar)
      else if isInvalidLocalChar prevChar then true
      else if negb (isScanBoundary prevChar)
              && negb (prevChar =c? "@") && negb (prevChar =c? ".")
              && negb (prevChar =c? "=") && negb (prevChar =c? "'")
              && negb (prevChar =c? "`") && negb (prevChar =c? DQUOTE)
              && negb (prevChar =c? "/")
      then false
      else true in
    let v2 :=
      if isQuoteChar prevChar && (effectiveMin + 1 <? start) && (2 <=? start) then
        let prevPrevChar := at_ data (start - 2) in
        if isScanBoundary prevPrevChar || (prevPrevChar =c? "=")
           || (prevPrevChar =c? ":") || isQuoteChar prevPrevChar
        then true else v1
      else v1 in
    if (prevChar =c? "/") && (effectiveMin + 1 <? start) && (2 <=? start) then
      if at_ data (start - 2) =c? "/" then true else v2
    else v2
  else true.

(** Legality of the byte at [end]. *)
Definition rightBoundaryOk (data : text_t) (e : nat) (validBoundaries : bool) : bool :=
  if (e <? length data) && validBoundaries then
    let nextChar := at_ data e in
    if negb (isScanRightBoundary nextChar)
       && negb (nextChar =c? "'") && negb (nextChar =c? "`")
       && negb (nextChar =c? DQUOTE) && negb (nextChar =c? "@")
       && negb (nextChar =c? "\") && negb (isAtext nextChar)
    then false
    else validBoundaries
  else validBoundaries.

(** Right-boundary expansion: the run of domain characters after the anchor,
    then the trimming of trailing dots and, before another [@], of trailing
    hyphens. *)
Definition rightBoundary (data : text_t) (atPos : nat) : nat :=
  let len := length data in
  let e := atPos + 1 in
  let e := domainRun data (len - e) e in
  let e := trimTrailing data atPos "." e in
  if (e <? len) && (at_ data e =c? "@") then trimTrailing data atPos "-" e else e.

(** [effectiveMin]: the lowest index the left scan may reach. *)
Definition effectiveMinOf (atPos minScannedIndex : nat) : nat :=
  if MAX_LEFT_SCAN <? atPos
  then Nat.max minScannedIndex (atPos - MAX_LEFT_SCAN)
  else minScannedIndex.

(** Invalid-character recovery: the new [(start, didRecovery)], or [None]
    when the candidate is given up. *)
Definition recoverStart (data : text_t) (atPos effectiveMin : nat)
  (start : nat) (hitInvalidChar : bool) (invalidCharPos : nat) : option (nat * bool) :=
  if hitInvalidChar then
    match findFirstAlnum data (Nat.max invalidCharPos effectiveMin) atPos with
    | Some recoveryPos => Some (recoveryPos, true)
    | None =>
        match findFirstAtext data (Nat.max invalidCharPos effectiveMin) atPos with
        | Some recoveryPos => Some (recoveryPos, true)
        | None => None
        end
    end
  else Some (start, false).

(** Leading dots are dropped, and a start that follows an illegal byte moves
    to the first alphanumeric byte, if there is one. *)
Definition adjustStart (data : text_t) (atPos effectiveMin start : nat) : nat :=
  let start := skipLeadingDots data atPos (atPos - start) start in
  if (start <? atPos) && (effectiveMin <? start) && (0 <? start)
     && isInvalidLocalChar (at_ data (start - 1))
  then match findFirstAlnum data start atPos with
       | Some firstAlnum => firstAlnum
       | None => start
       end
  else start.

Definition findEmailBoundaries (text : text_t) (atPos minScannedIndex : nat)
  : EmailBoundaries :=
  let len := length text in
  let data := text in
  if len <=? atPos then mkBoundaries atPos atPos false atPos
  else if (atPos + 1 <? len) && (at_ data (atPos + 1) =c? "[")
  then mkBoundaries atPos atPos false (atPos + 1)
  else
    let e := rightBoundary data atPos in
    let effectiveMin := effectiveMinOf atPos minScannedIndex in
    match leftScan data atPos e effectiveMin atPos atPos with
    | (start, hitInvalidChar, invalidCharPos) =>
        match recoverStart data atPos effectiveMin start hitInvalidChar invalidCharPos with
        | None => mkBoundaries atPos atPos false (Nat.min (invalidCharPos + 1) len)
        | Some (start, didRecovery) =>
            let start := adjustStart data atPos effectiveMin start in
            if atPos <=? start
            then mkBoundaries atPos atPos false (Nat.min (atPos + 1) len)
            else
              let validBoundaries := leftBoundaryOk data effectiveMin start didRecovery in
              let validBoundaries := rightBoundaryOk data e validBoundaries in
              mkBoundaries start e validBoundaries 0
        end
    end.

(** [std::memchr(data + pos, '@', len - pos)], as an index. *)
Fixpoint memchrAt (data : text_t) (n pos : nat) : option nat :=
  match n with
  | 0 => None
  | S n' => if at_ data pos =c? "@" then Some pos else memchrAt data n' (S pos)
  end.

(** The scan loop of [contains].  Nothing in the loop header bounds the
    number of rounds, so [n] is an explicit budget and [None] means that it
    ran out; [S len] rounds always suffice (see [containsLoop_total]). *)
Fixpoint containsLoop (text : text_t) (n : nat)
  (pos minScannedIndex lastConsumedEnd totalCharsScanned : nat) : option bool :=
  match n with
  | 0 => None
  | S n' =>
      let len := length text in
      if pos <? len then
        match memchrAt text (len - pos) pos with
        | None => Some false
        | Some atPos =>
            if (atPos <? 1) || (len - 3 <=? atPos) then
              containsLoop text n' (atPos + 1) minScannedIndex lastConsumedEnd
                totalCharsScanned
            else if atPos <? lastConsumedEnd then
              containsLoop text n' (atPos + 1) minScannedIndex lastConsumedEnd
                totalCharsScanned
            else
              let boundaries := findEmailBoundaries text atPos minScannedIndex in
              let totalCharsScanned :=
                totalCharsScanned + ((atPos - start boundaries)
                                     + (end_ boundaries - atPos)) in
              if MAX_TOTAL_CHARS_SCANNED <? totalCharsScanned then Some false
              else if negb (validBoundaries boundaries) then
                let pos := if 0 <? skipTo boundaries then skipTo boundaries
                           else atPos + 1 in
                containsLoop text n' pos minScannedIndex lastConsumedEnd
                  totalCharsScanned
              else if LocalPartValidator.validate text (start boundaries) atPos
                        LocalPartValidator.SCAN
                      && DomainPartValidator.validate text (atPos + 1) (end_ boundaries)
              then Some true
              else
                containsLoop text n' (atPos + 1) minScannedIndex lastConsumedEnd
                  totalCharsScanned
        end
      else Some false
  end.

Definition contains_fuel (n : nat) (text : string_view) : option bool :=
  let len := sv_length text in
  if (MAX_INPUT_SIZE <? len) || (len <? 5) then Some false
  else if sv_is_null text && (0 <? len) then Some false
  else containsLoop (sv_bytes text) n 0 0 0 0.

Definition contains (text : string_view) : bool :=
  match contains_fuel (S (sv_length text)) text with
  | Some b => b
  | None => false
  end.

(** A recorded match: the span [[m_start, m_end)] around the anchor [m_at]. *)
Record span : Type := mkSpan { m_start : nat; m_at : nat; m_end : nat }.

(** Loop variables of [extract].  [spans] is ghost state: it remembers, for
    each string pushed to [emails], the span it was cut from. *)
Record extract_state : Type := mkState {
  pos : nat;
  minScannedIndex : nat;
  lastConsumedEnd : nat;
  extractedCount : nat;
  totalCharsScanned : nat;
  seen : list text_t;
  emails : list text_t;
  spans : list span
}.

(** [for (look = end; look < lookLimit; ++look) if (data[look] == '@') ...] *)
Fixpoint nearbyAtLoop (data : text_t) (n look : nat) : bool :=
  match n with
  | 0 => false
  | S n' => if at_ data look =c? "@" then true else nearbyAtLoop data n' (S look)
  end.

(** The scan loop of [extract]: [while (pos < len && iterations++ <
    MAX_SCAN_ITERATIONS)].  [n] is the number of rounds the iteration cap
    still allows. *)
Fixpoint extractLoop (text : text_t) (n : nat) (st : extract_state) : extract_state :=
  match n with
  | 0 => st
  | S n' =>
      let len := length text in
      if pos st <? len then
        if MAX_EMAILS_EXTRACT <=? extractedCount st then st
        else
          match memchrAt text (len - pos st) (pos st) with
          | None => st
          | Some atPos =>
              let goto p :=
                mkState p (minScannedIndex st) (lastConsumedEnd st) (extractedCount st)
                  (totalCharsScanned st) (seen st) (emails st) (spans st) in
              if (atPos <? 1) || (len - 3 <=? atPos) then
                extractLoop text n' (goto (atPos + 1))
              else if atPos <? lastConsumedEnd st then
                extractLoop text n' (goto (atPos + 1))
              else
                let boundaries := findEmailBoundaries text atPos (minScannedIndex st) in
                let total :=
                  totalCharsScanned st + ((atPos - start boundaries)
                                          + (end_ boundaries - atPos)) in
                let goto' p :=
                  mkState p (minScannedIndex st) (lastConsumedEnd st) (extractedCount st)
                    total (seen st) (emails st) (spans st) in
                if MAX_TOTAL_CHARS_SCANNED <? total then goto' (pos st)
                else if negb (validBoundaries boundaries) then
                  extractLoop text n'
                    (goto' (if 0 <? skipTo boundaries then skipTo boundaries
                            else atPos + 1))
                else if LocalPartValidator.validate text (start boundaries) atPos
                          LocalPartValidator.SCAN
                        && DomainPartValidator.validate text (atPos + 1) (end_ boundaries)
                then
                  if (len <=? start boundaries) || (len <? end_ boundaries)
                     || (end_ boundaries <=? start boundaries)
                  then extractLoop text n' (goto' (atPos + 1))
                  else
                    let m := substr text (start boundaries)
                               (end_ boundaries - start boundaries) in
                    let inserted := negb (existsb (text_eqb m) (seen st)) in
                    let nextChar := at_ text (end_ boundaries) in
                    let lookLimit := Nat.min (end_ boundaries + 65) len in
                    let foundNearbyAt :=
                      (end_ boundaries <? len)
                      && (isAtext nextChar || (nextChar =c? "."))
                      && nearbyAtLoop text (lookLimit - end_ boundaries) (end_ boundaries) in
                    extractLoop text n'
                      (mkState
                         (if foundNearbyAt then end_ boundaries else end_ boundaries)
                         (Nat.max (minScannedIndex st) (start boundaries))
                         (Nat.max (lastConsumedEnd st) (end_ boundaries))
                         (if inserted then S (extractedCount st) else extractedCount st)
                         total
                         (if inserted then m :: seen st else seen st)
                         (if inserted then emails st ++ [m] else emails st)
                         (if inserted
                          then spans st ++ [mkSpan (start boundaries) atPos (end_ boundaries)]
                          else spans st))
                else extractLoop text n' (goto' (atPos + 1))
          end
      else st
  end.

Definition initState : extract_state := mkState 0 0 0 0 0 [] [] [].

Definition extract_state_of (text : string_view) : extract_state :=
  let len := sv_length text in
  if (MAX_INPUT_SIZE <? len) || (len <? 5) then initState
  else if sv_is_null text && (0 <? len) then initState
  else extractLoop (sv_bytes text) MAX_SCAN_ITERATIONS initState.

Definition extract (text : string_view) : list text_t :=
  emails (extract_state_of text).

Definition extract_spans (text : string_view) : list span :=
  spans (extract_state_of text).

End EmailScanner.

(* ------------------------------------------------------------------------- *)
(** ** Specification-level notions

    These definitions follow the wording of the specification; the theorems
    below compare them with the embedded code. *)

Module Spec.

(** Offsets of the [@] bytes of [s] that are not enclosed in a quoted
    region: a left-to-right pass in which an unescaped double quote toggles
    the quote state and a backslash escapes the next byte only inside
    quotes.  [i] is the offset of the head of [s]. *)
Fixpoint unquoted_ats (s : text_t) (i : nat) (inQuotes escaped : bool) : list nat :=
  match s with
  | [] => []
  | c :: s' =>
      if escaped then unquoted_ats s' (S i) inQuotes false
      else if inQuotes then
        if c =c? "\" then unquoted_ats s' (S i) true true
        else if c =c? DQUOTE then unquoted_ats s' (S i) false false
        else unquoted_ats s' (S i) true false
      else if c =c? DQUOTE then unquoted_ats s' (S i) true false
      else if c =c? "@" then i :: unquoted_ats s' (S i) false false
      else unquoted_ats s' (S i) false false
  end.

Definition unquoted_at_positions (s : text_t) : list nat :=
  unquoted_ats s 0 false false.

(** First and last byte of a byte string (the zero byte when empty). *)
Definition first_byte (l : text_t) : byte := hd zero l.
Definition last_byte (l : text_t) : byte := last l zero.

(** No two consecutive dots. *)
Fixpoint no_consecutive_dots (l : text_t) : bool :=
  match l with
  | c1 :: ((c2 :: _) as l') =>
      negb ((c1 =c? ".") && (c2 =c? ".")) && no_consecutive_dots l'
  | _ => true
  end.

(** Scan-mode local part: 1 to 64 bytes, not starting with a double quote or
    a dot, not ending with a dot, no consecutive dots, only atext bytes and
    dots. *)
Definition scan_local_ok (l : text_t) : bool :=
  (1 <=? length l) && (length l <=? 64)
  && negb (first_byte l =c? DQUOTE) && negb (first_byte l =c? ".")
  && negb (last_byte l =c? ".")
  && no_consecutive_dots l
  && forallb (fun c => isAtext c || (c =c? ".")) l.

(** Splitting on dots: [split_on_dot "a.b"] is [["a"; "b"]]; a leading,
    trailing or doubled dot yields an empty piece. *)
Fixpoint split_on_dot (l : text_t) : list text_t :=
  match l with
  | [] => [[]]
  | c :: l' =>
      if c =c? "." then [] :: split_on_dot l'
      else match split_on_dot l' with
           | h :: t => (c :: h) :: t
           | [] => [[c]]
           end
  end.

(** A domain label: 1 to 63 bytes, alphanumerics and hyphens only, not
    starting or ending with a hyphen. *)
Definition label_ok (l : text_t) : bool :=
  (1 <=? length l) && (length l <=? 63)
  && negb (first_byte l =c? "-") && negb (last_byte l =c? "-")
  && forallb (fun c => isAlphaNum c || (c =c? "-")) l.

(** The dot-labelled domain form. *)
Definition domain_labels_ok (d : text_t) : bool :=
  (1 <=? length d) && (length d <=? 253)
  && negb (first_byte d =c? ".") && negb (first_byte d =c? "-")
  && negb (last_byte d =c? ".") && negb (last_byte d =c? "-")
  && no_consecutive_dots d
  && forallb label_ok (split_on_dot d)
  && (if 2 <=? length (split_on_dot d)
      then forallb isAlphaNum (last (split_on_dot d) [])
      else true).

(** Decimal value of a digit string. *)
Definition digit_value (c : byte) : Z := (Z.of_nat (nat_of_ascii c) - 48)%Z.

Definition dec_step (acc : Z) (c : byte) : Z := (acc * 10 + digit_value c)%Z.

Definition decimal_value (g : text_t) : Z := fold_left dec_step g 0%Z.

(** An IPv4 group: decimal digits only, at least one, no leading zero unless
    the group is exactly "0", value at most 255. *)
Definition octet_ok (g : text_t) : bool :=
  (1 <=? length g) && forallb isDigit g
  && negb ((first_byte g =c? "0") && (1 <? length g))
  && (decimal_value g <=? 255)%Z.

(** A dotted quad: exactly four groups separated by dots, nothing else. *)
Definition ipv4_ok (d : text_t) : bool :=
  (length (split_on_dot d) =? 4) && forallb octet_ok (split_on_dot d).

End Spec.

(* ------------------------------------------------------------------------- *)
(** ** The grammar of IPv6 address text

    Groups are separated by single colons; one "::" may stand for elided
    zero groups; the last group may be a dotted quad, which fills two of the
    eight 16-bit slots. *)

Module IPv6Grammar.

(** A hextet: 1 to 4 hexadecimal digits. *)
Definition hextet_ok (g : text_t) : bool :=
  (1 <=? length g) && (length g <=? 4) && forallb isHexDigit g.

(** The slot count an address may end with: exactly 8 without compression,
    at most 7 with it. *)
Definition slots_ok (compressed : bool) (n : nat) : Prop :=
  if compressed then n <= 7 else n = 8.

(** [tail compressed n d]: the text [d] completes an address of which [n]
    slots have been read, [compressed] telling whether a "::" was seen. *)
Inductive tail : bool -> nat -> text_t -> Prop :=
| tail_last_hextet (c : bool) (n : nat) (g : text_t) :
    hextet_ok g = true -> slots_ok c (S n) -> tail c n g
| tail_last_ipv4 (c : bool) (n : nat) (g : text_t) :
    Spec.ipv4_ok g = true -> S n <= 8 -> slots_ok c (n + 2) -> tail c n g
| tail_colon (c : bool) (n : nat) (g rest : text_t) :
    hextet_ok g = true -> S n <= 8 -> tail c (S n) rest ->
    tail c n (g ++ ":"%char :: rest)
| tail_compress_end (n : nat) (g : text_t) :
    hextet_ok g = true -> slots_ok true (S n) ->
    tail false n (g ++ [":"%char; ":"%char])
| tail_compress (n : nat) (g rest : text_t) :
    hextet_ok g = true -> S n <= 8 -> tail true (S n) rest ->
    tail false n (g ++ ":"%char :: ":"%char :: rest).

(** A whole address. *)
Definition address (d : text_t) : Prop :=
  d = [":"%char; ":"%char]
  \/ (exists rest, d = ":"%char :: ":"%char :: rest /\ tail true 0 rest)
  \/ tail false 0 d.

End IPv6Grammar.

(* ------------------------------------------------------------------------- *)
(** ** Auxiliary definitions used in the proofs *)

(** What [atLoop] computes, in terms of the unquoted [@] offsets still ahead:
    it fails as soon as a second one shows up. *)
Definition atLoop_result (atPos : option nat) (ahead : list nat) : option (option nat) :=
  match atPos, ahead with
  | _, [] => Some atPos
  | None, [p] => Some (Some p)
  | _, _ => None
  end.

(** The decision [validateIPv4] takes once its loop is over. *)
Definition ipv4_accept (e : nat) (r : option (nat * nat)) : bool :=
  match r with
  | None => false
  | Some (octetIdx, numStart) => (octetIdx =? 4) && (numStart - 1 =? e)
  end.

Import EmailScanner.

(** The bytes of a recorded span. *)
Definition span_text (text : text_t) (sp : span) : text_t :=
  substr text (m_start sp) (m_end sp - m_start sp).

(** What the scan loop has checked about a span before recording it. *)
Definition good_span (text : text_t) (sp : span) : Prop :=
  m_start sp < m_at sp /\ m_at sp + 1 < m_end sp /\ m_end sp <= length text
  /\ at_ text (m_at sp) = "@"%char
  /\ at_ text (m_at sp + 1) <> "["%char
  /\ LocalPartValidator.validate text (m_start sp) (m_at sp) LocalPartValidator.SCAN = true
  /\ DomainPartValidator.validate text (m_at sp + 1) (m_end sp) = true.

(** Order of two recorded spans: the later one starts after the anchor of the
    earlier one, and its anchor is not before the end of the earlier one. *)
Definition span_before (a b : span) : Prop :=
  m_at a < m_start b /\ m_end a <= m_at b.

(** Two spans share no byte. *)
Definition spans_disjoint (a b : span) : Prop :=
  m_end a <= m_start b \/ m_end b <= m_start a.

(** Invariant of the scan loop of [extract]. *)
Record extract_inv (text : text_t) (st : extract_state) : Prop := mkInv {
  inv_emails : emails st = map (span_text text) (spans st);
  inv_seen : forall m, In m (seen st) <-> In m (emails st);
  inv_good : Forall (good_span text) (spans st);
  inv_nodup : NoDup (emails st);
  inv_sorted : StronglySorted span_before (spans st);
  inv_last : Forall (fun sp => m_end sp <= lastConsumedEnd st) (spans st)
}.

(** 100,000 [@] bytes followed by an address. *)
Definition long_at_run : text_t :=
  repeat "@"%char MAX_SCAN_ITERATIONS ++ lit "a@b.co".

(* ------------------------------------------------------------------------- *)
(** ** Byte sets by range and by enumeration

    The classes of [CharacterClassifier] written as ranges of byte codes and
    as explicit sets, to compare the 256-entry table with. *)

Module ByteSet.

Definition in_range (lo hi : nat) (c : byte) : bool :=
  (lo <=? nat_of_ascii c) && (nat_of_ascii c <=? hi).

Definition upper (c : byte) : bool := in_range 65 90 c.
Definition lower (c : byte) : bool := in_range 97 122 c.
Definition digit (c : byte) : bool := in_range 48 57 c.
Definition hex (c : byte) : bool := digit c || in_range 65 70 c || in_range 97 102 c.

Definition one_of (set : text_t) (c : byte) : bool := existsb (Ascii.eqb c) set.

(** The punctuation the table marks [CHAR_ATEXT_SPECIAL]; the dot is in it. *)
Definition atext_specials : text_t := lit "!#$%&'*+-./=?^_`{|}~".

(** Tab, line feed, carriage return, space and the separators. *)
Definition scan_boundaries : text_t :=
  [ascii_of_nat 9; ascii_of_nat 10; ascii_of_nat 13] ++ lit " (),:;<>[]".

Definition quote_chars : text_t := DQUOTE :: lit "'`".

End ByteSet.

(* ------------------------------------------------------------------------- *)
(** ** Quoted local parts *)

Module QuotedString.

(** The content between the two quotes, read left to right: a backslash
    escapes the next byte, which must be ASCII; an unescaped double quote is
    not allowed; every other byte is printable ASCII, a space or a tab; the
    content does not end on a pending escape. *)
Fixpoint content_ok (l : text_t) (escaped : bool) : bool :=
  match l with
  | [] => negb escaped
  | c :: l' =>
      if escaped then (nat_of_ascii c <=? 127) && content_ok l' false
      else if c =c? "\" then content_ok l' true
      else if c =c? DQUOTE then false
      else (isQtextOrQpair c || (c =c? " ") || (c =c? LocalPartValidator.TAB)) && content_ok l' false
  end.

(** A quoted string: a double quote, 1 to 64 bytes of content, a double
    quote. *)
Definition quoted (q body : text_t) : Prop :=
  q = DQUOTE :: body ++ [DQUOTE]
  /\ 1 <= length body <= 64 /\ content_ok body false = true.

End QuotedString.

(* ------------------------------------------------------------------------- *)
(** ** Bracketed IP literals *)

Module IPLiteral.

(** The tag "IPv6:", its three letters in either case. *)
Definition ipv6_tag (t : text_t) : bool :=
  match t with
  | [i; p; v; six; colon] =>
      DomainPartValidator.eq_nocase i "i" && DomainPartValidator.eq_nocase p "p"
      && DomainPartValidator.eq_nocase v "v" && (six =c? "6") && (colon =c? ":")
  | _ => false
  end.

(** The address text of a tagged literal.  When the byte after the tag is a
    colon, the address is read from the colon of the tag itself, so that tag
    and address share it: "IPv6::1" stands for the address "::1". *)
Definition tagged_address (inner : text_t) : text_t :=
  let a := skipn 5 inner in
  if at_ a 0 =c? ":" then ":"%char :: a else a.

(** What may stand between the brackets: a tagged IPv6 address, or else a
    dotted quad. *)
Definition inner_ok (inner : text_t) : Prop :=
  if ipv6_tag (firstn 5 inner)
  then IPv6Grammar.address (tagged_address inner)
  else Spec.ipv4_ok inner = true.

Definition literal (d : text_t) : Prop :=
  exists inner, d = "["%char :: inner ++ ["]"%char] /\ inner_ok inner.

(** The bytes a literal is made of. *)
Definition literal_byte (c : byte) : bool :=
  isHexDigit c || ByteSet.one_of (lit "[]:.IiPpVv") c.

End IPLiteral.

(* ------------------------------------------------------------------------- *)
(** ** ValidationStats

    The four [std::atomic<uint64_t>] counters, as seen by a single thread:
    a record passed from call to call. *)

Module ValidationStats.

Definition UINT64_RANGE : N := 2 ^ 64.

Record t : Type := mkStats {
  validationCount : N;
  scanCount : N;
  extractCount : N;
  errorCount : N
}.

(** A freshly constructed object: every counter is [{0}]. *)
Definition fresh : t := mkStats 0 0 0 0.

(** [fetch_add(1)] on an unsigned 64-bit counter. *)
Definition fetch_add1 (x : N) : N := ((x + 1) mod UINT64_RANGE)%N.

Definition recordValidation (s : t) : t :=
  mkStats (fetch_add1 (validationCount s)) (scanCount s) (extractCount s) (errorCount s).
Definition recordScan (s : t) : t :=
  mkStats (validationCount s) (fetch_add1 (scanCount s)) (extractCount s) (errorCount s).
Definition recordExtract (s : t) : t :=
  mkStats (validationCount s) (scanCount s) (fetch_add1 (extractCount s)) (errorCount s).
Definition recordError (s : t) : t :=
  mkStats (validationCount s) (scanCount s) (extractCount s) (fetch_add1 (errorCount s)).

Definition reset (s : t) : t := mkStats 0 0 0 0.

Record StatsSnapshot : Type := mkSnapshot {
  validations : N;
  scans : N;
  extracts : N;
  errors : N
}.

Definition getSuccessCount (s : StatsSnapshot) : N :=
  if (errors s <? validations s)%N then (validations s - errors s)%N else 0%N.

Definition hasErrors (s : StatsSnapshot) : bool := (0 <? errors s)%N.

Definition getSnapshot (s : t) : StatsSnapshot :=
  mkSnapshot (validationCount s) (scanCount s) (extractCount s) (errorCount s).

End ValidationStats.

(** [EmailValidator::isValid] together with the statistics it records: the
    member [stats_] goes in and comes out.  No operation of the body throws,
    so the [catch] handlers are never entered. *)
Module RecordingValidator.

Import ValidationStats.

Definition isValid (stats_ : ValidationStats.t) (email : string_view)
  : bool * ValidationStats.t :=
  let stats_ := recordValidation stats_ in
  let len := sv_length email in
  if (len <? EmailValidator.MIN_EMAIL_SIZE) || (EmailValidator.MAX_EMAIL_SIZE <? len)
  then (false, recordError stats_)
  else if sv_is_null email then (false, recordError stats_)
  else
    let text := sv_bytes email in
    match EmailValidator.atLoop text 0 len None false false with
    | None => (false, recordError stats_)
    | Some None => (false, recordError stats_)
    | Some (Some atPos) =>
        if (atPos =? 0) || (len - 1 <=? atPos) then (false, recordError stats_)
        else
          let result :=
            LocalPartValidator.validate text 0 atPos LocalPartValidator.EXACT
            && DomainPartValidator.validate text (atPos + 1) len in
          (result, if negb result then recordError stats_ else stats_)
    end.

(** A sequence of calls on the same validator object. *)
Fixpoint isValid_all (stats_ : ValidationStats.t) (emails : list string_view)
  : list bool * ValidationStats.t :=
  match emails with
  | [] => ([], stats_)
  | e :: rest =>
      let (r, stats_) := isValid stats_ e in
      let (rs, stats_) := isValid_all stats_ rest in
      (r :: rs, stats_)
  end.

End RecordingValidator.

(* ========================================================================= *)
(** * Properties *)

(* ------------------------------------------------------------------------- *)
(** ** Buffers *)

Lemma substr_length (text : text_t) (s n : nat) :
  s + n <= length text -> length (substr text s n) = n.
Proof.
  intros H. unfold substr. rewrite length_firstn, length_skipn. lia.
Qed.

Lemma substr_nil (text : text_t) (s : nat) : substr text s 0 = [].
Proof. reflexivity. Qed.

Lemma skipn_at (text : text_t) (i : nat) :
  i < length text -> skipn i text = at_ text i :: skipn (S i) text.
Proof.
  revert i. induction text as [|c text IH]; intros i H; simpl in H; [lia|].
  destruct i as [|i]; [reflexivity|].
  simpl. unfold at_ in *. simpl. apply IH. lia.
Qed.

Lemma substr_cons (text : text_t) (i n : nat) :
  i < length text -> substr text i (S n) = at_ text i :: substr text (S i) n.
Proof.
  intros H. unfold substr. rewrite (skipn_at text i H). reflexivity.
Qed.

Lemma at_substr (text : text_t) (s n i : nat) :
  i < n -> s + i < length text -> at_ (substr text s n) i = at_ text (s + i).
Proof.
  revert s i. induction n as [|n IH]; intros s i Hi Hl; [lia|].
  rewrite substr_cons by lia.
  destruct i as [|i].
  - rewrite Nat.add_0_r. reflexivity.
  - unfold at_ at 1. simpl. fold (at_ (substr text (S s) n) i).
    rewrite IH by lia. f_equal. lia.
Qed.

Lemma substr_full (text : text_t) : substr text 0 (length text) = text.
Proof. unfold substr. simpl. apply firstn_all. Qed.

Lemma substr_split (text : text_t) (s n m : nat) :
  substr text s (n + m) = substr text s n ++ substr text (s + n) m.
Proof.
  unfold substr. rewrite <- (firstn_skipn n (firstn (n + m) (skipn s text))) at 1.
  f_equal.
  - rewrite firstn_firstn. f_equal. lia.
  - rewrite skipn_firstn_comm. rewrite skipn_skipn. f_equal; [lia|f_equal; lia].
Qed.

Lemma substr_substr (text : text_t) (s n i k : nat) :
  i + k <= n -> substr (substr text s n) i k = substr text (s + i) k.
Proof.
  intros H. unfold substr.
  rewrite skipn_firstn_comm, firstn_firstn, skipn_skipn.
  f_equal; [lia|f_equal; lia].
Qed.

Lemma at_app_l (a b : text_t) (i : nat) :
  i < length a -> at_ (a ++ b) i = at_ a i.
Proof. intros H. unfold at_. apply app_nth1. exact H. Qed.

Lemma at_app_r (a b : text_t) (i : nat) :
  length a <= i -> at_ (a ++ b) i = at_ b (i - length a).
Proof. intros H. unfold at_. apply app_nth2. exact H. Qed.

Lemma at_In (text : text_t) (i : nat) : i < length text -> In (at_ text i) text.
Proof. intros H. unfold at_. apply nth_In. exact H. Qed.

Lemma beq_eq (a b : byte) : (a =c? b) = true <-> a = b.
Proof. apply Ascii.eqb_eq. Qed.

Lemma beq_neq (a b : byte) : (a =c? b) = false <-> a <> b.
Proof. apply Ascii.eqb_neq. Qed.

Lemma text_eqb_eq (a b : text_t) : text_eqb a b = true <-> a = b.
Proof.
  revert b. induction a as [|x a IH]; intros [|y b]; simpl; split; intros H;
    try reflexivity; try discriminate.
  - apply andb_true_iff in H. destruct H as [H1 H2].
    apply beq_eq in H1. apply IH in H2. congruence.
  - injection H as -> ->. apply andb_true_iff. split.
    + apply beq_eq. reflexivity.
    + apply IH. reflexivity.
Qed.

(* ------------------------------------------------------------------------- *)
(** ** Entry guards of the scanner *)

Import EmailScanner.

Lemma entry_guard_true (v : string_view) :
  sv_length v < 5 \/ MAX_INPUT_SIZE < sv_length v
  \/ (sv_is_null v = true /\ 0 < sv_length v) ->
  ((MAX_INPUT_SIZE <? sv_length v) || (sv_length v <? 5) = true)
  \/ (sv_is_null v && (0 <? sv_length v) = true).
Proof.
  intros [H|[H|[H1 H2]]].
  - left. apply orb_true_iff. right. apply Nat.ltb_lt. exact H.
  - left. apply orb_true_iff. left. apply Nat.ltb_lt. exact H.
  - right. rewrite H1. apply Nat.ltb_lt. exact H2.
Qed.

(** C9. An input shorter than 5 bytes or longer than 10 MiB, or a null
    buffer with a nonzero declared length, makes [contains] answer [false]
    and [extract] answer the empty sequence; the answer is produced by the
    entry guards, with no round of the scan loop (any loop budget, even 0,
    gives it, and the loop variables of [extract] keep their initial
    values). *)
Theorem scanner_rejects_bad_size_or_null (v : string_view) :
  sv_length v < 5 \/ MAX_INPUT_SIZE < sv_length v
  \/ (sv_is_null v = true /\ 0 < sv_length v) ->
  contains v = false /\ extract v = []
  /\ (forall n, contains_fuel n v = Some false)
  /\ extract_state_of v = initState.
Proof.
  intros H. apply entry_guard_true in H.
  assert (Hc : forall n, contains_fuel n v = Some false).
  { intros n. unfold contains_fuel.
    destruct H as [H|H]; rewrite H; [reflexivity|].
    destruct ((MAX_INPUT_SIZE <? sv_length v) || (sv_length v <? 5)); reflexivity. }
  assert (He : extract_state_of v = initState).
  { unfold extract_state_of.
    destruct H as [H|H]; rewrite H; [reflexivity|].
    destruct ((MAX_INPUT_SIZE <? sv_length v) || (sv_length v <? 5)); reflexivity. }
  repeat split.
  - unfold contains. rewrite Hc. reflexivity.
  - unfold extract. rewrite He. reflexivity.
  - exact Hc.
  - exact He.
Qed.

Lemma scanner_rejects_bad_size_or_null_witness :
  contains (NullView 7) = false /\ extract (NullView 7) = []
  /\ (forall n, contains_fuel n (NullView 7) = Some false)
  /\ extract_state_of (NullView 7) = initState.
Proof.
  apply (scanner_rejects_bad_size_or_null (NullView 7)).
  right. right. split; [reflexivity|simpl; lia].
Defined.

(* ------------------------------------------------------------------------- *)
(** ** The exact validator finds exactly one unquoted [@] *)

Import EmailValidator.

Lemma atLoop_after_found (s : text_t) (i : nat) (q e : bool) (a : nat) :
  atLoop_result (Some a) (Spec.unquoted_ats s i q e)
  = match Spec.unquoted_ats s i q e with [] => Some (Some a) | _ => None end.
Proof. destruct (Spec.unquoted_ats s i q e); reflexivity. Qed.

Lemma atLoop_spec (text : text_t) (n i : nat) (atPos : option nat) (q e : bool) :
  i + n <= length text ->
  (e = true -> q = true) ->
  atLoop text i n atPos q e
  = atLoop_result atPos (Spec.unquoted_ats (substr text i n) i q e).
Proof.
  revert i atPos q e.
  induction n as [|n IH]; intros i atPos q e Hlen Heq.
  - simpl. destruct atPos; reflexivity.
  - rewrite substr_cons by lia. simpl.
    destruct e.
    + rewrite (Heq eq_refl). apply IH; [lia|discriminate].
    + destruct q.
      * rewrite andb_true_r, andb_false_r.
        destruct (at_ text i =c? "\").
        -- apply IH; [lia|reflexivity].
        -- destruct (at_ text i =c? DQUOTE); simpl; apply IH; (lia || discriminate).
      * rewrite andb_false_r, andb_true_r.
        destruct (at_ text i =c? DQUOTE) eqn:Hq.
        -- simpl. apply IH; [lia|discriminate].
        -- destruct (at_ text i =c? "@").
           ++ destruct atPos as [a|].
              ** simpl. reflexivity.
              ** rewrite IH by (lia || discriminate).
                 simpl.
                 destruct (Spec.unquoted_ats (substr text (S i) n) (S i) false false);
                   reflexivity.
           ++ apply IH; [lia|discriminate].
Qed.

(** C4. [isValid] accepts a byte string only if its length is between 5 and
    320 and it holds exactly one [@] outside quoted regions, which is
    neither its first nor its last byte. *)
Theorem isValid_one_unquoted_at (s : text_t) :
  isValid (View s) = true ->
  5 <= length s <= 320
  /\ exists p, Spec.unquoted_at_positions s = [p]
               /\ at_ s p = "@"%char /\ 0 < p /\ p < length s - 1.
Proof.
  unfold isValid. simpl sv_length. simpl sv_is_null. simpl sv_bytes.
  unfold MIN_EMAIL_SIZE, MAX_EMAIL_SIZE.
  destruct (Nat.ltb_spec (length s) 5) as [|H5]; [discriminate|].
  destruct (Nat.ltb_spec 320 (length s)) as [|H320]; [discriminate|].
  simpl orb. cbv iota.
  rewrite atLoop_spec by (simpl; lia || discriminate).
  rewrite substr_full. fold (Spec.unquoted_at_positions s).
  assert (Hat : forall l i q e p, In p (Spec.unquoted_ats l i q e) ->
                                  i <= p /\ nth (p - i) l zero = "@"%char).
  { induction l as [|c l IHl]; intros i q e p Hin; simpl in Hin; [contradiction|].
    assert (Hrec : forall q' e', In p (Spec.unquoted_ats l (S i) q' e') ->
                                 i <= p /\ nth (p - i) (c :: l) zero = "@"%char).
    { intros q' e' Hin'. apply IHl in Hin'. destruct Hin' as [Hle Hn].
      split; [lia|]. replace (p - i) with (S (p - S i)) by lia. exact Hn. }
    destruct e; [eapply Hrec; eassumption|].
    destruct q.
    - destruct (c =c? "\"); [eapply Hrec; eassumption|].
      destruct (c =c? DQUOTE); eapply Hrec; eassumption.
    - destruct (c =c? DQUOTE); [eapply Hrec; eassumption|].
      destruct (c =c? "@") eqn:Hc; [|eapply Hrec; eassumption].
      destruct Hin as [<-|Hin]; [|eapply Hrec; eassumption].
      split; [lia|]. rewrite Nat.sub_diag. simpl. apply beq_eq. exact Hc. }
  destruct (Spec.unquoted_at_positions s) as [|p [|p' l]] eqn:Hu; simpl;
    try discriminate.
  destruct (Nat.eqb_spec p 0) as [|Hp0]; [discriminate|].
  destruct (Nat.leb_spec (length s - 1) p) as [|Hp1]; [discriminate|].
  intros _. split; [lia|]. exists p. repeat split; try lia.
  specialize (Hat s 0 false false p). unfold Spec.unquoted_at_positions in Hu.
  rewrite Hu in Hat. destruct (Hat (or_introl eq_refl)) as [_ Hn].
  rewrite Nat.sub_0_r in Hn. exact Hn.
Qed.

Lemma isValid_one_unquoted_at_witness :
  5 <= length (lit "user@example.com") <= 320
  /\ exists p, Spec.unquoted_at_positions (lit "user@example.com") = [p]
               /\ at_ (lit "user@example.com") p = "@"%char
               /\ 0 < p /\ p < length (lit "user@example.com") - 1.
Proof.
  apply (isValid_one_unquoted_at (lit "user@example.com")).
  vm_compute. reflexivity.
Defined.

(* ------------------------------------------------------------------------- *)
(** ** Character classes *)

Ltac byte_cases c := destruct c as [[|] [|] [|] [|] [|] [|] [|] [|]].

Ltac by_table c :=
  byte_cases c; vm_compute; try reflexivity; try discriminate; try tauto;
  try (intros; discriminate); try (intros; congruence).

Lemma atext_not_invalid (c : byte) : isAtext c = true -> isInvalidLocalChar c = false.
Proof. by_table c. Qed.

Lemma atext_not_at (c : byte) : isAtext c = true -> (c =c? "@") = false.
Proof. by_table c. Qed.

Lemma atext_not_bracket (c : byte) : isAtext c = true -> (c =c? "[") = false.
Proof. by_table c. Qed.

Lemma atext_not_dquote (c : byte) : isAtext c = true -> (c =c? DQUOTE) = false.
Proof. by_table c. Qed.

Lemma dot_is_atext (c : byte) : (c =c? ".") = true -> isAtext c = true.
Proof. by_table c. Qed.

Lemma quote_valid_is_atext (c : byte) :
  isQuoteChar c = true -> isInvalidLocalChar c = false -> isAtext c = true.
Proof. by_table c. Qed.

Lemma alnum_is_atext (c : byte) : isAlphaNum c = true -> isAtext c = true.
Proof. by_table c. Qed.

Lemma alnum_is_domain (c : byte) : isAlphaNum c = true -> isDomainChar c = true.
Proof. by_table c. Qed.

Lemma domain_char_cases (c : byte) :
  isDomainChar c = isAlphaNum c || (c =c? "-") || (c =c? ".").
Proof. by_table c. Qed.

Lemma domain_not_at (c : byte) : isDomainChar c = true -> (c =c? "@") = false.
Proof. by_table c. Qed.

Lemma domain_not_bracket (c : byte) : isDomainChar c = true -> (c =c? "[") = false.
Proof. by_table c. Qed.

Lemma at_is_invalid (c : byte) : (c =c? "@") = true -> isInvalidLocalChar c = true.
Proof. by_table c. Qed.

Lemma at_not_quote (c : byte) : (c =c? "@") = true -> isQuoteChar c = false.
Proof. by_table c. Qed.

Lemma alnum_not_dot (c : byte) : isAlphaNum c = true -> (c =c? ".") = false.
Proof. by_table c. Qed.

Lemma alnum_not_hyphen (c : byte) : isAlphaNum c = true -> (c =c? "-") = false.
Proof. by_table c. Qed.

Lemma digit_is_alnum (c : byte) : isDigit c = true -> isAlphaNum c = true.
Proof. by_table c. Qed.

(** C-level fact of the specification: atext is letters, digits and the
    additional symbols. *)
Lemma isAtext_split (c : byte) :
  isAtext c = isAlphaNum c || has c CHAR_ATEXT_SPECIAL.
Proof. by_table c. Qed.

(* ------------------------------------------------------------------------- *)
(** ** Searches *)

Lemma memchrAt_Some (data : text_t) (n pos a : nat) :
  memchrAt data n pos = Some a ->
  pos <= a < pos + n /\ at_ data a = "@"%char
  /\ forall j, pos <= j < a -> (at_ data j =c? "@") = false.
Proof.
  revert pos. induction n as [|n IH]; intros pos H; simpl in H; [discriminate|].
  destruct (at_ data pos =c? "@") eqn:Hc.
  - injection H as <-. split; [lia|]. split; [apply beq_eq; exact Hc|]. intros; lia.
  - apply IH in H. destruct H as (H1 & H2 & H3). split; [lia|]. split; [exact H2|].
    intros j Hj. destruct (Nat.eq_dec j pos) as [->|]; [exact Hc|]. apply H3. lia.
Qed.

Lemma memchrAt_None (data : text_t) (n pos : nat) :
  memchrAt data n pos = None ->
  forall j, pos <= j < pos + n -> (at_ data j =c? "@") = false.
Proof.
  revert pos. induction n as [|n IH]; intros pos H j Hj; [lia|]. simpl in H.
  destruct (at_ data pos =c? "@") eqn:Hc; [discriminate|].
  destruct (Nat.eq_dec j pos) as [->|]; [exact Hc|]. apply (IH _ H). lia.
Qed.

Lemma memchrAt_first (data : text_t) (n pos a : nat) :
  pos <= a < pos + n -> (at_ data a =c? "@") = true ->
  (forall j, pos <= j < a -> (at_ data j =c? "@") = false) ->
  memchrAt data n pos = Some a.
Proof.
  revert pos. induction n as [|n IH]; intros pos Ha Hc Hb; [lia|]. simpl.
  destruct (Nat.eq_dec a pos) as [->|Hne].
  - rewrite Hc. reflexivity.
  - rewrite (Hb pos) by lia. apply IH; [lia|exact Hc|]. intros; apply Hb; lia.
Qed.

Lemma findFirstAlnumLoop_Some (data : text_t) (n pos r : nat) :
  findFirstAlnumLoop data n pos = Some r ->
  pos <= r < pos + n /\ isAlphaNum (at_ data r) = true.
Proof.
  revert pos. induction n as [|n IH]; intros pos H; simpl in H; [discriminate|].
  destruct (isAlphaNum (at_ data pos)) eqn:Hc.
  - injection H as <-. split; [lia|exact Hc].
  - apply IH in H. destruct H. split; [lia|assumption].
Qed.

Lemma findFirstAlnumLoop_hit (data : text_t) (n pos : nat) :
  0 < n -> isAlphaNum (at_ data pos) = true ->
  findFirstAlnumLoop data n pos = Some pos.
Proof. intros Hn Hc. destruct n; [lia|]. simpl. rewrite Hc. reflexivity. Qed.

Lemma findFirstAtextLoop_Some (data : text_t) (n pos r : nat) :
  findFirstAtextLoop data n pos = Some r ->
  pos <= r < pos + n /\ isAtext (at_ data r) = true.
Proof.
  revert pos. induction n as [|n IH]; intros pos H; simpl in H; [discriminate|].
  destruct (isAtext (at_ data pos)) eqn:Hc.
  - injection H as <-. split; [lia|exact Hc].
  - apply IH in H. destruct H. split; [lia|assumption].
Qed.

Lemma findFirstAtextLoop_None (data : text_t) (n pos : nat) :
  findFirstAtextLoop data n pos = None ->
  forall j, pos <= j < pos + n -> isAtext (at_ data j) = false.
Proof.
  revert pos. induction n as [|n IH]; intros pos H j Hj; [lia|]. simpl in H.
  destruct (isAtext (at_ data pos)) eqn:Hc; [discriminate|].
  destruct (Nat.eq_dec j pos) as [->|]; [exact Hc|]. apply (IH _ H). lia.
Qed.

Lemma findFirstAlnum_Some (data : text_t) (pos limit r : nat) :
  findFirstAlnum data pos limit = Some r ->
  pos <= r < limit /\ r < length data /\ isAlphaNum (at_ data r) = true.
Proof.
  unfold findFirstAlnum. intros H. apply findFirstAlnumLoop_Some in H.
  destruct H as [H1 H2]. repeat split; try lia. exact H2.
Qed.

Lemma findFirstAtext_Some (data : text_t) (pos limit r : nat) :
  findFirstAtext data pos limit = Some r ->
  pos <= r < limit /\ r < length data /\ isAtext (at_ data r) = true.
Proof.
  unfold findFirstAtext. intros H. apply findFirstAtextLoop_Some in H.
  destruct H as [H1 H2]. repeat split; try lia. exact H2.
Qed.

Lemma findFirstAtext_None (data : text_t) (pos limit : nat) :
  findFirstAtext data pos limit = None ->
  forall j, pos <= j < limit -> j < length data -> isAtext (at_ data j) = false.
Proof.
  unfold findFirstAtext. intros H j Hj Hl.
  apply (findFirstAtextLoop_None _ _ _ H). lia.
Qed.

(* ------------------------------------------------------------------------- *)
(** ** The boundary search *)

Lemma leftScan_S (data : text_t) (atPos e effectiveMin n start : nat) :
  leftScan data atPos e effectiveMin (S n) start =
      if effectiveMin <? start then
        let prevChar := at_ data (start - 1) in
        if prevChar =c? "@" then (start, false, atPos)
        else if (prevChar =c? ".") && (effectiveMin + 1 <? start) && (2 <=? start)
                && (at_ data (start - 2) =c? ".")
        then (start, true, start - 1)
        else if isInvalidLocalChar prevChar then
          if (prevChar =c? "@") && (effectiveMin + 1 <? start) then
            match lookbackLoop data atPos effectiveMin (S (start - 2)) (start - 2)
                    (start - 1) false with
            | (validStart, true) => leftScan data atPos e effectiveMin n validStart
            | (_, false) => (start, true, start)
            end
          else (start, true, start)
        else if isQuoteChar prevChar then
          if (effectiveMin + 1 <? start) && (2 <=? start)
             && (at_ data (start - 2) =c? prevChar)
          then leftScan data atPos e effectiveMin n (start - 1)
          else if (e <? length data) && (at_ data e =c? prevChar)
                  && (e + 1 <? length data) && (at_ data (e + 1) =c? prevChar)
          then leftScan data atPos e effectiveMin n (start - 1)
          else if (e <? length data) && (at_ data e =c? prevChar)
          then (start, false, atPos)
          else if (effectiveMin + 1 <? start) && (2 <=? start) then
            let prevPrevChar := at_ data (start - 2) in
            if (prevPrevChar =c? "=") || (prevPrevChar =c? ":")
               || isScanBoundary prevPrevChar || isQuoteChar prevPrevChar
            then leftScan data atPos e effectiveMin n (start - 1)
            else leftScan data atPos e effectiveMin n (start - 1)
          else if start =? effectiveMin + 1 then (start - 1, false, atPos)
          else leftScan data atPos e effectiveMin n (start - 1)
        else if prevChar =c? "." then leftScan data atPos e effectiveMin n (start - 1)
        else if isAtext prevChar then leftScan data atPos e effectiveMin n (start - 1)
        else (start, false, atPos)
      else (start, false, atPos).
Proof. reflexivity. Qed.

Lemma leftScan_inv (data : text_t) (atPos e effMin : nat) (n start0 s inv : nat) (hit : bool) :
  (forall j, start0 <= j < atPos -> isAtext (at_ data j) = true) ->
  leftScan data atPos e effMin n start0 = (s, hit, inv) ->
  s <= start0
  /\ (forall j, s <= j < atPos -> isAtext (at_ data j) = true)
  /\ (hit = true ->
      effMin < s /\ (inv = s \/ (inv + 1 = s /\ (at_ data inv =c? ".") = true)))
  /\ (hit = false -> inv = atPos).
Proof.
  revert start0. induction n as [|n IH]; intros start0 Hat H;
    [simpl in H|rewrite leftScan_S in H; cbv zeta in H].
  - injection H as <- <- <-. repeat split; auto; discriminate.
  - assert (Hstep : isAtext (at_ data (start0 - 1)) = true -> 0 < start0 ->
              leftScan data atPos e effMin n (start0 - 1) = (s, hit, inv) ->
              s <= start0
              /\ (forall j, s <= j < atPos -> isAtext (at_ data j) = true)
              /\ (hit = true ->
                  effMin < s /\ (inv = s \/ (inv + 1 = s /\ (at_ data inv =c? ".") = true)))
              /\ (hit = false -> inv = atPos)).
    { intros Hc Hpos Hr. apply IH in Hr.
      - destruct Hr as (H1 & H2). split; [lia|exact H2].
      - intros j Hj. destruct (Nat.eq_dec j (start0 - 1)) as [->|]; [exact Hc|].
        apply Hat. lia. }
    destruct (effMin <? start0) eqn:Hlt;
      [apply Nat.ltb_lt in Hlt|injection H as <- <- <-; repeat split; auto; discriminate].
    destruct (at_ data (start0 - 1) =c? "@") eqn:Hat1;
      [injection H as <- <- <-; repeat split; auto; discriminate|].
    cbv beta iota in H.
    destruct ((at_ data (start0 - 1) =c? ".") && (effMin + 1 <? start0) && (2 <=? start0)
              && (at_ data (start0 - 2) =c? ".")) eqn:Hdd.
    { injection H as <- <- <-.
      split; [lia|]. split; [exact Hat|]. split; [|discriminate].
      intros _. split; [exact Hlt|]. right. apply andb_true_iff in Hdd. destruct Hdd as [Hdd _].
      apply andb_true_iff in Hdd. destruct Hdd as [Hdd H2].
      apply andb_true_iff in Hdd. destruct Hdd as [Hd H1].
      apply Nat.leb_le in H2. split; [lia|exact Hd]. }
    destruct (isInvalidLocalChar (at_ data (start0 - 1))) eqn:Hinv.
    { injection H as <- <- <-. repeat split; auto; discriminate. }
    destruct (isQuoteChar (at_ data (start0 - 1))) eqn:Hq.
    { pose proof (quote_valid_is_atext _ Hq Hinv) as Hc.
      repeat match type of H with
             | (if ?b then _ else _) = _ => destruct b eqn:?
             end;
        try (apply Hstep; [reflexivity || exact Hc|lia|exact H]).
      - injection H as <- <- <-. repeat split; auto; discriminate.
      - injection H as <- <- <-. repeat split; auto; try discriminate; try lia.
        intros j Hj. destruct (Nat.eq_dec j (start0 - 1)) as [->|]; [exact Hc|].
        apply Hat. lia. }
    destruct (at_ data (start0 - 1) =c? ".") eqn:Hdot.
    { apply Hstep; [apply dot_is_atext; exact Hdot|lia|exact H]. }
    destruct (isAtext (at_ data (start0 - 1))) eqn:Hc.
    { apply Hstep; [reflexivity || exact Hc|lia|exact H]. }
    injection H as <- <- <-. repeat split; auto; discriminate.
Qed.

Lemma domainRun_bounds (data : text_t) (n e : nat) :
  e <= length data -> e <= domainRun data n e <= length data.
Proof.
  revert e. induction n as [|n IH]; intros e He; simpl; [lia|].
  destruct (Nat.ltb_spec e (length data)) as [Hlt|]; simpl; [|lia].
  destruct (isDomainChar (at_ data e)); [|lia].
  specialize (IH (S e)). lia.
Qed.

Lemma trimTrailing_bounds (data : text_t) (atPos : nat) (c : byte) (e : nat) :
  atPos + 1 <= e -> atPos + 1 <= trimTrailing data atPos c e <= e.
Proof.
  induction e as [|e IH]; intros He; simpl; [lia|].
  destruct (Nat.ltb_spec (atPos + 1) (S e)) as [Hlt|]; simpl; [|lia].
  destruct (at_ data e =c? c); [|lia].
  specialize (IH ltac:(lia)). lia.
Qed.

Lemma skipLeadingDots_bounds (data : text_t) (atPos n start : nat) :
  start <= skipLeadingDots data atPos n start
  /\ (start <= atPos -> skipLeadingDots data atPos n start <= atPos).
Proof.
  revert start. induction n as [|n IH]; intros start; simpl; [lia|].
  destruct (Nat.ltb_spec start atPos) as [Hlt|]; simpl; [|lia].
  destruct (at_ data start =c? "."); [|lia].
  specialize (IH (S start)). lia.
Qed.

Lemma rightBoundary_bounds (data : text_t) (atPos : nat) :
  atPos < length data -> atPos + 1 <= rightBoundary data atPos <= length data.
Proof.
  intros Hlen. unfold rightBoundary.
  pose proof (domainRun_bounds data (length data - (atPos + 1)) (atPos + 1) ltac:(lia)) as H1.
  pose proof (trimTrailing_bounds data atPos "."
                (domainRun data (length data - (atPos + 1)) (atPos + 1)) ltac:(lia)) as H2.
  match goal with |- context [if ?b then _ else _] => destruct b end; [|lia].
  match goal with |- context [trimTrailing data atPos "-" ?e] =>
    pose proof (trimTrailing_bounds data atPos "-" e ltac:(lia)) end.
  lia.
Qed.

Lemma adjustStart_bounds (data : text_t) (atPos effMin start : nat) :
  start <= adjustStart data atPos effMin start.
Proof.
  unfold adjustStart.
  pose proof (skipLeadingDots_bounds data atPos (atPos - start) start) as [H1 _].
  match goal with |- context [if ?b then _ else _] => destruct b end; [|lia].
  destruct (findFirstAlnum data _ atPos) as [r|] eqn:Hf; [|lia].
  apply findFirstAlnum_Some in Hf. lia.
Qed.

(** When the left scan hit an illegal byte or a double dot strictly left of
    the anchor, the recovery search cannot come back empty-handed: the byte
    it starts from was accepted by the scan, so it is atext. *)
Lemma recoverStart_None (data : text_t) (atPos effMin s inv : nat) (hit : bool) :
  atPos < length data ->
  s <= atPos ->
  (forall j, s <= j < atPos -> isAtext (at_ data j) = true) ->
  (hit = true ->
   effMin < s /\ (inv = s \/ (inv + 1 = s /\ (at_ data inv =c? ".") = true))) ->
  recoverStart data atPos effMin s hit inv = None ->
  inv = atPos.
Proof.
  intros Hlen Hs Hatext Hhit H. unfold recoverStart in H.
  destruct hit; [|discriminate].
  destruct (Hhit eq_refl) as [Hmin Hinv].
  destruct (findFirstAlnum data _ atPos); [discriminate|].
  destruct (findFirstAtext data _ atPos) eqn:Hf; [discriminate|].
  pose proof (findFirstAtext_None _ _ _ Hf) as Hnone.
  destruct Hinv as [->|[Hi Hdot]].
  - destruct (Nat.eq_dec s atPos) as [|Hne]; [assumption|].
    specialize (Hnone s ltac:(lia) ltac:(lia)).
    rewrite Hatext in Hnone by lia. discriminate.
  - specialize (Hnone inv ltac:(lia) ltac:(lia)).
    rewrite (dot_is_atext _ Hdot) in Hnone. discriminate.
Qed.

(** The outcome of the boundary search at an anchor inside the buffer:
    either the anchor is rejected and the scan is told to resume just after
    it, or a candidate span around the anchor is proposed. *)
Lemma findEmailBoundaries_cases (text : text_t) (atPos m : nat) :
  atPos < length text ->
  findEmailBoundaries text atPos m = mkBoundaries atPos atPos false (atPos + 1)
  \/ (skipTo (findEmailBoundaries text atPos m) = 0
      /\ start (findEmailBoundaries text atPos m) < atPos
      /\ atPos < end_ (findEmailBoundaries text atPos m) <= length text
      /\ ((atPos + 1 <? length text) && (at_ text (atPos + 1) =c? "[") = false)).
Proof.
  intros Hlen. unfold findEmailBoundaries.
  destruct (Nat.leb_spec (length text) atPos) as [|_]; [lia|].
  destruct ((atPos + 1 <? length text) && (at_ text (atPos + 1) =c? "[")) eqn:Hbr;
    [left; reflexivity|].
  cbv zeta.
  pose proof (rightBoundary_bounds text atPos Hlen) as He.
  destruct (leftScan text atPos (rightBoundary text atPos) (effectiveMinOf atPos m)
              atPos atPos) as [[s hit] inv] eqn:Hls.
  apply leftScan_inv in Hls; [|intros; lia].
  destruct Hls as (Hs & Hatext & Hhit & Hnohit).
  destruct (recoverStart text atPos (effectiveMinOf atPos m) s hit inv)
    as [[s' dr]|] eqn:Hrec.
  - destruct (Nat.leb_spec atPos (adjustStart text atPos (effectiveMinOf atPos m) s'))
      as [Hx|Hx].
    + left. f_equal. lia.
    + right. simpl. repeat split; lia.
  - left. apply recoverStart_None in Hrec; try assumption. subst inv. f_equal. lia.
Qed.

(* ------------------------------------------------------------------------- *)
(** ** Scan-mode local parts *)

Lemma first_byte_substr (text : text_t) (s n : nat) :
  0 < n -> s < length text -> Spec.first_byte (substr text s n) = at_ text s.
Proof.
  intros Hn Hs. destruct n as [|n]; [lia|]. rewrite substr_cons by lia. reflexivity.
Qed.

Lemma last_byte_substr (text : text_t) (s n : nat) :
  0 < n -> s + n <= length text ->
  Spec.last_byte (substr text s n) = at_ text (s + n - 1).
Proof.
  intros Hn Hs. replace n with ((n - 1) + 1) at 1 by lia.
  rewrite substr_split. rewrite (substr_cons text (s + (n - 1)) 0) by lia.
  rewrite substr_nil. unfold Spec.last_byte. rewrite last_last. f_equal. lia.
Qed.

Lemma no_consecutive_dots_cons (c : byte) (l : text_t) :
  Spec.no_consecutive_dots (c :: l)
  = negb ((c =c? ".") && (Spec.first_byte l =c? ".") && (1 <=? length l))
    && Spec.no_consecutive_dots l.
Proof.
  destruct l as [|c2 l]; simpl.
  - rewrite !andb_false_r. reflexivity.
  - rewrite andb_true_r. reflexivity.
Qed.

Import LocalPartValidator.

Lemma scanModeLoop_spec (text : text_t) (n i : nat) (p : bool) :
  i + n <= length text ->
  scanModeLoop text i n p
  = negb (p && (Spec.first_byte (substr text i n) =c? ".") && (1 <=? n))
    && Spec.no_consecutive_dots (substr text i n)
    && forallb (fun c => isAtext c || (c =c? ".")) (substr text i n).
Proof.
  revert i p. induction n as [|n IH]; intros i p Hlen.
  - simpl. rewrite !andb_false_r. reflexivity.
  - rewrite substr_cons by lia. rewrite no_consecutive_dots_cons.
    simpl forallb. simpl Spec.first_byte. simpl scanModeLoop.
    destruct (Nat.leb_spec (length text) i) as [|_]; [lia|].
    rewrite (substr_length text (S i) n) by lia.
    rewrite andb_true_r.
    destruct (at_ text i =c? ".") eqn:Hd.
    + destruct p; [reflexivity|]. rewrite IH by lia.
      simpl. rewrite orb_true_r. simpl. reflexivity.
    + rewrite andb_false_r. simpl. rewrite orb_false_r.
      destruct (isAtext (at_ text i)); simpl; [|rewrite andb_false_r; reflexivity].
      rewrite IH by lia. reflexivity.
Qed.

Lemma validateScanMode_spec (text : text_t) (s e : nat) :
  e <= length text ->
  validateScanMode text s e = Spec.scan_local_ok (substr text s (e - s)).
Proof.
  intros He. unfold validateScanMode, Spec.scan_local_ok, MAX_LOCAL_PART.
  destruct (Nat.leb_spec e s) as [Hes|Hes].
  - simpl. replace (e - s) with 0 by lia. reflexivity.
  - rewrite substr_length by lia.
    destruct (Nat.ltb_spec (length text) e) as [|_]; [lia|].
    destruct (Nat.leb_spec 1 (e - s)) as [_|]; [|lia].
    rewrite first_byte_substr, last_byte_substr by lia.
    replace (s + (e - s) - 1) with (e - 1) by lia.
    simpl orb.
    destruct (Nat.ltb_spec 64 (e - s)) as [H64|H64];
      destruct (Nat.leb_spec (e - s) 64) as [H64'|H64']; try lia; simpl andb;
      try reflexivity.
    destruct (at_ text s =c? DQUOTE); [reflexivity|].
    destruct (at_ text s =c? "."); [reflexivity|].
    destruct (at_ text (e - 1) =c? "."); [reflexivity|].
    simpl. rewrite scanModeLoop_spec by lia. reflexivity.
Qed.

Lemma validate_scan_spec (text : text_t) (s e : nat) :
  validate text s e SCAN = true <->
  s < e <= length text /\ Spec.scan_local_ok (substr text s (e - s)) = true.
Proof.
  unfold validate.
  destruct (Nat.leb_spec e s) as [Hes|Hes]; simpl.
  - split; [discriminate|lia].
  - destruct (Nat.ltb_spec (length text) e) as [Hl|Hl].
    + split; [discriminate|lia].
    + rewrite validateScanMode_spec by lia. split; [intros H; split; [lia|exact H]|tauto].
Qed.

(* ------------------------------------------------------------------------- *)
(** ** Splitting on dots *)

Lemma split_on_dot_nonempty (l : text_t) : Spec.split_on_dot l <> [].
Proof.
  induction l as [|c l IH]; simpl; [discriminate|].
  destruct (c =c? "."); [discriminate|].
  destruct (Spec.split_on_dot l); discriminate.
Qed.

Lemma split_on_dot_cons (c : byte) (l : text_t) :
  Spec.split_on_dot (c :: l)
  = if c =c? "." then [] :: Spec.split_on_dot l
    else (c :: hd [] (Spec.split_on_dot l)) :: tl (Spec.split_on_dot l).
Proof.
  simpl. destruct (c =c? "."); [reflexivity|].
  pose proof (split_on_dot_nonempty l).
  destruct (Spec.split_on_dot l); [contradiction|reflexivity].
Qed.

Lemma split_on_dot_no_dot (l : text_t) :
  forallb (fun c => negb (c =c? ".")) l = true -> Spec.split_on_dot l = [l].
Proof.
  induction l as [|c l IH]; intros H; [reflexivity|].
  simpl in H. apply andb_true_iff in H. destruct H as [Hc Hl].
  rewrite split_on_dot_cons. apply negb_true_iff in Hc. rewrite Hc.
  rewrite (IH Hl). reflexivity.
Qed.

Lemma split_on_dot_app (l1 l2 : text_t) :
  Spec.split_on_dot (l1 ++ "."%char :: l2)
  = Spec.split_on_dot l1 ++ Spec.split_on_dot l2.
Proof.
  induction l1 as [|c l1 IH].
  - reflexivity.
  - simpl app. rewrite !split_on_dot_cons. rewrite IH.
    destruct (c =c? "."); [reflexivity|].
    pose proof (split_on_dot_nonempty l1).
    destruct (Spec.split_on_dot l1); [contradiction|reflexivity].
Qed.

Lemma split_on_dot_single (l : text_t) :
  length (Spec.split_on_dot l) = 1 -> forallb (fun c => negb (c =c? ".")) l = true.
Proof.
  induction l as [|c l IH]; intros H; [reflexivity|].
  rewrite split_on_dot_cons in H. simpl.
  pose proof (split_on_dot_nonempty l) as Hne.
  destruct (c =c? ".").
  - simpl in H. destruct (Spec.split_on_dot l); [contradiction|discriminate].
  - simpl. apply IH. simpl in H.
    destruct (Spec.split_on_dot l); [contradiction|]. simpl in *. lia.
Qed.

(* ------------------------------------------------------------------------- *)
(** ** Dot-labelled domains *)

Import DomainPartValidator.

Lemma noDoubleDotLoop_spec (text : text_t) (n i : nat) (p : bool) :
  i + n <= length text ->
  noDoubleDotLoop text i n p
  = negb (p && (Spec.first_byte (substr text i n) =c? ".") && (1 <=? n))
    && Spec.no_consecutive_dots (substr text i n).
Proof.
  revert i p. induction n as [|n IH]; intros i p Hlen.
  - simpl. rewrite !andb_false_r. reflexivity.
  - rewrite substr_cons by lia. rewrite no_consecutive_dots_cons.
    simpl Spec.first_byte. simpl noDoubleDotLoop.
    destruct (Nat.leb_spec (length text) i) as [|_]; [lia|].
    rewrite (substr_length text (S i) n) by lia.
    rewrite andb_true_r.
    destruct (at_ text i =c? ".") eqn:Hd.
    + destruct p; [reflexivity|]. rewrite IH by lia. reflexivity.
    + rewrite andb_false_r. simpl. rewrite IH by lia. reflexivity.
Qed.

Lemma labelCharsLoop_spec (text : text_t) (n j : nat) :
  j + n <= length text ->
  labelCharsLoop text j n
  = forallb (fun c => isAlphaNum c || (c =c? "-")) (substr text j n).
Proof.
  revert j. induction n as [|n IH]; intros j Hlen; [reflexivity|].
  rewrite substr_cons by lia. simpl.
  destruct (isAlphaNum (at_ text j)); simpl; [apply IH; lia|].
  destruct (at_ text j =c? "-"); simpl; [apply IH; lia|reflexivity].
Qed.

Lemma tldLoop_spec (text : text_t) (n i : nat) :
  i + n <= length text ->
  tldLoop text i n = forallb isAlphaNum (substr text i n).
Proof.
  revert i. induction n as [|n IH]; intros i Hlen; [reflexivity|].
  rewrite substr_cons by lia. simpl.
  destruct (isAlphaNum (at_ text i)); simpl; [apply IH; lia|reflexivity].
Qed.

Lemma lastDotLoop_Some (text : text_t) (start i p : nat) :
  lastDotLoop text start i = Some p ->
  start <= p < i /\ (at_ text p =c? ".") = true
  /\ forall j, p < j < i -> (at_ text j =c? ".") = false.
Proof.
  induction i as [|i IH]; intros H; simpl in H; [discriminate|].
  destruct (Nat.ltb_spec start (S i)) as [Hlt|]; [|discriminate].
  destruct (at_ text i =c? ".") eqn:Hd.
  - injection H as <-. split; [lia|]. split; [exact Hd|]. intros; lia.
  - apply IH in H. destruct H as (H1 & H2 & H3). split; [lia|]. split; [exact H2|].
    intros j Hj. destruct (Nat.eq_dec j i) as [->|]; [exact Hd|]. apply H3. lia.
Qed.

Lemma lastDotLoop_None (text : text_t) (start i : nat) :
  lastDotLoop text start i = None ->
  forall j, start <= j < i -> (at_ text j =c? ".") = false.
Proof.
  induction i as [|i IH]; intros H j Hj; [lia|]. simpl in H.
  destruct (Nat.ltb_spec start (S i)) as [Hlt|]; [|lia].
  destruct (at_ text i =c? ".") eqn:Hd; [discriminate|].
  destruct (Nat.eq_dec j i) as [->|]; [exact Hd|]. apply (IH H). lia.
Qed.

Lemma substr_forallb (text : text_t) (f : byte -> bool) (s n : nat) :
  s + n <= length text ->
  (forall j, s <= j < s + n -> f (at_ text j) = true) ->
  forallb f (substr text s n) = true.
Proof.
  revert s. induction n as [|n IH]; intros s Hlen H; [reflexivity|].
  rewrite substr_cons by lia. simpl. rewrite H by lia. simpl.
  apply IH; [lia|]. intros; apply H; lia.
Qed.

Lemma forallb_substr_at (text : text_t) (f : byte -> bool) (s n j : nat) :
  s + n <= length text ->
  forallb f (substr text s n) = true -> s <= j < s + n -> f (at_ text j) = true.
Proof.
  revert s. induction n as [|n IH]; intros s Hlen H Hj; [lia|].
  rewrite substr_cons in H by lia. simpl in H. apply andb_true_iff in H.
  destruct H as [H1 H2]. destruct (Nat.eq_dec j s) as [->|]; [exact H1|].
  apply (IH (S s)); [lia|exact H2|lia].
Qed.

(** The checks the labels loop applies to the label [[ls, i)]. *)
Lemma label_check_spec (text : text_t) (ls i : nat) :
  ls <= i <= length text ->
  ((i - ls =? 0) || (MAX_LABEL_LENGTH <? i - ls)
   || ((length text <=? ls) || (length text <? ls + (i - ls)))
   || ((at_ text ls =c? "-") || (at_ text (ls + (i - ls) - 1) =c? "-"))
   || negb (labelCharsLoop text ls (i - ls)))
  = negb (Spec.label_ok (substr text ls (i - ls))).
Proof.
  intros H. unfold Spec.label_ok, MAX_LABEL_LENGTH.
  rewrite substr_length by lia.
  destruct (Nat.eqb_spec (i - ls) 0) as [H0|H0].
  - rewrite H0. reflexivity.
  - destruct (Nat.leb_spec 1 (i - ls)) as [_|]; [|lia].
    destruct (Nat.ltb_spec 63 (i - ls)) as [H63|H63];
      destruct (Nat.leb_spec (i - ls) 63) as [H63'|H63']; try lia; try reflexivity.
    destruct (Nat.leb_spec (length text) ls) as [|_]; [lia|].
    destruct (Nat.ltb_spec (length text) (ls + (i - ls))) as [|_]; [lia|].
    rewrite first_byte_substr, last_byte_substr by lia.
    rewrite labelCharsLoop_spec by lia. simpl.
    destruct (at_ text ls =c? "-"); [reflexivity|].
    destruct (at_ text (ls + (i - ls) - 1) =c? "-"); reflexivity.
Qed.

Lemma if_chain4 {A : Type} (a b c d : bool) (x y : A) :
  (if a then x else if b then x else if c then x else if d then x else y)
  = if a || b || c || d then x else y.
Proof. destruct a, b, c, d; reflexivity. Qed.

Lemma labelsLoop_step (text : text_t) (e n i ls cnt : nat) :
  ls <= i <= length text ->
  labelsLoop text e (S n) i ls cnt
  = if (i =? e) || (at_ text i =c? ".") then
      if Spec.label_ok (substr text ls (i - ls))
      then labelsLoop text e n (S i) (S i) (S cnt)
      else None
    else labelsLoop text e n (S i) ls cnt.
Proof.
  intros H. simpl labelsLoop. cbv zeta.
  destruct ((i =? e) || (at_ text i =c? ".")); [|reflexivity].
  rewrite if_chain4. rewrite label_check_spec by lia.
  destruct (Spec.label_ok (substr text ls (i - ls))); reflexivity.
Qed.

Lemma hd_tl_nonempty {A : Type} (d : A) (l : list A) : l <> [] -> hd d l :: tl l = l.
Proof. destruct l; [contradiction|reflexivity]. Qed.

Lemma labelsLoop_spec (text : text_t) (e : nat) :
  e <= length text ->
  forall k i ls cnt,
    ls <= i -> i + k = e ->
    labelsLoop text e (S k) i ls cnt
    = if forallb Spec.label_ok
           ((substr text ls (i - ls) ++ hd [] (Spec.split_on_dot (substr text i k)))
            :: tl (Spec.split_on_dot (substr text i k)))
      then Some (cnt + length (Spec.split_on_dot (substr text i k)))
      else None.
Proof.
  intros He. induction k as [|k IH]; intros i ls cnt Hls Hik.
  - rewrite labelsLoop_step by lia. rewrite Nat.add_0_r in Hik. subst i.
    rewrite Nat.eqb_refl. simpl orb. cbv iota.
    rewrite substr_nil. simpl hd. simpl tl. rewrite app_nil_r. simpl forallb.
    rewrite andb_true_r.
    destruct (Spec.label_ok (substr text ls (e - ls))); [|reflexivity].
    simpl. f_equal. lia.
  - rewrite labelsLoop_step by lia.
    destruct (Nat.eqb_spec i e) as [|_]; [lia|]. simpl orb.
    rewrite (substr_cons text i k) by lia. rewrite split_on_dot_cons.
    pose proof (split_on_dot_nonempty (substr text (S i) k)) as Hne.
    destruct (at_ text i =c? ".") eqn:Hd.
    + simpl hd. simpl tl. rewrite app_nil_r. simpl forallb.
      destruct (Spec.label_ok (substr text ls (i - ls))); [|reflexivity].
      rewrite IH by lia. rewrite Nat.sub_diag, substr_nil. simpl app.
      rewrite hd_tl_nonempty by exact Hne. simpl andb. simpl length.
      destruct (forallb Spec.label_ok (Spec.split_on_dot (substr text (S i) k)));
        [f_equal; lia|reflexivity].
    + rewrite IH by lia. simpl hd. simpl tl.
      replace (S i - ls) with ((i - ls) + 1) by lia.
      rewrite substr_split. replace (ls + (i - ls)) with i by lia.
      rewrite (substr_cons text i 0) by lia. rewrite substr_nil.
      rewrite <- app_assoc. simpl app. simpl length.
      replace (S (length (tl (Spec.split_on_dot (substr text (S i) k)))))
        with (length (Spec.split_on_dot (substr text (S i) k))); [reflexivity|].
      destruct (Spec.split_on_dot (substr text (S i) k)); [contradiction|reflexivity].
Qed.

Lemma forallb_no_dot_substr (text : text_t) (s n : nat) :
  s + n <= length text ->
  (forall j, s <= j < s + n -> (at_ text j =c? ".") = false) ->
  forallb (fun c => negb (c =c? ".")) (substr text s n) = true.
Proof.
  intros Hlen H. apply substr_forallb; [exact Hlen|].
  intros j Hj. rewrite H by lia. reflexivity.
Qed.

(** The dot-labelled path of the domain validator computes exactly the
    specification's predicate on the bytes of the range. *)
Lemma validateDomainLabels_spec (text : text_t) (s e : nat) :
  e <= length text ->
  validateDomainLabels text s e = Spec.domain_labels_ok (substr text s (e - s)).
Proof.
  intros He. unfold validateDomainLabels, Spec.domain_labels_ok, MAX_DOMAIN_PART.
  cbv zeta.
  destruct (Nat.leb_spec e s) as [Hes|Hes].
  { simpl. replace (e - s) with 0 by lia. reflexivity. }
  rewrite substr_length by lia.
  destruct (Nat.ltb_spec (length text) e) as [|_]; [lia|].
  destruct (Nat.ltb_spec (e - s) 1) as [|_]; [lia|].
  destruct (Nat.leb_spec 1 (e - s)) as [_|]; [|lia].
  cbn [orb].
  destruct (Nat.ltb_spec 253 (e - s)) as [H253|H253];
    destruct (Nat.leb_spec (e - s) 253) as [H253'|H253']; try lia; try reflexivity.
  cbn [andb].
  rewrite first_byte_substr, last_byte_substr by lia.
  replace (s + (e - s) - 1) with (e - 1) by lia.
  destruct (at_ text s =c? "."); [reflexivity|].
  destruct (at_ text s =c? "-"); [reflexivity|].
  destruct (at_ text (e - 1) =c? "."); [reflexivity|].
  destruct (at_ text (e - 1) =c? "-"); [reflexivity|].
  cbn [orb]. cbn [negb]. cbn [andb].
  rewrite noDoubleDotLoop_spec by lia. cbn [negb]. cbn [andb].
  destruct (Spec.no_consecutive_dots (substr text s (e - s))); [|reflexivity].
  cbn [negb]. cbn [andb]. cbv iota.
  replace (S e - s) with (S (e - s)) by lia.
  rewrite (labelsLoop_spec text e He (e - s) s s 0) by lia.
  rewrite Nat.sub_diag, substr_nil. cbn [app].
  pose proof (split_on_dot_nonempty (substr text s (e - s))) as Hne.
  rewrite hd_tl_nonempty by exact Hne. cbn [Nat.add].
  destruct (forallb Spec.label_ok (Spec.split_on_dot (substr text s (e - s)))) eqn:Hall;
    [|reflexivity].
  destruct (Nat.ltb_spec (length (Spec.split_on_dot (substr text s (e - s)))) 1) as [Hl|_].
  { destruct (Spec.split_on_dot (substr text s (e - s))); [contradiction|simpl in Hl; lia]. }
  destruct (lastDotLoop text s e) as [p|] eqn:Hld.
  - apply lastDotLoop_Some in Hld. destruct Hld as (Hp & Hdot & Hafter).
    destruct (2 <=? length (Spec.split_on_dot (substr text s (e - s)))); [|reflexivity].
    assert (Hsub : substr text s (e - s)
                   = substr text s (p - s) ++ "."%char :: substr text (p + 1) (e - (p + 1))).
    { replace (e - s) with ((p - s) + S (e - (p + 1))) by lia.
      rewrite substr_split. replace (s + (p - s)) with p by lia.
      rewrite substr_cons by lia. apply beq_eq in Hdot. rewrite Hdot.
      replace (S p) with (p + 1) by lia. reflexivity. }
    assert (Hlast : last (Spec.split_on_dot (substr text s (e - s))) []
                    = substr text (p + 1) (e - (p + 1))).
    { rewrite Hsub, split_on_dot_app.
      rewrite (split_on_dot_no_dot (substr text (p + 1) (e - (p + 1)))).
      - apply last_last.
      - apply forallb_no_dot_substr; [lia|]. intros j Hj. apply Hafter. lia. }
    rewrite Hlast. rewrite tldLoop_spec by lia.
    destruct (Nat.ltb_spec (e - (p + 1)) 1) as [Ht|_]; [|reflexivity].
    exfalso.
    assert (Hin : In [] (Spec.split_on_dot (substr text s (e - s)))).
    { rewrite Hsub, split_on_dot_app. apply in_or_app. right.
      replace (e - (p + 1)) with 0 by lia. simpl. left. reflexivity. }
    rewrite forallb_forall in Hall. apply Hall in Hin. discriminate.
  - pose proof (lastDotLoop_None _ _ _ Hld) as Hnone.
    rewrite (split_on_dot_no_dot (substr text s (e - s))).
    + reflexivity.
    + apply forallb_no_dot_substr; [lia|]. intros j Hj. apply Hnone. lia.
Qed.

(** C5. On a range of the text whose first byte is not an opening bracket,
    [DomainPartValidator::validate] answers [true] exactly when the bytes of
    the range form a dot-labelled domain: 1 to 253 bytes, no dot or hyphen at
    either end, no two consecutive dots, every dot-separated label 1 to 63
    bytes of alphanumerics and hyphens with no hyphen at either end, and,
    when there are at least two labels, an all-alphanumeric last label (a
    single label is accepted). *)
Theorem domain_validate_is_dot_labelled (text : text_t) (s e : nat) :
  e <= length text ->
  at_ text s <> "["%char ->
  DomainPartValidator.validate text s e = true
  <-> Spec.domain_labels_ok (substr text s (e - s)) = true.
Proof.
  intros He Hbr. unfold DomainPartValidator.validate.
  apply beq_neq in Hbr. rewrite Hbr.
  destruct (Nat.leb_spec e s) as [Hes|Hes].
  - replace (e - s) with 0 by lia. simpl. split; discriminate.
  - destruct (Nat.ltb_spec (length text) e) as [|_]; [lia|]. simpl.
    rewrite validateDomainLabels_spec by lia. tauto.
Qed.

Lemma domain_validate_is_dot_labelled_witness :
  DomainPartValidator.validate (lit "user@mail.example.com") 5 21 = true
  <-> Spec.domain_labels_ok (substr (lit "user@mail.example.com") 5 (21 - 5)) = true.
Proof.
  apply (domain_validate_is_dot_labelled (lit "user@mail.example.com") 5 21).
  - simpl. lia.
  - vm_compute. discriminate.
Defined.

(* ------------------------------------------------------------------------- *)
(** ** IPv4 literals *)

Lemma digit_facts (c : byte) :
  isDigit c = true ->
  ((0 <=? Spec.digit_value c) && (Spec.digit_value c <=? 9)
   && (214748363 <=? Z.quot (INT_MAX - Spec.digit_value c) 10)
   && (Z.quot (INT_MAX - Spec.digit_value c) 10 * 10 + Spec.digit_value c <=? INT_MAX))%Z
  = true.
Proof. by_table c. Qed.

Lemma digit_bounds (c : byte) :
  isDigit c = true ->
  (0 <= Spec.digit_value c <= 9
   /\ 214748363 <= Z.quot (INT_MAX - Spec.digit_value c) 10
   /\ Z.quot (INT_MAX - Spec.digit_value c) 10 * 10 + Spec.digit_value c <= INT_MAX)%Z.
Proof.
  intros H. apply digit_facts in H.
  repeat (apply andb_true_iff in H; destruct H as [H ?]).
  repeat match goal with
         | H : (_ <=? _)%Z = true |- _ => apply Z.leb_le in H
         end.
  lia.
Qed.

Lemma int_wrap_id (x : Z) : (0 <= x <= INT_MAX)%Z -> int_wrap x = x.
Proof.
  unfold INT_MAX, int_wrap. intros H.
  rewrite Z.mod_small by lia. lia.
Qed.

Lemma dec_fold_mono (g : text_t) (a : Z) :
  forallb isDigit g = true -> (0 <= a)%Z -> (a <= fold_left Spec.dec_step g a)%Z.
Proof.
  revert a. induction g as [|c g IH]; intros a Hg Ha; simpl; [lia|].
  simpl in Hg. apply andb_true_iff in Hg. destruct Hg as [Hc Hg].
  pose proof (digit_bounds c Hc) as Hd.
  specialize (IH (Spec.dec_step a c) Hg). unfold Spec.dec_step in *. lia.
Qed.

Lemma ipv4Digits_S (text : text_t) (n j gl : nat) (octet : Z) (dc : nat) :
  ipv4Digits text j (S n) gl octet dc
  = let c := at_ text j in
    if negb (isDigit c) then None
    else if (dc =? 0) && (c =c? "0") && (1 <? gl) then None
    else
      let digit := Spec.digit_value c in
      if (octet >? Z.quot (INT_MAX - digit) 10)%Z then None
      else ipv4Digits text (S j) n gl (int_wrap (octet * 10 + digit)) (S dc).
Proof. reflexivity. Qed.

Lemma ipv4Digits_spec (text : text_t) (n j gl : nat) (octet : Z) (dc : nat) :
  j + n <= length text ->
  (0 <= octet <= INT_MAX)%Z ->
  match ipv4Digits text j n gl octet dc with
  | Some v => (v <=? 255)%Z
  | None => false
  end
  = forallb isDigit (substr text j n)
    && negb ((dc =? 0) && (Spec.first_byte (substr text j n) =c? "0")
             && (1 <? gl) && (1 <=? n))
    && (fold_left Spec.dec_step (substr text j n) octet <=? 255)%Z.
Proof.
  revert j octet dc. induction n as [|n IH]; intros j octet dc Hlen Ho.
  - simpl. rewrite !andb_false_r. reflexivity.
  - rewrite substr_cons by lia. rewrite ipv4Digits_S. cbv zeta.
    cbn [forallb fold_left Spec.first_byte hd]. rewrite !andb_true_r.
    destruct (isDigit (at_ text j)) eqn:Hc; [|reflexivity]. cbn [negb andb].
    pose proof (digit_bounds _ Hc) as Hd.
    destruct ((dc =? 0) && (at_ text j =c? "0") && (1 <? gl)) eqn:Hlz;
      [cbn [negb]; rewrite andb_false_r; reflexivity|].
    cbn [negb andb].
    destruct (Z.gtb_spec octet (Z.quot (INT_MAX - Spec.digit_value (at_ text j)) 10))
      as [Hov|Hov].
    + destruct (forallb isDigit (substr text (S j) n)) eqn:Hg; [|reflexivity].
      cbn [andb]. symmetry. apply Z.leb_gt.
      pose proof (dec_fold_mono (substr text (S j) n)
                    (Spec.dec_step octet (at_ text j)) Hg) as Hm.
      unfold Spec.dec_step in *. lia.
    + rewrite int_wrap_id by lia. rewrite IH by lia.
      simpl (S dc =? 0). cbn [andb negb]. rewrite andb_true_r. reflexivity.
Qed.

(** The group check of the IPv4 loop on the group [[ns, i)]. *)
Lemma ipv4_group_check (text : text_t) (ns i : nat) :
  ns <= i <= length text ->
  (if i =? ns then false
   else match ipv4Digits text ns (i - ns) (i - ns) 0%Z 0 with
        | Some v => (v <=? 255)%Z
        | None => false
        end)
  = Spec.octet_ok (substr text ns (i - ns)).
Proof.
  intros H. unfold Spec.octet_ok. rewrite substr_length by lia.
  destruct (Nat.eqb_spec i ns) as [->|Hne].
  - rewrite Nat.sub_diag. reflexivity.
  - rewrite ipv4Digits_spec by (unfold INT_MAX; lia).
    destruct (Nat.leb_spec 1 (i - ns)) as [_|]; [|lia].
    cbn [Nat.eqb andb]. rewrite andb_true_r. reflexivity.
Qed.

Lemma ipv4Loop_S (text : text_t) (e n i idx ns : nat) :
  ipv4Loop text e (S n) i idx ns
  = if (i <=? e) && (idx <? 4) then
      if (i =? e) || (at_ text i =c? ".") then
        if (i =? ns) || (4 <=? idx) then None
        else
          match ipv4Digits text ns (i - ns) (i - ns) 0%Z 0 with
          | None => None
          | Some octet =>
              if (octet >? 255)%Z then None
              else ipv4Loop text e n (S i) (S idx) (S i)
          end
      else ipv4Loop text e n (S i) idx ns
    else Some (idx, ns).
Proof. reflexivity. Qed.

Lemma ipv4Loop_step (text : text_t) (e n i idx ns : nat) :
  ns <= i <= length text -> idx < 4 ->
  ipv4Loop text e (S n) i idx ns
  = if i <=? e then
      if (i =? e) || (at_ text i =c? ".") then
        if Spec.octet_ok (substr text ns (i - ns))
        then ipv4Loop text e n (S i) (S idx) (S i)
        else None
      else ipv4Loop text e n (S i) idx ns
    else Some (idx, ns).
Proof.
  intros H Hidx. rewrite ipv4Loop_S.
  destruct (Nat.ltb_spec idx 4) as [_|]; [|lia]. rewrite andb_true_r.
  destruct (i <=? e); [|reflexivity].
  destruct ((i =? e) || (at_ text i =c? ".")); [|reflexivity].
  rewrite <- (ipv4_group_check text ns i H).
  destruct (Nat.leb_spec 4 idx) as [|_]; [lia|]. rewrite orb_false_r.
  destruct (i =? ns); [reflexivity|].
  destruct (ipv4Digits text ns (i - ns) (i - ns) 0 0) as [v|]; [|reflexivity].
  destruct (Z.gtb_spec v 255) as [Hv|Hv]; destruct (Z.leb_spec v 255) as [Hv'|Hv'];
    try lia; reflexivity.
Qed.

Lemma ipv4Loop_spec (text : text_t) (e : nat) :
  e <= length text ->
  forall k i idx ns,
    ns <= i -> i + k = e -> idx < 4 ->
    ipv4_accept e (ipv4Loop text e (S k) i idx ns)
    = (idx + length (Spec.split_on_dot (substr text i k)) =? 4)
      && forallb Spec.octet_ok
           ((substr text ns (i - ns) ++ hd [] (Spec.split_on_dot (substr text i k)))
            :: tl (Spec.split_on_dot (substr text i k))).
Proof.
  intros He. induction k as [|k IH]; intros i idx ns Hns Hik Hidx.
  - rewrite ipv4Loop_step by lia. rewrite Nat.add_0_r in Hik. subst i.
    rewrite Nat.leb_refl, Nat.eqb_refl. cbn [orb].
    rewrite substr_nil. cbn [Spec.split_on_dot hd tl length forallb].
    rewrite app_nil_r, andb_true_r.
    destruct (Spec.octet_ok (substr text ns (e - ns))).
    + cbn [ipv4Loop ipv4_accept].
      replace (S e - 1) with e by lia. rewrite Nat.eqb_refl, !andb_true_r.
      f_equal. lia.
    + rewrite andb_false_r. reflexivity.
  - rewrite ipv4Loop_step by lia.
    destruct (Nat.leb_spec i e) as [_|]; [|lia].
    destruct (Nat.eqb_spec i e) as [|_]; [lia|]. cbn [orb].
    rewrite (substr_cons text i k) by lia. rewrite split_on_dot_cons.
    pose proof (split_on_dot_nonempty (substr text (S i) k)) as Hne.
    destruct (at_ text i =c? ".") eqn:Hd.
    + cbn [hd tl length forallb]. rewrite app_nil_r.
      destruct (Spec.octet_ok (substr text ns (i - ns)));
        [|rewrite andb_false_r; reflexivity].
      cbn [andb].
      destruct (Nat.eq_dec idx 3) as [->|Hidx3].
      * (* the fourth group ended at a dot: the loop stops, input is left over *)
        rewrite ipv4Loop_S. change (4 <? 4) with false. rewrite andb_false_r.
        cbn [ipv4_accept].
        destruct (Nat.eqb_spec (S i - 1) e) as [|_]; [lia|].
        destruct (Spec.split_on_dot (substr text (S i) k)); [contradiction|].
        reflexivity.
      * rewrite IH by lia. rewrite Nat.sub_diag, substr_nil. cbn [app].
        rewrite hd_tl_nonempty by exact Hne.
        replace (idx + S (length (Spec.split_on_dot (substr text (S i) k))))
          with (S idx + length (Spec.split_on_dot (substr text (S i) k))) by lia.
        reflexivity.
    + rewrite IH by lia. cbn [hd tl length].
      replace (S i - ns) with ((i - ns) + 1) by lia.
      rewrite substr_split. replace (ns + (i - ns)) with i by lia.
      rewrite (substr_cons text i 0) by lia. rewrite substr_nil.
      rewrite <- app_assoc. cbn [app].
      replace (S (length (tl (Spec.split_on_dot (substr text (S i) k)))))
        with (length (Spec.split_on_dot (substr text (S i) k))); [reflexivity|].
      destruct (Spec.split_on_dot (substr text (S i) k)); [contradiction|reflexivity].
Qed.

Lemma validateIPv4_spec (text : text_t) (s e : nat) :
  e <= length text ->
  validateIPv4 text s e = Spec.ipv4_ok (substr text s (e - s)).
Proof.
  intros He. unfold validateIPv4, Spec.ipv4_ok.
  destruct (Nat.leb_spec e s) as [Hes|Hes].
  { replace (e - s) with 0 by lia. reflexivity. }
  destruct (Nat.ltb_spec (length text) e) as [|_]; [lia|]. cbn [orb].
  replace (S e - s) with (S (e - s)) by lia.
  pose proof (ipv4Loop_spec text e He (e - s) s 0 s ltac:(lia) ltac:(lia) ltac:(lia)) as H.
  rewrite Nat.sub_diag, substr_nil in H. cbn [app Nat.add] in H.
  rewrite hd_tl_nonempty in H by apply split_on_dot_nonempty.
  rewrite <- H. unfold ipv4_accept.
  destruct (ipv4Loop text e (S (e - s)) s 0 s) as [[idx ns]|]; [|reflexivity].
  destruct (idx =? 4); [|reflexivity]. destruct (ns - 1 =? e); reflexivity.
Qed.

(** C6. [validateIPv4] answers [true] exactly when the bytes of the range are
    four dot-separated groups and nothing else, each group a non-empty
    string of decimal digits with no leading zero (unless it is exactly "0")
    and of value at most 255.  The accumulator never overflows: whenever the
    guard [octet > (INT_MAX - digit) / 10] lets an update through, the new
    value [octet * 10 + digit] is at most [INT_MAX], so the 32-bit
    wrap-around leaves it unchanged. *)
Theorem validateIPv4_is_dotted_quad (text : text_t) (s e : nat) :
  e <= length text ->
  (validateIPv4 text s e = true <-> Spec.ipv4_ok (substr text s (e - s)) = true)
  /\ (forall (octet : Z) (c : byte),
        (0 <= octet <= INT_MAX)%Z -> isDigit c = true ->
        (octet >? Z.quot (INT_MAX - Spec.digit_value c) 10)%Z = false ->
        (0 <= octet * 10 + Spec.digit_value c <= INT_MAX)%Z
        /\ int_wrap (octet * 10 + Spec.digit_value c)
           = (octet * 10 + Spec.digit_value c)%Z).
Proof.
  intros He. split.
  - rewrite validateIPv4_spec by exact He. tauto.
  - intros octet c Ho Hc Hg.
    pose proof (digit_bounds c Hc) as Hd.
    destruct (Z.gtb_spec octet (Z.quot (INT_MAX - Spec.digit_value c) 10)) as [|Hle];
      [discriminate|].
    assert (Hb : (0 <= octet * 10 + Spec.digit_value c <= INT_MAX)%Z) by lia.
    split; [exact Hb|apply int_wrap_id; exact Hb].
Qed.

Lemma validateIPv4_is_dotted_quad_witness :
  (validateIPv4 (lit "[192.168.1.1]") 1 12 = true
   <-> Spec.ipv4_ok (substr (lit "[192.168.1.1]") 1 (12 - 1)) = true)
  /\ (forall (octet : Z) (c : byte),
        (0 <= octet <= INT_MAX)%Z -> isDigit c = true ->
        (octet >? Z.quot (INT_MAX - Spec.digit_value c) 10)%Z = false ->
        (0 <= octet * 10 + Spec.digit_value c <= INT_MAX)%Z
        /\ int_wrap (octet * 10 + Spec.digit_value c)
           = (octet * 10 + Spec.digit_value c)%Z).
Proof.
  apply (validateIPv4_is_dotted_quad (lit "[192.168.1.1]") 1 12).
  simpl. lia.
Defined.

(* ------------------------------------------------------------------------- *)
(** ** The scan loop of [extract] *)

Lemma extractLoop_S (text : text_t) (n : nat) (st : extract_state) :
  extractLoop text (S n) st =
      let len := length text in
      if pos st <? len then
        if MAX_EMAILS_EXTRACT <=? extractedCount st then st
        else
          match memchrAt text (len - pos st) (pos st) with
          | None => st
          | Some atPos =>
              let goto p :=
                mkState p (minScannedIndex st) (lastConsumedEnd st) (extractedCount st)
                  (totalCharsScanned st) (seen st) (emails st) (spans st) in
              if (atPos <? 1) || (len - 3 <=? atPos) then
                extractLoop text n (goto (atPos + 1))
              else if atPos <? lastConsumedEnd st then
                extractLoop text n (goto (atPos + 1))
              else
                let boundaries := findEmailBoundaries text atPos (minScannedIndex st) in
                let total :=
                  totalCharsScanned st + ((atPos - start boundaries)
                                          + (end_ boundaries - atPos)) in
                let goto' p :=
                  mkState p (minScannedIndex st) (lastConsumedEnd st) (extractedCount st)
                    total (seen st) (emails st) (spans st) in
                if MAX_TOTAL_CHARS_SCANNED <? total then goto' (pos st)
                else if negb (validBoundaries boundaries) then
                  extractLoop text n
                    (goto' (if 0 <? skipTo boundaries then skipTo boundaries
                            else atPos + 1))
                else if LocalPartValidator.validate text (start boundaries) atPos
                          LocalPartValidator.SCAN
                        && DomainPartValidator.validate text (atPos + 1) (end_ boundaries)
                then
                  if (len <=? start boundaries) || (len <? end_ boundaries)
                     || (end_ boundaries <=? start boundaries)
                  then extractLoop text n (goto' (atPos + 1))
                  else
                    let m := substr text (start boundaries)
                               (end_ boundaries - start boundaries) in
                    let inserted := negb (existsb (text_eqb m) (seen st)) in
                    let nextChar := at_ text (end_ boundaries) in
                    let lookLimit := Nat.min (end_ boundaries + 65) len in
                    let foundNearbyAt :=
                      (end_ boundaries <? len)
                      && (isAtext nextChar || (nextChar =c? "."))
                      && nearbyAtLoop text (lookLimit - end_ boundaries) (end_ boundaries) in
                    extractLoop text n
                      (mkState
                         (if foundNearbyAt then end_ boundaries else end_ boundaries)
                         (Nat.max (minScannedIndex st) (start boundaries))
                         (Nat.max (lastConsumedEnd st) (end_ boundaries))
                         (if inserted then S (extractedCount st) else extractedCount st)
                         total
                         (if inserted then m :: seen st else seen st)
                         (if inserted then emails st ++ [m] else emails st)
                         (if inserted
                          then spans st ++ [mkSpan (start boundaries) atPos (end_ boundaries)]
                          else spans st))
                else extractLoop text n (goto' (atPos + 1))
          end
      else st.
Proof. reflexivity. Qed.

Lemma extract_inv_goto (text : text_t) (st : extract_state) (p t : nat) :
  extract_inv text st ->
  extract_inv text
    (mkState p (minScannedIndex st) (lastConsumedEnd st) (extractedCount st) t
       (seen st) (emails st) (spans st)).
Proof. intros [H1 H2 H3 H4 H5 H6]. constructor; assumption. Qed.

Lemma existsb_text_eqb (m : text_t) (l : list text_t) :
  existsb (text_eqb m) l = true <-> In m l.
Proof.
  rewrite existsb_exists. split.
  - intros (x & Hx & He). apply text_eqb_eq in He. subst. exact Hx.
  - intros H. exists m. split; [exact H|]. apply text_eqb_eq. reflexivity.
Qed.

Lemma StronglySorted_snoc {A : Type} (R : A -> A -> Prop) (l : list A) (x : A) :
  StronglySorted R l -> Forall (fun a => R a x) l -> StronglySorted R (l ++ [x]).
Proof.
  induction 1 as [|a l Hl IH Ha]; intros Hx; simpl.
  - constructor; constructor.
  - inversion Hx; subst. constructor.
    + apply IH. assumption.
    + apply Forall_app. split; [assumption|]. constructor; [assumption|constructor].
Qed.

Lemma NoDup_snoc {A : Type} (l : list A) (x : A) :
  NoDup l -> ~ In x l -> NoDup (l ++ [x]).
Proof.
  intros Hl Hx. apply NoDup_app; [exact Hl| repeat constructor; intros [] |].
  intros a Ha [<-|[]]. exact (Hx Ha).
Qed.

(** A scan-mode local part holds no [@]. *)
Lemma scan_local_no_at (text : text_t) (s e j : nat) :
  LocalPartValidator.validate text s e LocalPartValidator.SCAN = true ->
  s <= j < e -> (at_ text j =c? "@") = false.
Proof.
  intros H Hj. apply validate_scan_spec in H. destruct H as [Hr H].
  unfold Spec.scan_local_ok in H.
  apply andb_true_iff in H. destruct H as [_ H].
  pose proof (forallb_substr_at text _ s (e - s) j ltac:(lia) H ltac:(lia)) as Hc.
  cbv beta in Hc. apply orb_true_iff in Hc. destruct Hc as [Hc|Hc].
  - apply atext_not_at. exact Hc.
  - apply atext_not_at. apply dot_is_atext. exact Hc.
Qed.

Lemma domain_validate_range (text : text_t) (s e : nat) :
  DomainPartValidator.validate text s e = true -> s < e <= length text.
Proof.
  unfold DomainPartValidator.validate.
  destruct (Nat.leb_spec e s); [discriminate|].
  destruct (Nat.ltb_spec (length text) e); [discriminate|]. lia.
Qed.

Lemma findEmailBoundaries_valid (text : text_t) (atPos m : nat) :
  atPos < length text ->
  validBoundaries (findEmailBoundaries text atPos m) = true ->
  skipTo (findEmailBoundaries text atPos m) = 0
  /\ start (findEmailBoundaries text atPos m) < atPos
  /\ atPos < end_ (findEmailBoundaries text atPos m) <= length text
  /\ ((atPos + 1 <? length text) && (at_ text (atPos + 1) =c? "[") = false).
Proof.
  intros Hlen Hv. destruct (findEmailBoundaries_cases text atPos m Hlen) as [H|H].
  - rewrite H in Hv. discriminate.
  - exact H.
Qed.

Lemma extractLoop_inv (text : text_t) (n : nat) (st : extract_state) :
  extract_inv text st -> extract_inv text (extractLoop text n st).
Proof.
  revert st. induction n as [|n IH]; intros st Hinv; [exact Hinv|].
  rewrite extractLoop_S. cbv zeta.
  destruct (pos st <? length text) eqn:Hpos; [|exact Hinv].
  destruct (MAX_EMAILS_EXTRACT <=? extractedCount st); [exact Hinv|].
  destruct (memchrAt text (length text - pos st) (pos st)) as [atPos|] eqn:Hm;
    [|exact Hinv].
  apply memchrAt_Some in Hm. destruct Hm as (Hrange & Hat & _).
  apply Nat.ltb_lt in Hpos.
  destruct ((atPos <? 1) || (length text - 3 <=? atPos));
    [apply IH, extract_inv_goto, Hinv|].
  destruct (Nat.ltb_spec atPos (lastConsumedEnd st)) as [|Hlast];
    [apply IH, extract_inv_goto, Hinv|].
  set (b := findEmailBoundaries text atPos (minScannedIndex st)).
  destruct (MAX_TOTAL_CHARS_SCANNED <? _); [apply extract_inv_goto, Hinv|].
  destruct (validBoundaries b) eqn:Hvb; cbn [negb];
    [|apply IH, extract_inv_goto, Hinv].
  destruct (LocalPartValidator.validate text (start b) atPos LocalPartValidator.SCAN)
    eqn:Hloc; cbn [andb]; [|apply IH, extract_inv_goto, Hinv].
  destruct (DomainPartValidator.validate text (atPos + 1) (end_ b)) eqn:Hdom;
    [|apply IH, extract_inv_goto, Hinv].
  destruct ((length text <=? start b) || (length text <? end_ b) || (end_ b <=? start b));
    [apply IH, extract_inv_goto, Hinv|].
  apply IH.
  pose proof (findEmailBoundaries_valid text atPos (minScannedIndex st) ltac:(lia) Hvb)
    as (_ & _ & _ & Hbr).
  fold b in Hbr.
  pose proof (domain_validate_range _ _ _ Hdom) as Hdr.
  pose proof (proj1 (validate_scan_spec _ _ _) Hloc) as [Hlr _].
  destruct Hinv as [H1 H2 H3 H4 H5 H6].
  assert (Hgood : good_span text (mkSpan (start b) atPos (end_ b))).
  { unfold good_span. cbn [m_start m_at m_end].
    repeat split; try lia; try assumption.
    intros Hc. destruct (Nat.ltb_spec (atPos + 1) (length text)) as [_|]; [|lia].
    cbn [andb] in Hbr. apply beq_neq in Hbr. contradiction. }
  assert (Hlast' : Forall (fun sp => m_end sp <= Nat.max (lastConsumedEnd st) (end_ b))
                     (spans st)).
  { eapply Forall_impl; [|exact H6]. cbv beta. intros; lia. }
  destruct (existsb (text_eqb (substr text (start b) (end_ b - start b))) (seen st))
    eqn:Hex; cbn [negb].
  - constructor; cbn [emails seen spans lastConsumedEnd]; assumption.
  - assert (Hnotin : ~ In (substr text (start b) (end_ b - start b)) (emails st)).
    { intros Hin. apply H2 in Hin. apply existsb_text_eqb in Hin. congruence. }
    constructor; cbn [emails seen spans lastConsumedEnd].
    + rewrite map_app, H1. reflexivity.
    + intros m. rewrite in_app_iff. simpl. rewrite H2. tauto.
    + apply Forall_app. split; [assumption|]. constructor; [exact Hgood|constructor].
    + apply NoDup_snoc; assumption.
    + apply StronglySorted_snoc; [assumption|].
      rewrite Forall_forall. intros a Ha.
      rewrite Forall_forall in H3, H6. specialize (H3 a Ha). specialize (H6 a Ha).
      destruct H3 as (Ha1 & Ha2 & Ha3 & Ha4 & _).
      unfold span_before. cbn [m_start m_at m_end]. cbv beta in H6.
      split; [|lia].
      destruct (Nat.lt_ge_cases (m_at a) (start b)) as [|Hge]; [assumption|].
      exfalso. pose proof (scan_local_no_at text (start b) atPos (m_at a) Hloc ltac:(lia)) as Hn.
      rewrite Ha4 in Hn. discriminate.
    + apply Forall_app. split; [assumption|]. constructor; [|constructor].
      cbn [m_end]. lia.
Qed.

Lemma initState_inv (text : text_t) : extract_inv text initState.
Proof.
  constructor; simpl; try constructor; try tauto.
Qed.

Lemma extract_state_of_inv (v : string_view) :
  extract_inv (sv_bytes v) (extract_state_of v).
Proof.
  unfold extract_state_of.
  destruct ((MAX_INPUT_SIZE <? sv_length v) || (sv_length v <? 5));
    [apply initState_inv|].
  destruct (sv_is_null v && (0 <? sv_length v)); [apply initState_inv|].
  apply extractLoop_inv, initState_inv.
Qed.

Lemma extract_match_span (v : string_view) (m : text_t) :
  In m (extract v) ->
  exists sp, In sp (extract_spans v)
             /\ m = span_text (sv_bytes v) sp /\ good_span (sv_bytes v) sp.
Proof.
  intros Hin. destruct (extract_state_of_inv v) as [H1 _ H3 _ _ _].
  unfold extract in Hin. rewrite H1 in Hin. apply in_map_iff in Hin.
  destruct Hin as (sp & Hsp & Hin). exists sp. split; [exact Hin|].
  split; [symmetry; exact Hsp|]. rewrite Forall_forall in H3. apply H3. exact Hin.
Qed.

Lemma label_pieces_chars (d : text_t) :
  forallb (forallb (fun c => isAlphaNum c || (c =c? "-"))) (Spec.split_on_dot d) = true ->
  forallb isDomainChar d = true.
Proof.
  induction d as [|c d IH]; intros H; [reflexivity|].
  rewrite split_on_dot_cons in H. cbn [forallb].
  pose proof (split_on_dot_nonempty d) as Hne.
  destruct (c =c? ".") eqn:Hc.
  - cbn [forallb andb] in H. rewrite (IH H), andb_true_r.
    rewrite domain_char_cases, Hc. apply orb_true_r.
  - destruct (Spec.split_on_dot d) as [|h t]; [contradiction|].
    cbn [hd tl forallb] in H.
    apply andb_true_iff in H. destruct H as [H Ht].
    apply andb_true_iff in H. destruct H as [Hc' Hh].
    rewrite IH by (cbn [forallb]; rewrite Hh, Ht; reflexivity).
    rewrite andb_true_r, domain_char_cases, Hc, orb_false_r. exact Hc'.
Qed.

Lemma domain_labels_chars (d : text_t) :
  Spec.domain_labels_ok d = true -> forallb isDomainChar d = true.
Proof.
  unfold Spec.domain_labels_ok. intros H.
  apply andb_true_iff in H. destruct H as [H _].
  apply andb_true_iff in H. destruct H as [_ H].
  apply label_pieces_chars.
  rewrite forallb_forall in *. intros l Hl. specialize (H l Hl).
  unfold Spec.label_ok in H. apply andb_true_iff in H. destruct H as [_ H]. exact H.
Qed.

Lemma validate_domain_spec (text : text_t) (s e : nat) :
  at_ text s <> "["%char ->
  DomainPartValidator.validate text s e = true <->
  s < e <= length text /\ Spec.domain_labels_ok (substr text s (e - s)) = true.
Proof.
  intros Hbr. unfold DomainPartValidator.validate.
  apply beq_neq in Hbr. rewrite Hbr.
  destruct (Nat.leb_spec e s) as [Hes|Hes]; cbn [orb].
  - split; [discriminate|lia].
  - destruct (Nat.ltb_spec (length text) e) as [|Hl].
    + split; [discriminate|lia].
    + rewrite validateDomainLabels_spec by lia.
      split; [intros H; split; [lia|exact H]|tauto].
Qed.

Lemma count_at_zero (l : text_t) :
  forallb (fun c => negb (c =c? "@")) l = true -> count_occ ascii_dec l "@"%char = 0.
Proof.
  induction l as [|c l IH]; intros H; [reflexivity|].
  cbn [forallb] in H. apply andb_true_iff in H. destruct H as [Hc Hl].
  apply negb_true_iff, beq_neq in Hc.
  rewrite count_occ_cons_neq by exact Hc. apply IH, Hl.
Qed.

Lemma forallb_impl {A : Type} (f g : A -> bool) (l : list A) :
  (forall x, f x = true -> g x = true) -> forallb f l = true -> forallb g l = true.
Proof.
  intros Hfg H. rewrite forallb_forall in *. intros x Hx. apply Hfg, H, Hx.
Qed.

(** Shape of a recorded match: a valid scan-mode local part, the anchor, and
    a dot-labelled domain. *)
Lemma good_span_shape (text : text_t) (sp : span) :
  good_span text sp ->
  span_text text sp
  = substr text (m_start sp) (m_at sp - m_start sp)
    ++ "@"%char :: substr text (m_at sp + 1) (m_end sp - (m_at sp + 1))
  /\ Spec.scan_local_ok (substr text (m_start sp) (m_at sp - m_start sp)) = true
  /\ Spec.domain_labels_ok (substr text (m_at sp + 1) (m_end sp - (m_at sp + 1))) = true.
Proof.
  intros (H1 & H2 & H3 & H4 & H5 & H6 & H7).
  split; [|split].
  - unfold span_text.
    replace (m_end sp - m_start sp)
      with ((m_at sp - m_start sp) + S (m_end sp - (m_at sp + 1))) by lia.
    rewrite substr_split. replace (m_start sp + (m_at sp - m_start sp)) with (m_at sp) by lia.
    rewrite substr_cons by lia. rewrite H4.
    replace (S (m_at sp)) with (m_at sp + 1) by lia. reflexivity.
  - apply validate_scan_spec in H6. tauto.
  - apply validate_domain_spec in H7; [tauto|exact H5].
Qed.

Lemma scan_local_chars (l : text_t) :
  Spec.scan_local_ok l = true -> forallb isAtext l = true.
Proof.
  unfold Spec.scan_local_ok. intros H. apply andb_true_iff in H. destruct H as [_ H].
  revert H. apply forallb_impl. intros c Hc. apply orb_true_iff in Hc.
  destruct Hc as [Hc|Hc]; [exact Hc|apply dot_is_atext, Hc].
Qed.

Lemma substr_app_l (a b : text_t) : substr (a ++ b) 0 (length a) = a.
Proof.
  unfold substr. cbn [skipn]. rewrite firstn_app, Nat.sub_diag, firstn_O, app_nil_r.
  apply firstn_all.
Qed.

Lemma substr_app_r (a b : text_t) (n : nat) :
  substr (a ++ b) (length a) n = substr b 0 n.
Proof.
  unfold substr. rewrite skipn_app, skipn_all, Nat.sub_diag. reflexivity.
Qed.

Lemma substr_0_all (l : text_t) (n : nat) : length l <= n -> substr l 0 n = l.
Proof. intros H. unfold substr. cbn [skipn]. apply firstn_all2. exact H. Qed.

Lemma scan_local_nonempty (l : text_t) : Spec.scan_local_ok l = true -> 1 <= length l <= 64.
Proof.
  unfold Spec.scan_local_ok. intros H.
  repeat (apply andb_true_iff in H; destruct H as [H ?]).
  apply Nat.leb_le in H.
  match goal with H' : (length l <=? 64) = true |- _ => apply Nat.leb_le in H' end. lia.
Qed.

Lemma domain_labels_nonempty (d : text_t) :
  Spec.domain_labels_ok d = true -> 1 <= length d <= 253.
Proof.
  unfold Spec.domain_labels_ok. intros H.
  repeat (apply andb_true_iff in H; destruct H as [H ?]).
  apply Nat.leb_le in H.
  match goal with H' : (length d <=? 253) = true |- _ => apply Nat.leb_le in H' end. lia.
Qed.

(** A candidate [local @ domain], seen as a buffer of its own, passes both
    validators. *)
Lemma candidate_self_valid (l d : text_t) :
  Spec.scan_local_ok l = true -> Spec.domain_labels_ok d = true ->
  let m := l ++ "@"%char :: d in
  LocalPartValidator.validate m 0 (length l) LocalPartValidator.SCAN = true
  /\ DomainPartValidator.validate m (length l + 1) (length m) = true.
Proof.
  intros Hl Hd m.
  pose proof (scan_local_nonempty l Hl) as Hln.
  pose proof (domain_labels_nonempty d Hd) as Hdn.
  assert (Hm : length m = length l + S (length d)).
  { unfold m. rewrite length_app. reflexivity. }
  split.
  - apply validate_scan_spec. split; [lia|].
    rewrite Nat.sub_0_r. unfold m. rewrite substr_app_l. exact Hl.
  - assert (Hsub : substr m (length l + 1) (length m - (length l + 1)) = d).
    { unfold m. replace (l ++ "@"%char :: d) with ((l ++ ["@"%char]) ++ d)
        by (rewrite <- app_assoc; reflexivity).
      replace (length l + 1) with (length (l ++ ["@"%char]))
        by (rewrite length_app; reflexivity).
      rewrite substr_app_r. apply substr_0_all.
      rewrite !length_app. simpl. lia. }
    apply validate_domain_spec.
    + pose proof (domain_labels_chars d Hd) as Hc.
      destruct d as [|c d']; [simpl in Hdn; lia|].
      unfold m. rewrite at_app_r by lia.
      replace (length l + 1 - length l) with 1 by lia. unfold at_. cbn [nth].
      cbn [forallb] in Hc. apply andb_true_iff in Hc. destruct Hc as [Hc _].
      apply beq_neq. apply domain_not_bracket. exact Hc.
    + split; [lia|]. rewrite Hsub. exact Hd.
Qed.

Lemma forallb_at (f : byte -> bool) (l : text_t) (i : nat) :
  forallb f l = true -> i < length l -> f (at_ l i) = true.
Proof.
  intros H Hi. rewrite forallb_forall in H. apply H, at_In, Hi.
Qed.

Lemma at_out_of_range (l : text_t) (i : nat) : length l <= i -> at_ l i = zero.
Proof. intros H. unfold at_. apply nth_overflow. exact H. Qed.

(** C10. Every string returned by [extract] is a contiguous piece
    [text[s, e)] of the input around an anchor [a] with [text[a] = '@'],
    holding exactly one [@]; the bytes before the anchor form a scan-mode
    local part (1 to 64 bytes, no leading double quote or dot, no trailing
    dot, no consecutive dots, only atext bytes and dots) and the bytes after
    it pass the domain validator, both on the input and on the string taken
    as a buffer of its own. *)
Theorem extract_match_is_valid_candidate (v : string_view) (m : text_t) :
  In m (extract v) ->
  exists s a e : nat,
    s < a /\ a + 1 < e /\ e <= length (sv_bytes v)
    /\ m = substr (sv_bytes v) s (e - s)
    /\ at_ (sv_bytes v) a = "@"%char
    /\ m = substr (sv_bytes v) s (a - s)
           ++ "@"%char :: substr (sv_bytes v) (a + 1) (e - (a + 1))
    /\ count_occ ascii_dec m "@"%char = 1
    /\ Spec.scan_local_ok (substr (sv_bytes v) s (a - s)) = true
    /\ LocalPartValidator.validate (sv_bytes v) s a LocalPartValidator.SCAN = true
    /\ DomainPartValidator.validate (sv_bytes v) (a + 1) e = true
    /\ LocalPartValidator.validate m 0 (a - s) LocalPartValidator.SCAN = true
    /\ DomainPartValidator.validate m (a - s + 1) (length m) = true.
Proof.
  intros Hin. apply extract_match_span in Hin.
  destruct Hin as (sp & _ & Hm & Hgood).
  pose proof (good_span_shape _ _ Hgood) as (Hshape & Hl & Hd).
  destruct Hgood as (H1 & H2 & H3 & H4 & H5 & H6 & H7).
  exists (m_start sp), (m_at sp), (m_end sp).
  rewrite <- Hm in Hshape.
  pose proof (candidate_self_valid _ _ Hl Hd) as Hself. cbv zeta in Hself.
  rewrite <- Hshape in Hself. rewrite substr_length in Hself by lia.
  destruct Hself as [Hs1 Hs2].
  repeat (split; [first [assumption | lia]|]).
  split.
  - rewrite Hshape, count_occ_app. rewrite count_occ_cons_eq by reflexivity.
    rewrite !count_at_zero; [reflexivity| |].
    + eapply forallb_impl; [|exact (domain_labels_chars _ Hd)].
      intros c Hc. rewrite (domain_not_at _ Hc). reflexivity.
    + eapply forallb_impl; [|exact (scan_local_chars _ Hl)].
      intros c Hc. rewrite (atext_not_at _ Hc). reflexivity.
  - repeat (split; [assumption|]). assumption.
Qed.

Lemma extract_match_is_valid_candidate_witness :
  exists s a e : nat,
    s < a /\ a + 1 < e /\ e <= length (sv_bytes (View (lit "mail bob@example.org now")))
    /\ lit "bob@example.org" = substr (sv_bytes (View (lit "mail bob@example.org now"))) s (e - s)
    /\ at_ (sv_bytes (View (lit "mail bob@example.org now"))) a = "@"%char
    /\ lit "bob@example.org"
       = substr (sv_bytes (View (lit "mail bob@example.org now"))) s (a - s)
           ++ "@"%char
              :: substr (sv_bytes (View (lit "mail bob@example.org now"))) (a + 1) (e - (a + 1))
    /\ count_occ ascii_dec (lit "bob@example.org") "@"%char = 1
    /\ Spec.scan_local_ok
         (substr (sv_bytes (View (lit "mail bob@example.org now"))) s (a - s)) = true
    /\ LocalPartValidator.validate (sv_bytes (View (lit "mail bob@example.org now"))) s a
         LocalPartValidator.SCAN = true
    /\ DomainPartValidator.validate (sv_bytes (View (lit "mail bob@example.org now")))
         (a + 1) e = true
    /\ LocalPartValidator.validate (lit "bob@example.org") 0 (a - s)
         LocalPartValidator.SCAN = true
    /\ DomainPartValidator.validate (lit "bob@example.org") (a - s + 1)
         (length (lit "bob@example.org")) = true.
Proof.
  apply (extract_match_is_valid_candidate (View (lit "mail bob@example.org now"))
           (lit "bob@example.org")).
  vm_compute. left. reflexivity.
Defined.

(* ------------------------------------------------------------------------- *)
(** ** The scan loop of [contains] *)

Lemma containsLoop_S (text : text_t) (n pos minScannedIndex lastConsumedEnd
                        totalCharsScanned : nat) :
  containsLoop text (S n) pos minScannedIndex lastConsumedEnd totalCharsScanned =
      let len := length text in
      if pos <? len then
        match memchrAt text (len - pos) pos with
        | None => Some false
        | Some atPos =>
            if (atPos <? 1) || (len - 3 <=? atPos) then
              containsLoop text n (atPos + 1) minScannedIndex lastConsumedEnd
                totalCharsScanned
            else if atPos <? lastConsumedEnd then
              containsLoop text n (atPos + 1) minScannedIndex lastConsumedEnd
                totalCharsScanned
            else
              let boundaries := findEmailBoundaries text atPos minScannedIndex in
              let totalCharsScanned :=
                totalCharsScanned + ((atPos - start boundaries)
                                     + (end_ boundaries - atPos)) in
              if MAX_TOTAL_CHARS_SCANNED <? totalCharsScanned then Some false
              else if negb (validBoundaries boundaries) then
                let pos := if 0 <? skipTo boundaries then skipTo boundaries
                           else atPos + 1 in
                containsLoop text n pos minScannedIndex lastConsumedEnd
                  totalCharsScanned
              else if LocalPartValidator.validate text (start boundaries) atPos
                        LocalPartValidator.SCAN
                      && DomainPartValidator.validate text (atPos + 1) (end_ boundaries)
              then Some true
              else
                containsLoop text n (atPos + 1) minScannedIndex lastConsumedEnd
                  totalCharsScanned
        end
      else Some false.
Proof. reflexivity. Qed.

(** [contains] answers [true] only at an anchor whose candidate span was
    judged legal and passed both validators; the byte after that anchor is
    not an opening bracket. *)
Lemma containsLoop_true (text : text_t) (n pos m l t : nat) :
  containsLoop text n pos m l t = Some true ->
  exists atPos,
    pos <= atPos /\ atPos + 1 < length text
    /\ at_ text atPos = "@"%char /\ at_ text (atPos + 1) <> "["%char
    /\ validBoundaries (findEmailBoundaries text atPos m) = true
    /\ LocalPartValidator.validate text (start (findEmailBoundaries text atPos m)) atPos
         LocalPartValidator.SCAN = true
    /\ DomainPartValidator.validate text (atPos + 1)
         (end_ (findEmailBoundaries text atPos m)) = true.
Proof.
  revert pos t. induction n as [|n IH]; intros pos t H; [discriminate|].
  rewrite containsLoop_S in H. cbv zeta in H.
  destruct (pos <? length text) eqn:Hpos; [|discriminate].
  destruct (memchrAt text (length text - pos) pos) as [atPos|] eqn:Hm; [|discriminate].
  apply memchrAt_Some in Hm. destruct Hm as (Hrange & Hat & _).
  assert (Hnext : forall p t', atPos + 1 <= p ->
             containsLoop text n p m l t' = Some true ->
             exists a, pos <= a /\ a + 1 < length text
               /\ at_ text a = "@"%char /\ at_ text (a + 1) <> "["%char
               /\ validBoundaries (findEmailBoundaries text a m) = true
               /\ LocalPartValidator.validate text (start (findEmailBoundaries text a m)) a
                    LocalPartValidator.SCAN = true
               /\ DomainPartValidator.validate text (a + 1)
                    (end_ (findEmailBoundaries text a m)) = true).
  { intros p t' Hp Hc. apply IH in Hc. destruct Hc as (a & Ha & Hrest).
    exists a. split; [lia|exact Hrest]. }
  destruct ((atPos <? 1) || (length text - 3 <=? atPos)); [eapply Hnext; [|exact H]; lia|].
  destruct (atPos <? l); [eapply Hnext; [|exact H]; lia|].
  destruct (MAX_TOTAL_CHARS_SCANNED <? _); [discriminate|].
  destruct (validBoundaries (findEmailBoundaries text atPos m)) eqn:Hvb; cbn [negb] in H.
  - destruct (LocalPartValidator.validate text _ atPos LocalPartValidator.SCAN) eqn:Hloc;
      cbn [andb] in H; [|eapply Hnext; [|exact H]; lia].
    destruct (DomainPartValidator.validate text (atPos + 1) _) eqn:Hdom;
      [|eapply Hnext; [|exact H]; lia].
    pose proof (findEmailBoundaries_valid text atPos m ltac:(lia) Hvb) as (_ & _ & _ & Hbr).
    pose proof (domain_validate_range _ _ _ Hdom) as Hdr.
    exists atPos. split; [lia|]. split; [lia|]. split; [exact Hat|].
    split; [|auto].
    intros Hc. destruct (Nat.ltb_spec (atPos + 1) (length text)) as [_|]; [|lia].
    cbn [andb] in Hbr. apply beq_neq in Hbr. contradiction.
  - destruct (findEmailBoundaries_cases text atPos m ltac:(lia)) as [Hb|(Hb & _)].
    + rewrite Hb in H. cbn [skipTo] in H.
      destruct (0 <? atPos + 1); (eapply Hnext; [|exact H]; lia).
    + rewrite Hb in H. cbn in H. eapply Hnext; [|exact H]; lia.
Qed.

Lemma contains_true_loop (v : string_view) :
  contains v = true ->
  containsLoop (sv_bytes v) (S (sv_length v)) 0 0 0 0 = Some true.
Proof.
  unfold contains, contains_fuel.
  destruct ((MAX_INPUT_SIZE <? sv_length v) || (sv_length v <? 5)); [discriminate|].
  destruct (sv_is_null v && (0 <? sv_length v)); [discriminate|].
  destruct (containsLoop (sv_bytes v) (S (sv_length v)) 0 0 0 0) as [[|]|];
    [reflexivity|discriminate|discriminate].
Qed.

(** C8. An anchor whose next byte is an opening bracket is rejected by the
    boundary search, for every lower bound of the left scan; [contains]
    answers [true] only on account of an anchor whose next byte is not an
    opening bracket (and whose candidate passed both validators); and no
    string returned by [extract] holds the two bytes "@[" in a row. *)
Theorem bracket_anchor_never_matches :
  (forall (text : text_t) (atPos minScannedIndex : nat),
      atPos + 1 < length text -> at_ text (atPos + 1) = "["%char ->
      findEmailBoundaries text atPos minScannedIndex
      = mkBoundaries atPos atPos false (atPos + 1))
  /\ (forall v : string_view,
         contains v = true ->
         exists atPos,
           atPos + 1 < length (sv_bytes v)
           /\ at_ (sv_bytes v) atPos = "@"%char
           /\ at_ (sv_bytes v) (atPos + 1) <> "["%char
           /\ validBoundaries (findEmailBoundaries (sv_bytes v) atPos 0) = true)
  /\ (forall (v : string_view) (m : text_t),
         In m (extract v) ->
         forall i, ~ (at_ m i = "@"%char /\ at_ m (i + 1) = "["%char)).
Proof.
  split; [|split].
  - intros text atPos m Hlen Hbr. unfold findEmailBoundaries.
    destruct (Nat.leb_spec (length text) atPos) as [|_]; [lia|].
    destruct (Nat.ltb_spec (atPos + 1) (length text)) as [_|]; [|lia].
    rewrite Hbr. reflexivity.
  - intros v Hc. apply contains_true_loop, containsLoop_true in Hc.
    destruct Hc as (a & _ & H1 & H2 & H3 & H4 & _).
    exists a. auto.
  - intros v m Hin i [Hi1 Hi2]. apply extract_match_span in Hin.
    destruct Hin as (sp & _ & Hm & Hgood).
    pose proof (good_span_shape _ _ Hgood) as (Hshape & Hl & Hd).
    rewrite <- Hm in Hshape. clear Hm Hgood.
    pose proof (scan_local_chars _ Hl) as Hlc.
    pose proof (domain_labels_chars _ Hd) as Hdc.
    pose proof (domain_labels_nonempty _ Hd) as Hdn.
    set (lp := substr (sv_bytes v) (m_start sp) (m_at sp - m_start sp)) in *.
    set (dp := substr (sv_bytes v) (m_at sp + 1) (m_end sp - (m_at sp + 1))) in *.
    subst m.
    destruct (Nat.lt_trichotomy i (length lp)) as [Hlt|[Heq|Hgt]].
    + rewrite at_app_l in Hi1 by lia.
      pose proof (forallb_at _ _ i Hlc Hlt) as Ha.
      apply atext_not_at in Ha. rewrite Hi1 in Ha. discriminate.
    + rewrite at_app_r in Hi2 by lia.
      replace (i + 1 - length lp) with 1 in Hi2 by lia.
      change (at_ ("@"%char :: dp) 1) with (at_ dp 0) in Hi2.
      pose proof (forallb_at _ _ 0 Hdc ltac:(lia)) as Ha.
      apply domain_not_bracket in Ha. rewrite Hi2 in Ha. discriminate.
    + rewrite at_app_r in Hi1 by lia.
      destruct (i - length lp) as [|k] eqn:Hk; [lia|].
      change (at_ ("@"%char :: dp) (S k)) with (at_ dp k) in Hi1.
      destruct (Nat.lt_ge_cases k (length dp)) as [Hin|Hout].
      * pose proof (forallb_at _ _ k Hdc Hin) as Ha.
        apply domain_not_at in Ha. rewrite Hi1 in Ha. discriminate.
      * rewrite at_out_of_range in Hi1 by exact Hout. discriminate.
Qed.

Lemma bracket_anchor_never_matches_witness :
  findEmailBoundaries (lit "user@[10.0.0.1]") 4 0 = mkBoundaries 4 4 false (4 + 1)
  /\ (exists atPos,
         atPos + 1 < length (sv_bytes (View (lit "see a@b.co")))
         /\ at_ (sv_bytes (View (lit "see a@b.co"))) atPos = "@"%char
         /\ at_ (sv_bytes (View (lit "see a@b.co"))) (atPos + 1) <> "["%char
         /\ validBoundaries
              (findEmailBoundaries (sv_bytes (View (lit "see a@b.co"))) atPos 0) = true)
  /\ (forall i, ~ (at_ (lit "a@b.co") i = "@"%char /\ at_ (lit "a@b.co") (i + 1) = "["%char)).
Proof.
  destruct bracket_anchor_never_matches as (H1 & H2 & H3).
  split; [|split].
  - apply (H1 (lit "user@[10.0.0.1]") 4 0); [simpl; lia|reflexivity].
  - apply (H2 (View (lit "see a@b.co"))). vm_compute. reflexivity.
  - apply (H3 (View (lit "see a@b.co")) (lit "a@b.co")). vm_compute. left. reflexivity.
Defined.

(* ------------------------------------------------------------------------- *)
(** ** Uniqueness and order of the extracted matches *)

Lemma StronglySorted_impl {A : Type} (R S : A -> A -> Prop) (P : A -> Prop) (l : list A) :
  (forall a b, P a -> P b -> R a b -> S a b) ->
  Forall P l -> StronglySorted R l -> StronglySorted S l.
Proof.
  intros HRS HP Hs. induction Hs as [|a l Hl IH Ha]; [constructor|].
  inversion HP; subst. constructor; [apply IH; assumption|].
  rewrite Forall_forall in *. intros b Hb. apply HRS; auto.
Qed.

(** The claim as the specification states it fails: [extract] records spans
    that overlap.  In "text@user.com@domain." the second match reuses the
    domain of the first as its local part. *)
Lemma extract_spans_overlap :
  extract (View (lit "text@user.com@domain."))
  = [lit "text@user.com"; lit "user.com@domain"]
  /\ extract_spans (View (lit "text@user.com@domain."))
     = [mkSpan 0 4 13; mkSpan 5 13 20]
  /\ ~ ForallOrdPairs spans_disjoint
         (extract_spans (View (lit "text@user.com@domain."))).
Proof.
  assert (Hs : extract_spans (View (lit "text@user.com@domain."))
               = [mkSpan 0 4 13; mkSpan 5 13 20]) by (vm_compute; reflexivity).
  split; [vm_compute; reflexivity|]. split; [exact Hs|].
  rewrite Hs. intros H. inversion H as [|a l Ha _]; subst.
  inversion Ha as [|b l' Hd _]; subst.
  unfold spans_disjoint in Hd. cbn [m_start m_end] in Hd. lia.
Qed.

(** C3 (amended). [extract] never returns the same string twice; the strings
    are the bytes of the recorded spans, in the order the spans were
    recorded; each span lies inside the input around its anchor; and the
    spans are recorded left to right: a later span starts after the anchor
    of an earlier one and has its anchor at or after the end of the earlier
    one, so start offsets and end offsets both increase strictly.  (Spans
    may overlap: the local part of a later match may reach back into the
    domain of the previous one.) *)
Theorem extract_unique_and_ordered (v : string_view) :
  NoDup (extract v)
  /\ extract v = map (span_text (sv_bytes v)) (extract_spans v)
  /\ Forall (fun sp => m_start sp < m_at sp /\ m_at sp < m_end sp
                       /\ m_end sp <= length (sv_bytes v)
                       /\ at_ (sv_bytes v) (m_at sp) = "@"%char)
       (extract_spans v)
  /\ StronglySorted span_before (extract_spans v)
  /\ StronglySorted (fun a b => m_start a < m_start b /\ m_end a < m_end b)
       (extract_spans v).
Proof.
  destruct (extract_state_of_inv v) as [H1 _ H3 H4 H5 _].
  fold (extract v) in H1, H4. fold (extract_spans v) in H1, H3, H5.
  split; [exact H4|]. split; [exact H1|]. split; [|split; [exact H5|]].
  - eapply Forall_impl; [|exact H3]. intros sp (G1 & G2 & G3 & G4 & _).
    repeat split; try lia. exact G4.
  - eapply StronglySorted_impl; [|exact H3|exact H5].
    intros a b (A1 & A2 & _) (B1 & B2 & _) [Hab1 Hab2]. lia.
Qed.

(* ------------------------------------------------------------------------- *)
(** ** The boundary search on a clean candidate *)

(** An anchor that directly follows another [@] is rejected, whatever comes
    after it. *)
Lemma findEmailBoundaries_after_at (text : text_t) (atPos m : nat) :
  atPos < length text -> 1 <= atPos -> at_ text (atPos - 1) = "@"%char ->
  findEmailBoundaries text atPos m = mkBoundaries atPos atPos false (atPos + 1).
Proof.
  intros Hlen Hpos Hprev. unfold findEmailBoundaries.
  destruct (Nat.leb_spec (length text) atPos) as [|_]; [lia|].
  destruct ((atPos + 1 <? length text) && (at_ text (atPos + 1) =c? "["));
    [reflexivity|].
  cbv zeta.
  assert (Hls : leftScan text atPos (rightBoundary text atPos) (effectiveMinOf atPos m)
                  atPos atPos = (atPos, false, atPos)).
  { destruct atPos as [|a]; [lia|]. rewrite leftScan_S. cbv zeta.
    destruct (effectiveMinOf (S a) m <? S a); [|reflexivity].
    rewrite Hprev. reflexivity. }
  rewrite Hls. cbn [recoverStart].
  pose proof (adjustStart_bounds text atPos (effectiveMinOf atPos m) atPos) as Hadj.
  destruct (Nat.leb_spec atPos (adjustStart text atPos (effectiveMinOf atPos m) atPos));
    [|lia].
  f_equal. lia.
Qed.

Lemma leftScan_clean (data : text_t) (atPos e effMin s0 : nat) :
  length data <= e ->
  effMin <= s0 ->
  effMin = s0 \/ (at_ data (s0 - 1) =c? "@") = true ->
  forall k n,
    k <= n ->
    (forall j, s0 <= j < s0 + k -> isAtext (at_ data j) = true) ->
    (forall j, s0 <= j -> j + 1 < s0 + k ->
               (at_ data j =c? ".") && (at_ data (j + 1) =c? ".") = false) ->
    (0 < k -> (at_ data s0 =c? ".") = false) ->
    leftScan data atPos e effMin n (s0 + k) = (s0, false, atPos).
Proof.
  intros He Hmin Hbar. induction k as [|k IH]; intros n Hn Hatext Hdd Hfirst.
  - rewrite Nat.add_0_r. destruct n as [|n]; [reflexivity|].
    rewrite leftScan_S. cbv zeta.
    destruct (Nat.ltb_spec effMin s0) as [Hlt|]; [|reflexivity].
    destruct Hbar as [|Hbar]; [lia|]. rewrite Hbar. reflexivity.
  - destruct n as [|n]; [lia|].
    assert (Hrec : leftScan data atPos e effMin n (s0 + S k - 1) = (s0, false, atPos)).
    { replace (s0 + S k - 1) with (s0 + k) by lia. apply IH; [lia| | |].
      - intros j Hj. apply Hatext. lia.
      - intros j Hj1 Hj2. apply Hdd; lia.
      - intros Hk. apply Hfirst. lia. }
    rewrite leftScan_S. cbv zeta.
    destruct (Nat.ltb_spec effMin (s0 + S k)) as [_|]; [|lia].
    assert (Hc : isAtext (at_ data (s0 + S k - 1)) = true) by (apply Hatext; lia).
    rewrite (atext_not_at _ Hc).
    assert (Hnodd : (at_ data (s0 + S k - 1) =c? ".") && (effMin + 1 <? s0 + S k)
                    && (2 <=? s0 + S k) && (at_ data (s0 + S k - 2) =c? ".") = false).
    { destruct (at_ data (s0 + S k - 1) =c? ".") eqn:Hd; [|reflexivity].
      destruct (Nat.ltb_spec (effMin + 1) (s0 + S k)) as [H1|]; [|reflexivity].
      destruct (Nat.leb_spec 2 (s0 + S k)) as [H2|]; [|reflexivity].
      cbn [andb].
      destruct k as [|k'].
      - replace (s0 + 1 - 1) with s0 in Hd by lia.
        rewrite Hfirst in Hd by lia. discriminate.
      - specialize (Hdd (s0 + S (S k') - 2) ltac:(lia) ltac:(lia)).
        replace (s0 + S (S k') - 2 + 1) with (s0 + S (S k') - 1) in Hdd by lia.
        rewrite Hd, andb_true_r in Hdd. exact Hdd. }
    rewrite Hnodd. rewrite (atext_not_invalid _ Hc).
    destruct (Nat.ltb_spec e (length data)) as [|_]; [lia|]. cbn [andb].
    destruct (isQuoteChar (at_ data (s0 + S k - 1))).
    + repeat match goal with
             | |- (if ?b then _ else _) = _ => destruct b eqn:?
             end; try exact Hrec.
      match goal with H : (_ =? _) = true |- _ => apply Nat.eqb_eq in H end.
      f_equal. f_equal. lia.
    + rewrite Hc. destruct (at_ data (s0 + S k - 1) =c? "."); exact Hrec.
Qed.

Lemma domainRun_all (data : text_t) (n e : nat) :
  e + n = length data ->
  (forall j, e <= j < length data -> isDomainChar (at_ data j) = true) ->
  domainRun data n e = length data.
Proof.
  revert e. induction n as [|n IH]; intros e Hen Hall; simpl; [lia|].
  destruct (Nat.ltb_spec e (length data)) as [_|]; [|lia].
  rewrite Hall by lia. cbn [andb]. apply IH; [lia|]. intros; apply Hall; lia.
Qed.

Lemma trimTrailing_none (data : text_t) (atPos : nat) (c : byte) (e : nat) :
  (at_ data (e - 1) =c? c) = false -> trimTrailing data atPos c e = e.
Proof.
  intros H. destruct e as [|e]; [reflexivity|]. simpl.
  replace (S e - 1) with e in H by lia. rewrite H, andb_false_r. reflexivity.
Qed.

Lemma rightBoundary_to_end (data : text_t) (atPos : nat) :
  atPos + 1 <= length data ->
  (forall j, atPos < j < length data -> isDomainChar (at_ data j) = true) ->
  (at_ data (length data - 1) =c? ".") = false ->
  rightBoundary data atPos = length data.
Proof.
  intros Hlen Hall Hlast. unfold rightBoundary.
  rewrite domainRun_all; [| lia | intros; apply Hall; lia].
  rewrite trimTrailing_none by exact Hlast.
  rewrite Nat.ltb_irrefl. reflexivity.
Qed.

(** The boundary search on a candidate that runs to the end of the buffer,
    whose local part is clean (atext and single dots, no leading dot) and is
    bounded on the left either by the lower bound of the scan or by an
    earlier [@] (in which case it starts with an alphanumeric byte): the span
    proposed is exactly the candidate. *)
Lemma findEmailBoundaries_clean (text : text_t) (atPos m s0 : nat) :
  s0 < atPos -> atPos + 1 < length text ->
  effectiveMinOf atPos m <= s0 ->
  (effectiveMinOf atPos m = s0
   \/ (1 <= s0 /\ (at_ text (s0 - 1) =c? "@") = true /\ isAlphaNum (at_ text s0) = true)) ->
  (forall j, s0 <= j < atPos -> isAtext (at_ text j) = true) ->
  (forall j, s0 <= j -> j + 1 < atPos ->
             (at_ text j =c? ".") && (at_ text (j + 1) =c? ".") = false) ->
  (at_ text s0 =c? ".") = false ->
  (forall j, atPos < j < length text -> isDomainChar (at_ text j) = true) ->
  (at_ text (length text - 1) =c? ".") = false ->
  findEmailBoundaries text atPos m = mkBoundaries s0 (length text) true 0.
Proof.
  intros Hs0 Hlen Hmin Hbar Hatext Hdd Hfirst Hdom Hlast.
  unfold findEmailBoundaries.
  destruct (Nat.leb_spec (length text) atPos) as [|_]; [lia|].
  destruct (Nat.ltb_spec (atPos + 1) (length text)) as [_|]; [|lia].
  rewrite (domain_not_bracket _ (Hdom (atPos + 1) ltac:(lia))). cbn [andb]. cbv zeta.
  rewrite rightBoundary_to_end by (assumption || lia).
  set (effMin := effectiveMinOf atPos m) in *.
  assert (Hls : leftScan text atPos (length text) effMin atPos atPos = (s0, false, atPos)).
  { replace atPos with (s0 + (atPos - s0)) at 3 by lia.
    apply leftScan_clean; try lia.
    - destruct Hbar as [|(_ & Hb & _)]; [left; assumption|right; exact Hb].
    - intros j Hj. apply Hatext. lia.
    - intros j Hj1 Hj2. apply Hdd; lia.
    - intros _. exact Hfirst. }
  rewrite Hls. cbn [recoverStart].
  assert (Hadj : adjustStart text atPos effMin s0 = s0).
  { unfold adjustStart.
    assert (Hsk : skipLeadingDots text atPos (atPos - s0) s0 = s0).
    { destruct (atPos - s0); [reflexivity|]. simpl. rewrite Hfirst, andb_false_r.
      reflexivity. }
    rewrite Hsk.
    destruct ((s0 <? atPos) && (effMin <? s0) && (0 <? s0)
              && isInvalidLocalChar (at_ text (s0 - 1))) eqn:Hc; [|reflexivity].
    destruct Hbar as [Heq|(_ & _ & Hal)].
    - rewrite Heq, Nat.ltb_irrefl, andb_false_r in Hc. discriminate.
    - unfold findFirstAlnum. rewrite findFirstAlnumLoop_hit; [reflexivity|lia|exact Hal]. }
  rewrite Hadj.
  destruct (Nat.leb_spec atPos s0) as [|_]; [lia|].
  f_equal.
  assert (Hleft : leftBoundaryOk text effMin s0 false = true).
  { unfold leftBoundaryOk.
    destruct ((effMin <? s0) && (0 <? s0)) eqn:Hc; [|reflexivity].
    destruct Hbar as [Heq|(_ & Hb & _)].
    - rewrite Heq, Nat.ltb_irrefl in Hc. discriminate.
    - rewrite (at_is_invalid _ Hb), (at_not_quote _ Hb). cbn [andb].
      apply beq_eq in Hb. rewrite Hb. reflexivity. }
  rewrite Hleft. unfold rightBoundaryOk. rewrite Nat.ltb_irrefl. reflexivity.
Qed.

(* ------------------------------------------------------------------------- *)
(** ** [contains] against [extract] *)

(** After a rejected anchor the scan always resumes just past it. *)
Lemma resume_after_reject (text : text_t) (atPos m : nat) :
  atPos < length text ->
  validBoundaries (findEmailBoundaries text atPos m) = false ->
  (if 0 <? skipTo (findEmailBoundaries text atPos m)
   then skipTo (findEmailBoundaries text atPos m) else atPos + 1) = atPos + 1.
Proof.
  intros Hlen Hv. destruct (findEmailBoundaries_cases text atPos m Hlen) as [H|(H & _)].
  - rewrite H. cbn [skipTo]. destruct (0 <? atPos + 1); reflexivity.
  - rewrite H. reflexivity.
Qed.

(** Every round of the loop of [contains] moves [pos] forward, so a budget
    larger than the number of bytes left is never exhausted, and the answer
    does not depend on the budget. *)
Lemma containsLoop_fuel (text : text_t) (n n' pos m l t : nat) :
  length text - pos < n -> length text - pos < n' ->
  containsLoop text n pos m l t = containsLoop text n' pos m l t
  /\ containsLoop text n pos m l t <> None.
Proof.
  revert n' pos t. induction n as [|n IH]; intros n' pos t Hn Hn'; [lia|].
  destruct n' as [|n']; [lia|].
  rewrite !containsLoop_S. cbv zeta.
  destruct (Nat.ltb_spec pos (length text)) as [Hpos|]; [|split; [reflexivity|discriminate]].
  destruct (memchrAt text (length text - pos) pos) as [atPos|] eqn:Hm;
    [|split; [reflexivity|discriminate]].
  apply memchrAt_Some in Hm. destruct Hm as (Hrange & _).
  assert (Hnext : forall t', containsLoop text n (atPos + 1) m l t'
                             = containsLoop text n' (atPos + 1) m l t'
                             /\ containsLoop text n (atPos + 1) m l t' <> None)
    by (intros t'; apply IH; lia).
  destruct ((atPos <? 1) || (length text - 3 <=? atPos)); [apply Hnext|].
  destruct (atPos <? l); [apply Hnext|].
  destruct (MAX_TOTAL_CHARS_SCANNED <? _); [split; [reflexivity|discriminate]|].
  destruct (validBoundaries (findEmailBoundaries text atPos m)) eqn:Hvb; cbn [negb].
  - destruct (_ && _); [split; [reflexivity|discriminate]|apply Hnext].
  - rewrite resume_after_reject by (lia || assumption). apply Hnext.
Qed.

(** The loop budget in the definition of [contains] is enough: any larger
    budget gives the same answer, and the budget never runs out. *)
Lemma contains_total (v : string_view) (n : nat) :
  sv_length v < n -> contains_fuel n v = Some (contains v).
Proof.
  intros Hn. unfold contains.
  assert (H : contains_fuel n v = contains_fuel (S (sv_length v)) v
              /\ contains_fuel n v <> None).
  { unfold contains_fuel.
    destruct ((MAX_INPUT_SIZE <? sv_length v) || (sv_length v <? 5));
      [split; [reflexivity|discriminate]|].
    destruct (sv_is_null v && (0 <? sv_length v)); [split; [reflexivity|discriminate]|].
    assert (Hl : length (sv_bytes v) <= sv_length v) by (destruct v; simpl; lia).
    apply containsLoop_fuel; lia. }
  destruct H as [H1 H2]. rewrite <- H1.
  destruct (contains_fuel n v); [reflexivity|contradiction].
Qed.

Lemma extractLoop_emails_mono (text : text_t) (n : nat) (st : extract_state) :
  emails st <> [] -> emails (extractLoop text n st) <> [].
Proof.
  revert st. induction n as [|n IH]; intros st H; [exact H|].
  rewrite extractLoop_S. cbv zeta.
  repeat match goal with
         | |- emails (if ?b then _ else _) <> [] => destruct b
         | |- emails (match ?x with Some _ => _ | None => _ end) <> [] => destruct x
         end;
    try exact H; apply IH; cbn [emails]; try exact H.
  all: match goal with |- (if ?b then _ else _) <> [] => destruct b end;
    try exact H; destruct (emails st); [contradiction|simpl; discriminate].
Qed.

Lemma count_at_skipn_step (text : text_t) (pos a p : nat) :
  at_ text a = "@"%char -> pos <= a < length text -> a + 1 <= p ->
  count_occ ascii_dec (skipn p text) "@"%char
  < count_occ ascii_dec (skipn pos text) "@"%char.
Proof.
  intros Hat Ha Hp.
  assert (H1 : skipn pos text = firstn (a - pos) (skipn pos text) ++ skipn a text).
  { rewrite <- (firstn_skipn (a - pos) (skipn pos text)) at 1.
    rewrite skipn_skipn. do 2 f_equal. lia. }
  assert (H2 : skipn (S a) text
               = firstn (p - S a) (skipn (S a) text) ++ skipn p text).
  { rewrite <- (firstn_skipn (p - S a) (skipn (S a) text)) at 1.
    rewrite skipn_skipn. do 2 f_equal. lia. }
  rewrite H1, (skipn_at text a) by lia. rewrite Hat, H2.
  rewrite count_occ_app, count_occ_cons_eq by reflexivity.
  rewrite count_occ_app. lia.
Qed.

Ltac use_next :=
  match goal with
  | Hnext : forall st' : extract_state, _,
    Hne : emails (extractLoop _ _ ?s) <> [] |- _ =>
      apply (Hnext s);
      cbn [emails seen minScannedIndex lastConsumedEnd pos extractedCount]; auto
  end.

(** Until its first match, [extract] runs the very loop of [contains]. *)
Lemma extract_nonempty_contains (text : text_t) (n : nat) :
  forall (st : extract_state) (k : nat),
    emails st = [] -> seen st = [] ->
    minScannedIndex st = 0 -> lastConsumedEnd st = 0 ->
    emails (extractLoop text n st) <> [] ->
    length text - pos st < k ->
    containsLoop text k (pos st) 0 0 (totalCharsScanned st) = Some true.
Proof.
  induction n as [|n IH]; intros st k He Hs Hm Hl Hne Hk; [contradiction|].
  destruct k as [|k]; [lia|].
  rewrite extractLoop_S in Hne. rewrite containsLoop_S. cbv zeta in *.
  rewrite Hm, Hl in *.
  destruct (Nat.ltb_spec (pos st) (length text)) as [Hpos|]; [|contradiction].
  destruct (MAX_EMAILS_EXTRACT <=? extractedCount st); [contradiction|].
  destruct (memchrAt text (length text - pos st) (pos st)) as [atPos|] eqn:Hmem;
    [|contradiction].
  apply memchrAt_Some in Hmem. destruct Hmem as (Hrange & _).
  assert (Hnext : forall st',
             emails st' = [] -> seen st' = [] ->
             minScannedIndex st' = 0 -> lastConsumedEnd st' = 0 ->
             pos st' = atPos + 1 ->
             emails (extractLoop text n st') <> [] ->
             containsLoop text k (atPos + 1) 0 0 (totalCharsScanned st') = Some true).
  { intros st' H1 H2 H3 H4 H5 H6. rewrite <- H5. apply IH; auto. lia. }
  destruct ((atPos <? 1) || (length text - 3 <=? atPos));
    [use_next|].
  destruct (atPos <? 0); [use_next|].
  destruct (MAX_TOTAL_CHARS_SCANNED <? _); [cbn [emails] in Hne; contradiction|].
  destruct (validBoundaries (findEmailBoundaries text atPos 0)) eqn:Hvb; cbn [negb] in *.
  - destruct (_ && _); [reflexivity|].
    use_next.
  - rewrite resume_after_reject in * by (lia || assumption).
    use_next.
Qed.

Lemma max_emails_positive : (MAX_EMAILS_EXTRACT <=? 0) = false.
Proof. reflexivity. Qed.

(** Conversely, the first match of [contains] is recorded by [extract],
    provided the iteration cap of [extract] leaves it enough rounds: one
    round per [@] still ahead. *)
Lemma contains_extract_nonempty (text : text_t) (k : nat) :
  forall (st : extract_state) (n : nat),
    containsLoop text k (pos st) 0 0 (totalCharsScanned st) = Some true ->
    emails st = [] -> seen st = [] ->
    minScannedIndex st = 0 -> lastConsumedEnd st = 0 -> extractedCount st = 0 ->
    count_occ ascii_dec (skipn (pos st) text) "@"%char <= n ->
    emails (extractLoop text n st) <> [].
Proof.
  induction k as [|k IH]; intros st n Hc He Hs Hm Hl Hx Hn; [discriminate|].
  rewrite containsLoop_S in Hc. cbv zeta in Hc.
  destruct (Nat.ltb_spec (pos st) (length text)) as [Hpos|]; [|discriminate].
  destruct (memchrAt text (length text - pos st) (pos st)) as [atPos|] eqn:Hmem;
    [|discriminate].
  pose proof (memchrAt_Some _ _ _ _ Hmem) as (Hrange & Hat & _).
  pose proof (count_at_skipn_step text (pos st) atPos (atPos + 1) Hat ltac:(lia) ltac:(lia))
    as Hcount.
  destruct n as [|n]; [lia|].
  rewrite extractLoop_S. cbv zeta. rewrite Hm, Hl, Hx, Hmem.
  destruct (Nat.ltb_spec (pos st) (length text)) as [_|]; [|lia].
  rewrite max_emails_positive.
  assert (Hnext : forall st',
             emails st' = [] -> seen st' = [] ->
             minScannedIndex st' = 0 -> lastConsumedEnd st' = 0 ->
             extractedCount st' = 0 -> pos st' = atPos + 1 ->
             containsLoop text k (atPos + 1) 0 0 (totalCharsScanned st') = Some true ->
             emails (extractLoop text n st') <> []).
  { intros st' H1 H2 H3 H4 H5 H6 H7. apply IH; auto.
    - rewrite H6. exact H7.
    - rewrite H6. lia. }
  destruct ((atPos <? 1) || (length text - 3 <=? atPos));
    [apply Hnext; auto|].
  destruct (atPos <? 0); [apply Hnext; auto|].
  destruct (MAX_TOTAL_CHARS_SCANNED <? _); [discriminate|].
  destruct (validBoundaries (findEmailBoundaries text atPos 0)) eqn:Hvb; cbn [negb] in *.
  - destruct (LocalPartValidator.validate text _ atPos LocalPartValidator.SCAN) eqn:Hloc;
      cbn [andb] in *; [|apply Hnext; auto].
    destruct (DomainPartValidator.validate text (atPos + 1) _) eqn:Hdom;
      [|apply Hnext; auto].
    pose proof (domain_validate_range _ _ _ Hdom) as Hdr.
    pose proof (proj1 (validate_scan_spec _ _ _) Hloc) as [Hlr _].
    set (b := findEmailBoundaries text atPos 0) in *.
    destruct (Nat.leb_spec (length text) (start b)) as [|_]; [lia|].
    destruct (Nat.ltb_spec (length text) (end_ b)) as [|_]; [lia|].
    destruct (Nat.leb_spec (end_ b) (start b)) as [|_]; [lia|].
    cbn [orb]. apply extractLoop_emails_mono. cbn [emails].
    rewrite Hs, He. cbn [existsb negb]. discriminate.
  - rewrite resume_after_reject in * by (lia || assumption). apply Hnext; auto.
Qed.

(** C1 (amended). Whenever [extract] returns a non-empty sequence,
    [contains] answers [true]; and when the input holds at most 100,000 [@]
    bytes (the iteration cap of [extract], which [contains] does not have),
    [contains] answers [true] exactly when [extract] returns a non-empty
    sequence. *)
Theorem contains_iff_extract_nonempty_within_cap (v : string_view) :
  (extract v <> [] -> contains v = true)
  /\ (count_occ ascii_dec (sv_bytes v) "@"%char <= MAX_SCAN_ITERATIONS ->
      (contains v = true <-> extract v <> [])).
Proof.
  assert (H1 : extract v <> [] -> contains v = true).
  { unfold extract, extract_state_of, contains, contains_fuel.
    destruct ((MAX_INPUT_SIZE <? sv_length v) || (sv_length v <? 5));
      [intros H; contradiction|].
    destruct (sv_is_null v && (0 <? sv_length v)); [intros H; contradiction|].
    intros H.
    pose proof (extract_nonempty_contains (sv_bytes v) MAX_SCAN_ITERATIONS initState
                  (S (sv_length v)) eq_refl eq_refl eq_refl eq_refl H) as E.
    cbn [pos totalCharsScanned initState] in E. rewrite E; [reflexivity|].
    destruct v; simpl; lia. }
  split; [exact H1|]. intros Hcap. split; [|exact H1].
  intros Hc. unfold contains, contains_fuel in Hc. unfold extract, extract_state_of.
  destruct ((MAX_INPUT_SIZE <? sv_length v) || (sv_length v <? 5)); [discriminate|].
  destruct (sv_is_null v && (0 <? sv_length v)); [discriminate|].
  destruct (containsLoop (sv_bytes v) (S (sv_length v)) 0 0 0 0) as [[|]|] eqn:Hloop;
    try discriminate.
  apply (contains_extract_nonempty (sv_bytes v) (S (sv_length v)) initState
           MAX_SCAN_ITERATIONS); auto.
Qed.

Lemma contains_iff_extract_nonempty_within_cap_witness :
  (extract (View (lit "mail bob@example.org now")) <> []
   -> contains (View (lit "mail bob@example.org now")) = true)
  /\ (contains (View (lit "mail bob@example.org now")) = true
      <-> extract (View (lit "mail bob@example.org now")) <> []).
Proof.
  destruct (contains_iff_extract_nonempty_within_cap
              (View (lit "mail bob@example.org now"))) as [H1 H2].
  split; [exact H1|]. apply H2. apply Nat.leb_le. vm_compute. reflexivity.
Defined.

(* ------------------------------------------------------------------------- *)
(** ** A long run of [@] exhausts the iteration cap of [extract] *)

Lemma memchrAt_here (text : text_t) (n pos : nat) :
  0 < n -> at_ text pos = "@"%char -> memchrAt text n pos = Some pos.
Proof.
  intros Hn Hat. destruct n as [|n]; [lia|]. simpl. rewrite Hat. reflexivity.
Qed.

(** Inside a run of [@] that starts the buffer, one round of either loop
    moves [pos] by one and changes nothing else. *)
Lemma containsLoop_at_run (text : text_t) (n k i : nat) :
  (forall j, j < i + n -> at_ text j = "@"%char) ->
  i + n + 3 <= length text ->
  containsLoop text (n + k) i 0 0 0 = containsLoop text k (i + n) 0 0 0.
Proof.
  revert i. induction n as [|n IH]; intros i Hrun Hlen.
  - rewrite Nat.add_0_r. reflexivity.
  - cbn [Nat.add]. rewrite containsLoop_S. cbv zeta.
    destruct (Nat.ltb_spec i (length text)) as [_|]; [|lia].
    rewrite memchrAt_here by (lia || (apply Hrun; lia)).
    replace (i + S n) with ((i + 1) + n) by lia.
    assert (Hnext : containsLoop text (n + k) (i + 1) 0 0 0
                    = containsLoop text k (i + 1 + n) 0 0 0).
    { apply IH; [intros j Hj; apply Hrun; lia|lia]. }
    destruct (Nat.ltb_spec i 1) as [Hi|Hi]; [exact Hnext|].
    destruct (Nat.leb_spec (length text - 3) i) as [|_]; [lia|]. cbn [orb].
    change (i <? 0) with false. cbv iota.
    rewrite findEmailBoundaries_after_at by (lia || (apply Hrun; lia)).
    cbn [start end_ validBoundaries skipTo negb]. rewrite Nat.sub_diag.
    cbn [Nat.add].
    destruct (MAX_TOTAL_CHARS_SCANNED <? 0) eqn:Hmax;
      [apply Nat.ltb_lt in Hmax; lia|].
    destruct (Nat.ltb_spec 0 (i + 1)) as [_|]; [|lia]. exact Hnext.
Qed.

Lemma extractLoop_at_run (text : text_t) (n : nat) (st : extract_state) :
  emails st = [] -> minScannedIndex st = 0 -> lastConsumedEnd st = 0 ->
  totalCharsScanned st = 0 ->
  (forall j, j < pos st + n -> at_ text j = "@"%char) ->
  pos st + n + 3 <= length text ->
  emails (extractLoop text n st) = [].
Proof.
  revert st. induction n as [|n IH]; intros st He Hm Hl Ht Hrun Hlen; [exact He|].
  rewrite extractLoop_S. cbv zeta.
  destruct (Nat.ltb_spec (pos st) (length text)) as [_|]; [|lia].
  destruct (MAX_EMAILS_EXTRACT <=? extractedCount st); [exact He|].
  rewrite memchrAt_here by (lia || (apply Hrun; lia)).
  rewrite Hm, Hl, Ht.
  assert (Hnext : forall st', emails st' = [] -> minScannedIndex st' = 0 ->
                    lastConsumedEnd st' = 0 -> totalCharsScanned st' = 0 ->
                    pos st' = pos st + 1 -> emails (extractLoop text n st') = []).
  { intros st' H1 H2 H3 H4 H5. apply IH; auto.
    - intros j Hj. apply Hrun. lia.
    - lia. }
  destruct (Nat.ltb_spec (pos st) 1) as [Hi|Hi]; [apply Hnext; auto|].
  destruct (Nat.leb_spec (length text - 3) (pos st)) as [|_]; [lia|]. cbn [orb].
  change (pos st <? 0) with false. cbv iota.
  rewrite findEmailBoundaries_after_at by (lia || (apply Hrun; lia)).
  cbn [start end_ validBoundaries skipTo negb]. rewrite Nat.sub_diag. cbn [Nat.add].
  destruct (MAX_TOTAL_CHARS_SCANNED <? 0); [exact He|].
  destruct (Nat.ltb_spec 0 (pos st + 1)) as [_|]; [|lia]. apply Hnext; auto.
Qed.

Lemma at_after_run (N k : nat) (rest : text_t) :
  at_ (repeat "@"%char N ++ rest) (N + k) = at_ rest k.
Proof.
  rewrite at_app_r by (rewrite repeat_length; lia).
  rewrite repeat_length. f_equal. lia.
Qed.

Lemma at_in_run (N j : nat) (rest : text_t) :
  j < N -> at_ (repeat "@"%char N ++ rest) j = "@"%char.
Proof.
  intros Hj. rewrite at_app_l by (rewrite repeat_length; lia).
  unfold at_. apply nth_repeat_lt. exact Hj.
Qed.

Lemma substr_after_run (N i n : nat) (rest : text_t) :
  substr (repeat "@"%char N ++ rest) (N + i) n = substr rest i n.
Proof.
  unfold substr. rewrite skipn_app, repeat_length.
  rewrite skipn_all2 by (rewrite repeat_length; lia).
  cbn [app]. do 2 f_equal. lia.
Qed.

(** After a run of [@], the candidate "a@b.co" at the end of the buffer is
    found by the loop of [contains]. *)
Lemma containsLoop_after_run (N k : nat) :
  1 <= N ->
  containsLoop (repeat "@"%char N ++ lit "a@b.co") (S k) N 0 0 0 = Some true.
Proof.
  intros HN. remember (repeat "@"%char N ++ lit "a@b.co") as text eqn:Htext.
  assert (Hlen : length text = N + 6).
  { rewrite Htext, length_app, repeat_length. reflexivity. }
  assert (Hat : forall i, at_ text (N + i) = at_ (lit "a@b.co") i)
    by (intros i; rewrite Htext; apply at_after_run).
  assert (Hsub : forall i n, substr text (N + i) n = substr (lit "a@b.co") i n)
    by (intros i n; rewrite Htext; apply substr_after_run).
  assert (Hrun : forall j, j < N -> at_ text j = "@"%char)
    by (intros j Hj; rewrite Htext; apply at_in_run; exact Hj).
  clear Htext.
  rewrite containsLoop_S. cbv zeta. rewrite Hlen.
  destruct (Nat.ltb_spec N (N + 6)) as [_|]; [|lia].
  rewrite (memchrAt_first text _ N (N + 1)).
  2: lia.
  2: { rewrite Hat. reflexivity. }
  2: { intros j Hj. replace j with (N + 0) by lia. rewrite Hat. reflexivity. }
  destruct (Nat.ltb_spec (N + 1) 1) as [|_]; [lia|].
  destruct (Nat.leb_spec (N + 6 - 3) (N + 1)) as [|_]; [lia|]. cbn [orb].
  change (N + 1 <? 0) with false. cbv iota.
  rewrite (findEmailBoundaries_clean text (N + 1) 0 N).
  - cbn [start end_ validBoundaries negb]. rewrite Hlen.
    destruct (Nat.ltb_spec MAX_TOTAL_CHARS_SCANNED (0 + (N + 1 - N + (N + 6 - (N + 1)))))
      as [Hbig|_]; [unfold MAX_TOTAL_CHARS_SCANNED in Hbig; lia|].
    assert (Hloc : LocalPartValidator.validate text N (N + 1) LocalPartValidator.SCAN = true).
    { apply validate_scan_spec. split; [lia|].
      replace (N + 1 - N) with 1 by lia. rewrite <- (Nat.add_0_r N) at 1.
      rewrite Hsub. reflexivity. }
    assert (Hdom : DomainPartValidator.validate text (N + 1 + 1) (N + 6) = true).
    { replace (N + 1 + 1) with (N + 2) by lia. apply validate_domain_spec.
      - rewrite Hat. discriminate.
      - split; [lia|]. replace (N + 6 - (N + 2)) with 4 by lia.
        rewrite Hsub. reflexivity. }
    rewrite Hloc, Hdom. reflexivity.
  - lia.
  - lia.
  - unfold effectiveMinOf, MAX_LEFT_SCAN. destruct (4096 <? N + 1); lia.
  - right. split; [lia|]. split.
    + rewrite Hrun by lia. reflexivity.
    + rewrite <- (Nat.add_0_r N). rewrite Hat. reflexivity.
  - intros j Hj. replace j with (N + 0) by lia. rewrite Hat. reflexivity.
  - intros j Hj1 Hj2. lia.
  - rewrite <- (Nat.add_0_r N). rewrite Hat. reflexivity.
  - intros j Hj. rewrite Hlen in Hj.
    assert (Hc : j = N + 2 \/ j = N + 3 \/ j = N + 4 \/ j = N + 5) by lia.
    destruct Hc as [-> | [-> | [-> | ->]]]; rewrite Hat; reflexivity.
  - rewrite Hlen. replace (N + 6 - 1) with (N + 5) by lia. rewrite Hat. reflexivity.
Qed.

Lemma contains_after_at_run (N : nat) :
  1 <= N -> N + 6 <= MAX_INPUT_SIZE ->
  contains (View (repeat "@"%char N ++ lit "a@b.co")) = true.
Proof.
  intros HN Hmax.
  remember (repeat "@"%char N ++ lit "a@b.co") as text eqn:Htext.
  assert (Hlen : length text = N + 6).
  { rewrite Htext, length_app, repeat_length. reflexivity. }
  unfold contains, contains_fuel. cbn [sv_length sv_is_null sv_bytes andb].
  rewrite Hlen.
  destruct (Nat.ltb_spec MAX_INPUT_SIZE (N + 6)) as [|_]; [lia|].
  destruct (Nat.ltb_spec (N + 6) 5) as [|_]; [lia|]. cbn [orb].
  replace (S (N + 6)) with (N + 7) by lia.
  assert (E : containsLoop text (N + 7) 0 0 0 0 = Some true).
  { etransitivity.
    - apply containsLoop_at_run.
      + intros j Hj. rewrite Htext. apply at_in_run. lia.
      + lia.
    - cbn [Nat.add]. rewrite Htext. apply containsLoop_after_run. exact HN. }
  rewrite E. reflexivity.
Qed.

Lemma extract_after_at_run (N : nat) :
  emails (extractLoop (repeat "@"%char N ++ lit "a@b.co") N initState) = [].
Proof.
  apply extractLoop_at_run; try reflexivity.
  - cbn [pos initState Nat.add]. intros j Hj. apply at_in_run. exact Hj.
  - cbn [pos initState Nat.add]. rewrite length_app, repeat_length.
    change (length (lit "a@b.co")) with 6. lia.
Qed.

(** C1 as stated fails: 100,000 [@] bytes followed by "a@b.co" stay within
    the size limits; [contains] finds the address, while [extract] spends
    its 100,000 rounds on the run of [@] and returns nothing. *)
Lemma contains_without_extract :
  5 <= sv_length (View long_at_run) <= MAX_INPUT_SIZE
  /\ contains (View long_at_run) = true
  /\ extract (View long_at_run) = []
  /\ ~ (contains (View long_at_run) = true <-> extract (View long_at_run) <> []).
Proof.
  assert (Hlen : length long_at_run = MAX_SCAN_ITERATIONS + 6).
  { unfold long_at_run. rewrite length_app, repeat_length. reflexivity. }
  assert (Hsize : 5 <= length long_at_run <= MAX_INPUT_SIZE).
  { rewrite Hlen. unfold MAX_SCAN_ITERATIONS, MAX_INPUT_SIZE. lia. }
  assert (Hc : contains (View long_at_run) = true).
  { unfold long_at_run. apply contains_after_at_run.
    - unfold MAX_SCAN_ITERATIONS. lia.
    - unfold MAX_SCAN_ITERATIONS, MAX_INPUT_SIZE. lia. }
  assert (He : extract (View long_at_run) = []).
  { unfold extract, extract_state_of. cbn [sv_length sv_is_null sv_bytes andb].
    destruct (Nat.ltb_spec MAX_INPUT_SIZE (length long_at_run)) as [|_]; [lia|].
    destruct (Nat.ltb_spec (length long_at_run) 5) as [|_]; [lia|]. cbn [orb].
    unfold long_at_run. apply extract_after_at_run. }
  split; [exact Hsize|]. split; [exact Hc|]. split; [exact He|].
  intros [H _]. apply H in Hc. apply Hc. exact He.
Qed.

(* ------------------------------------------------------------------------- *)
(** ** Scanning a match again *)

Lemma no_consecutive_dots_at (l : text_t) :
  Spec.no_consecutive_dots l = true ->
  forall j, j + 1 < length l -> (at_ l j =c? ".") && (at_ l (j + 1) =c? ".") = false.
Proof.
  induction l as [|c l IH]; intros H j Hj; [simpl in Hj; lia|].
  rewrite no_consecutive_dots_cons in H. apply andb_true_iff in H.
  destruct H as [H1 H2]. destruct j as [|j].
  - destruct l as [|c2 l]; [simpl in Hj; lia|].
    cbn [Spec.first_byte hd length] in H1. rewrite andb_true_r in H1.
    apply negb_true_iff in H1. exact H1.
  - change (at_ (c :: l) (S j)) with (at_ l j).
    change (at_ (c :: l) (S j + 1)) with (at_ l (j + 1)).
    apply IH; [exact H2|]. simpl in Hj. lia.
Qed.

Lemma last_byte_at (l : text_t) : Spec.last_byte l = at_ l (length l - 1).
Proof.
  unfold Spec.last_byte, at_. induction l as [|c l IH]; [reflexivity|].
  destruct l as [|c2 l]; [reflexivity|].
  change (last (c :: c2 :: l) zero) with (last (c2 :: l) zero). rewrite IH.
  simpl. rewrite Nat.sub_0_r. reflexivity.
Qed.

Lemma scan_iterations_two : exists k, MAX_SCAN_ITERATIONS = S (S k).
Proof. exists (MAX_SCAN_ITERATIONS - 2). unfold MAX_SCAN_ITERATIONS. lia. Qed.

Section Candidate.

Variables l d : text_t.
Hypothesis Hl : Spec.scan_local_ok l = true.
Hypothesis Hd : Spec.domain_labels_ok d = true.

Let m : text_t := l ++ "@"%char :: d.

Lemma candidate_length : length m = length l + S (length d).
Proof. unfold m. rewrite length_app. reflexivity. Qed.

Lemma candidate_at_local (j : nat) : j < length l -> at_ m j = at_ l j.
Proof. intros H. unfold m. apply at_app_l. exact H. Qed.

Lemma candidate_at_anchor : at_ m (length l) = "@"%char.
Proof. unfold m. rewrite at_app_r by lia. rewrite Nat.sub_diag. reflexivity. Qed.

Lemma candidate_at_domain (k : nat) : at_ m (length l + 1 + k) = at_ d k.
Proof.
  unfold m. rewrite at_app_r by lia.
  replace (length l + 1 + k - length l) with (S k) by lia. reflexivity.
Qed.

Lemma candidate_memchr (n : nat) :
  length l < n -> memchrAt m n 0 = Some (length l).
Proof.
  intros Hn. apply memchrAt_first; [lia| |].
  - rewrite candidate_at_anchor. reflexivity.
  - intros j Hj. rewrite candidate_at_local by lia.
    apply atext_not_at. apply forallb_at; [apply scan_local_chars, Hl|lia].
Qed.

Lemma candidate_no_at_in_domain (n : nat) :
  memchrAt m n (length l + 1) = None.
Proof.
  destruct (memchrAt m n (length l + 1)) as [a|] eqn:H; [|reflexivity].
  apply memchrAt_Some in H. destruct H as (Hr & Hat & _).
  replace a with (length l + 1 + (a - (length l + 1))) in Hat by lia.
  rewrite candidate_at_domain in Hat.
  destruct (Nat.lt_ge_cases (a - (length l + 1)) (length d)) as [Hin|Hout].
  - pose proof (forallb_at _ _ _ (domain_labels_chars _ Hd) Hin) as Hc.
    apply domain_not_at in Hc. rewrite Hat in Hc. discriminate.
  - rewrite at_out_of_range in Hat by exact Hout. discriminate.
Qed.

Lemma candidate_boundaries :
  findEmailBoundaries m (length l) 0 = mkBoundaries 0 (length m) true 0.
Proof.
  pose proof (scan_local_nonempty l Hl) as Hln.
  pose proof (domain_labels_nonempty d Hd) as Hdn.
  pose proof candidate_length as Hlen.
  assert (H0 : at_ m 0 = Spec.first_byte l).
  { rewrite candidate_at_local by lia. destruct l; [simpl in Hln; lia|reflexivity]. }
  unfold Spec.scan_local_ok in Hl. unfold Spec.domain_labels_ok in Hd.
  repeat match goal with
         | H : _ && _ = true |- _ => apply andb_true_iff in H; destruct H
         end.
  apply findEmailBoundaries_clean; try lia.
  - unfold effectiveMinOf, MAX_LEFT_SCAN.
    destruct (Nat.ltb_spec 4096 (length l)); lia.
  - left. unfold effectiveMinOf, MAX_LEFT_SCAN.
    destruct (Nat.ltb_spec 4096 (length l)); lia.
  - intros j Hj. rewrite candidate_at_local by lia.
    apply forallb_at; [|lia].
    eapply forallb_impl; [|eassumption]. intros c Hc.
    apply orb_true_iff in Hc. destruct Hc as [Hc|Hc]; [exact Hc|apply dot_is_atext, Hc].
  - intros j _ Hj. rewrite !candidate_at_local by lia.
    apply no_consecutive_dots_at; [assumption|lia].
  - rewrite H0. apply negb_true_iff. assumption.
  - intros j Hj. replace j with (length l + 1 + (j - (length l + 1))) by lia.
    rewrite candidate_at_domain.
    apply forallb_at; [|lia]. apply label_pieces_chars.
    eapply forallb_impl; [|eassumption]. intros x Hx.
    unfold Spec.label_ok in Hx. apply andb_true_iff in Hx. tauto.
  - replace (length m - 1) with (length l + 1 + (length d - 1)) by lia.
    rewrite candidate_at_domain, <- last_byte_at. apply negb_true_iff. assumption.
Qed.

End Candidate.

Lemma max_total_large (n : nat) : n <= 1000 -> (MAX_TOTAL_CHARS_SCANNED <? n) = false.
Proof. intros H. apply Nat.ltb_ge. unfold MAX_TOTAL_CHARS_SCANNED. lia. Qed.

(** A candidate whose domain has at least three bytes, scanned alone, is
    extracted as a whole. *)
Lemma extract_candidate (l d : text_t) :
  Spec.scan_local_ok l = true -> Spec.domain_labels_ok d = true ->
  3 <= length d ->
  extract (View (l ++ "@"%char :: d)) = [l ++ "@"%char :: d].
Proof.
  intros Hl Hd Hd3.
  pose proof (scan_local_nonempty l Hl) as Hln.
  pose proof (domain_labels_nonempty d Hd) as Hdn.
  pose proof (candidate_length l d) as Hlen.
  pose proof (candidate_self_valid l d Hl Hd) as [Hloc Hdom]. cbv zeta in Hloc, Hdom.
  pose proof (candidate_boundaries l d Hl Hd) as Hb.
  pose proof (candidate_memchr l d Hl) as Hmem.
  remember (l ++ "@"%char :: d) as m eqn:Hm.
  unfold extract, extract_state_of. cbn [sv_length sv_is_null sv_bytes andb].
  destruct (Nat.ltb_spec MAX_INPUT_SIZE (length m)) as [Hbig|_];
    [unfold MAX_INPUT_SIZE in Hbig; lia|].
  destruct (Nat.ltb_spec (length m) 5) as [|_]; [lia|]. cbn [orb].
  destruct scan_iterations_two as [k ->].
  rewrite extractLoop_S. cbv zeta. cbn [pos initState extractedCount minScannedIndex
    lastConsumedEnd totalCharsScanned seen emails spans].
  destruct (Nat.ltb_spec 0 (length m)) as [_|]; [|lia].
  rewrite max_emails_positive, Nat.sub_0_r, Hmem by lia.
  destruct (Nat.ltb_spec (length l) 1) as [|_]; [lia|].
  destruct (Nat.leb_spec (length m - 3) (length l)) as [|_]; [lia|]. cbn [orb].
  change (length l <? 0) with false. cbv iota.
  rewrite Hb. cbn [start end_ validBoundaries skipTo negb].
  rewrite max_total_large by lia.
  rewrite !Nat.sub_0_r, Hloc, Hdom. cbn [andb].
  destruct (Nat.leb_spec (length m) 0) as [|_]; [lia|].
  rewrite Nat.ltb_irrefl. cbn [orb existsb negb app].
  rewrite substr_full.
  rewrite extractLoop_S. cbv zeta. cbn [pos]. rewrite Nat.ltb_irrefl.
  reflexivity.
Qed.

(** With a domain of fewer than three bytes the anchor is skipped (or the
    whole string is shorter than five bytes): nothing is extracted. *)
Lemma extract_short_candidate (l d : text_t) :
  Spec.scan_local_ok l = true -> Spec.domain_labels_ok d = true ->
  length d < 3 ->
  extract (View (l ++ "@"%char :: d)) = [].
Proof.
  intros Hl Hd Hd3.
  pose proof (scan_local_nonempty l Hl) as Hln.
  pose proof (candidate_length l d) as Hlen.
  pose proof (candidate_memchr l d Hl) as Hmem.
  pose proof (candidate_no_at_in_domain l d Hd) as Hnone.
  remember (l ++ "@"%char :: d) as m eqn:Hm.
  unfold extract, extract_state_of. cbn [sv_length sv_is_null sv_bytes andb].
  destruct ((MAX_INPUT_SIZE <? length m) || (length m <? 5)); [reflexivity|].
  destruct scan_iterations_two as [k ->].
  rewrite extractLoop_S. cbv zeta. cbn [pos initState extractedCount minScannedIndex
    lastConsumedEnd totalCharsScanned seen emails spans].
  destruct (Nat.ltb_spec 0 (length m)) as [_|]; [|reflexivity].
  rewrite max_emails_positive, Nat.sub_0_r, Hmem by lia.
  destruct (Nat.ltb_spec (length l) 1) as [|_]; [lia|].
  destruct (Nat.leb_spec (length m - 3) (length l)) as [_|]; [|lia]. cbn [orb].
  rewrite extractLoop_S. cbv zeta. cbn [pos extractedCount emails].
  destruct (length l + 1 <? length m); [|reflexivity].
  rewrite max_emails_positive, Hnone. reflexivity.
Qed.

(** C2 as stated fails: "ab@cd" is extracted from "xx ab@cd yy", but scanned
    alone its anchor is too close to the end of the buffer. *)
Lemma extract_not_idempotent :
  In (lit "ab@cd") (extract (View (lit "xx ab@cd yy")))
  /\ extract (View (lit "ab@cd")) = []
  /\ ~ (forall (v : string_view) (m : text_t),
          In m (extract v) -> extract (View m) = [m]).
Proof.
  assert (H1 : In (lit "ab@cd") (extract (View (lit "xx ab@cd yy"))))
    by (vm_compute; left; reflexivity).
  assert (H2 : extract (View (lit "ab@cd")) = []) by (vm_compute; reflexivity).
  split; [exact H1|]. split; [exact H2|].
  intros H. specialize (H _ _ H1). rewrite H2 in H. discriminate.
Qed.

(** C2 (amended). A string returned by [extract] is a scan-mode local part,
    an [@] and a dot-labelled domain.  When the domain has at least three
    bytes, extracting from the string alone returns exactly that string;
    when it has fewer, extracting from the string alone returns nothing
    (the scanner skips an [@] with fewer than three bytes after it, and
    rejects inputs shorter than five bytes). *)
Theorem extract_idempotent_on_long_domains (v : string_view) (m : text_t) :
  In m (extract v) ->
  exists l d : text_t,
    m = l ++ "@"%char :: d
    /\ Spec.scan_local_ok l = true /\ Spec.domain_labels_ok d = true
    /\ (3 <= length d -> extract (View m) = [m])
    /\ (length d < 3 -> extract (View m) = []).
Proof.
  intros Hin. apply extract_match_span in Hin.
  destruct Hin as (sp & _ & Hm & Hgood).
  pose proof (good_span_shape _ _ Hgood) as (Hshape & Hl & Hd).
  rewrite <- Hm in Hshape.
  eexists _, _. split; [exact Hshape|]. split; [exact Hl|]. split; [exact Hd|].
  rewrite Hshape. split; intros H.
  - apply extract_candidate; assumption.
  - apply extract_short_candidate; assumption.
Qed.

Lemma extract_idempotent_on_long_domains_witness :
  exists l d : text_t,
    lit "bob@example.org" = l ++ "@"%char :: d
    /\ Spec.scan_local_ok l = true /\ Spec.domain_labels_ok d = true
    /\ (3 <= length d -> extract (View (lit "bob@example.org")) = [lit "bob@example.org"])
    /\ (length d < 3 -> extract (View (lit "bob@example.org")) = []).
Proof.
  apply (extract_idempotent_on_long_domains (View (lit "mail bob@example.org now"))
           (lit "bob@example.org")).
  vm_compute. left. reflexivity.
Defined.

(* ------------------------------------------------------------------------- *)
(** ** IPv6 literals *)

Lemma hexRun_Some (text : text_t) (e : nat) :
  forall n pos h pos' h',
    h <= 4 ->
    hexRun text e n pos h = Some (pos', h') ->
    h <= h' <= 4 /\ pos' = pos + (h' - h)
    /\ (h < h' -> pos' <= e /\ pos' <= length text)
    /\ forallb isHexDigit (substr text pos (h' - h)) = true
    /\ (pos' <? e) && (pos' <? length text) && isHexDigit (at_ text pos') = false.
Proof.
  induction n as [|n IH]; intros pos h pos' h' Hh H; simpl in H; [discriminate|].
  destruct ((pos <? e) && (pos <? length text) && isHexDigit (at_ text pos)) eqn:Hc.
  - destruct h as [|[|[|[|h]]]]; simpl in H; try discriminate;
      apply andb_true_iff in Hc; destruct Hc as [Hc Hx];
      apply andb_true_iff in Hc; destruct Hc as [Hc1 Hc2];
      apply Nat.ltb_lt in Hc1, Hc2;
      apply IH in H; try lia;
      destruct H as (H1 & H2 & H3 & H4 & H5);
      (split; [lia|]); (split; [lia|]); (split; [intros _; split; lia|]);
      (split; [|rewrite H5; reflexivity]).
    all: match goal with
         | |- forallb _ (substr _ _ ?k) = true =>
             replace k with (S (k - 1)) by lia
         end;
      rewrite substr_cons by lia; cbn [forallb]; rewrite Hx; cbn [andb];
      match goal with
      | H : forallb _ (substr _ _ ?a) = true |- forallb _ (substr _ _ ?b) = true =>
          replace b with a by lia; exact H
      end.
  - injection H as <- <-. rewrite Nat.sub_diag, Nat.add_0_r.
    split; [lia|]. split; [reflexivity|]. split; [lia|]. split; [reflexivity|exact Hc].
Qed.

Lemma ipv6Loop_S (text : text_t) (end_ n pos segmentCount : nat)
  (hasCompression : bool) (iterations : nat) :
  ipv6Loop text end_ (S n) pos segmentCount hasCompression iterations =
      if pos <? end_ then
        if iterations <? MAX_IPV6_ITERATIONS then
          let iterations := S iterations in
          let segStart := pos in
          match hexRun text end_ 5 pos 0 with
          | None => false
          | Some (pos, hexDigits) =>
              let after_colon segmentCount :=
                if end_ <=? pos then ipv6Finish segmentCount hasCompression iterations
                else if at_ text pos =c? ":" then
                  let pos := S pos in
                  if (pos <? end_) && (pos <? length text) && (at_ text pos =c? ":") then
                    if hasCompression then false
                    else
                      let pos := S pos in
                      if end_ <=? pos then ipv6Finish segmentCount true iterations
                      else ipv6Loop text end_ n pos segmentCount true iterations
                  else if hexDigits =? 0 then false
                  else if end_ <=? pos then false
                  else ipv6Loop text end_ n pos segmentCount hasCompression iterations
                else false in
              if 0 <? hexDigits then
                let segmentCount := S segmentCount in
                if 8 <? segmentCount then false
                else if (pos <? end_) && (pos <? length text) && (at_ text pos =c? ".") then
                  if validateIPv4 text segStart end_ then
                    ipv6Finish (segmentCount - 1 + 2) hasCompression iterations
                  else false
                else after_colon segmentCount
              else after_colon segmentCount
          end
        else ipv6Finish segmentCount hasCompression (S iterations)
      else ipv6Finish segmentCount hasCompression iterations.
Proof. reflexivity. Qed.

Lemma ipv6Finish_slots (n : nat) (c : bool) (it : nat) :
  ipv6Finish n c it = true -> IPv6Grammar.slots_ok c n /\ it < MAX_IPV6_ITERATIONS.
Proof.
  unfold ipv6Finish, IPv6Grammar.slots_ok.
  destruct (Nat.leb_spec MAX_IPV6_ITERATIONS it) as [|Hit]; [discriminate|].
  destruct c; intros H.
  - apply Nat.leb_le in H. split; assumption.
  - apply Nat.eqb_eq in H. split; assumption.
Qed.

Lemma hextet_substr (text : text_t) (pos h : nat) :
  0 < h -> h <= 4 -> pos + h <= length text ->
  forallb isHexDigit (substr text pos h) = true ->
  IPv6Grammar.hextet_ok (substr text pos h) = true.
Proof.
  intros H0 H4 Hl Hf. unfold IPv6Grammar.hextet_ok.
  rewrite substr_length by lia. rewrite Hf.
  destruct (Nat.leb_spec 1 h); [|lia]. destruct (Nat.leb_spec h 4); [|lia]. reflexivity.
Qed.

Lemma substr_group_then (text : text_t) (pos h e : nat) :
  pos + h < e -> e <= length text ->
  substr text pos (e - pos)
  = substr text pos h ++ at_ text (pos + h) :: substr text (S (pos + h)) (e - S (pos + h)).
Proof.
  intros H He. replace (e - pos) with (h + S (e - S (pos + h))) by lia.
  rewrite substr_split, substr_cons by lia. reflexivity.
Qed.

(** Every accepting run of the main loop spells out a tail of the grammar.
    The loop is entered either after a "::" or at a byte that is not a
    colon. *)
Lemma ipv6Loop_sound (text : text_t) (e : nat) :
  e <= length text ->
  forall n pos seg comp it,
    pos < e ->
    (comp = false -> (at_ text pos =c? ":") = false) ->
    ipv6Loop text e n pos seg comp it = true ->
    IPv6Grammar.tail comp seg (substr text pos (e - pos)).
Proof.
  intros He. induction n as [|n IH]; intros pos seg comp it Hpos Hstart H;
    [discriminate|].
  rewrite ipv6Loop_S in H. cbv zeta in H.
  destruct (Nat.ltb_spec pos e) as [_|]; [|lia].
  destruct (it <? MAX_IPV6_ITERATIONS) eqn:Hit.
  2: { apply ipv6Finish_slots in H. apply Nat.ltb_ge in Hit. lia. }
  destruct (hexRun text e 5 pos 0) as [[pos' h]|] eqn:Hrun; [|discriminate].
  apply hexRun_Some in Hrun; [|lia].
  destruct Hrun as (Hh & Hp' & Hin & Hhex & Hstop).
  rewrite Nat.sub_0_r in Hp', Hhex. subst pos'.
  (* what follows a group that is not the last one *)
  assert (Hafter : forall seg',
             0 < h -> seg' = S seg -> seg' <= 8 ->
             (if e <=? pos + h then ipv6Finish seg' comp (S it)
              else if at_ text (pos + h) =c? ":" then
                if (S (pos + h) <? e) && (S (pos + h) <? length text)
                   && (at_ text (S (pos + h)) =c? ":")
                then if comp then false
                     else if e <=? S (S (pos + h)) then ipv6Finish seg' true (S it)
                          else ipv6Loop text e n (S (S (pos + h))) seg' true (S it)
                else if h =? 0 then false
                     else if e <=? S (pos + h) then false
                          else ipv6Loop text e n (S (pos + h)) seg' comp (S it)
              else false) = true ->
             IPv6Grammar.tail comp seg (substr text pos (e - pos))).
  { intros seg' Hh0 -> Hseg Ha.
    specialize (Hin Hh0). 
    assert (Hg : IPv6Grammar.hextet_ok (substr text pos h) = true)
      by (apply hextet_substr; lia || assumption).
    destruct (Nat.leb_spec e (pos + h)) as [Hend|Hmore].
    - replace (e - pos) with h by lia.
      apply IPv6Grammar.tail_last_hextet; [exact Hg|].
      apply ipv6Finish_slots in Ha. tauto.
    - destruct (at_ text (pos + h) =c? ":") eqn:Hcol; [|discriminate].
      apply beq_eq in Hcol.
      rewrite (substr_group_then text pos h e) by lia. rewrite Hcol.
      destruct ((S (pos + h) <? e) && (S (pos + h) <? length text)
                && (at_ text (S (pos + h)) =c? ":")) eqn:Hcc.
      + destruct comp; [discriminate|].
        apply andb_true_iff in Hcc. destruct Hcc as [Hcc Hc2].
        apply andb_true_iff in Hcc. destruct Hcc as [Hc1 _].
        apply Nat.ltb_lt in Hc1. apply beq_eq in Hc2.
        replace (e - S (pos + h)) with (S (e - S (S (pos + h)))) by lia.
        rewrite substr_cons by lia. rewrite Hc2.
        destruct (Nat.leb_spec e (S (S (pos + h)))) as [Hend2|Hmore2].
        * replace (e - S (S (pos + h))) with 0 by lia. rewrite substr_nil.
          apply IPv6Grammar.tail_compress_end; [exact Hg|].
          apply ipv6Finish_slots in Ha. tauto.
        * apply IPv6Grammar.tail_compress; [exact Hg|lia|].
          apply (IH _ _ _ (S it)); [exact Hmore2|discriminate|exact Ha].
      + destruct (Nat.eqb_spec h 0) as [|_]; [discriminate|].
        destruct (Nat.leb_spec e (S (pos + h))) as [|Hmore2]; [discriminate|].
        apply IPv6Grammar.tail_colon; [exact Hg|lia|].
        apply (IH _ _ _ (S it)); [exact Hmore2| |exact Ha].
        intros _. destruct (Nat.ltb_spec (S (pos + h)) e) as [_|]; [|lia].
        destruct (Nat.ltb_spec (S (pos + h)) (length text)) as [_|]; [|lia].
        exact Hcc. }
  revert H.
  destruct (Nat.ltb_spec 0 h) as [Hh0|Hh0].
  - destruct (Nat.ltb_spec 8 (S seg)) as [|Hseg]; [intros Hx; cbv iota in Hx; discriminate Hx|].
    destruct ((pos + h <? e) && (pos + h <? length text) && (at_ text (pos + h) =c? "."))
      eqn:Hdot.
    + destruct (validateIPv4 text pos e) eqn:Hv4; [|intros Hx; cbv iota in Hx; discriminate Hx].
      intros H.
      rewrite validateIPv4_spec in Hv4 by exact He.
      apply ipv6Finish_slots in H. destruct H as [Hs _].
      apply IPv6Grammar.tail_last_ipv4; [exact Hv4|lia|].
      replace (seg + 2) with (S seg - 1 + 2) by lia. exact Hs.
    + intros H. apply (Hafter (S seg)); [lia|reflexivity|lia|exact H].
  - (* no hexadecimal digit at [pos]: only "::" could follow, and the loop is
       not entered there *)
    assert (h = 0) by lia. subst h. rewrite Nat.add_0_r in *.
    destruct (Nat.leb_spec e pos) as [|_]; [lia|].
    destruct (at_ text pos =c? ":") eqn:Hcol; [|intros Hx; cbv iota in Hx; discriminate Hx].
    destruct comp; [|discriminate (Hstart eq_refl)].
    destruct (_ && _); intros Hx; cbv iota in Hx; discriminate Hx.
Qed.



(** On a range that is not followed by a colon (at its only call site the
    byte after the range is the closing bracket), [validateIPv6] accepts
    only addresses of the grammar: hextets of 1 to 4 hexadecimal digits, at
    most one "::", exactly 8 slots without compression and at most 7 with
    it, a trailing dotted quad counting for two slots. *)
Lemma validateIPv6_sound (text : text_t) (s e : nat) :
  e <= length text ->
  (at_ text e =c? ":") = false ->
  validateIPv6 text s e = true ->
  IPv6Grammar.address (substr text s (e - s)).
Proof.
  intros He Hnext. unfold validateIPv6.
  destruct (Nat.leb_spec e s) as [|Hse]; [intros Hx; discriminate Hx|].
  destruct (Nat.ltb_spec (length text) e) as [|_]; [lia|]. cbn [orb]. cbv zeta.
  destruct ((s + 1 <=? e) && (s + 1 <=? length text)
            && (at_ text s =c? ":") && (at_ text (s + 1) =c? ":")) eqn:Hlead.
  - apply andb_true_iff in Hlead. destruct Hlead as [Hlead Hc2].
    apply andb_true_iff in Hlead. destruct Hlead as [_ Hc1].
    apply beq_eq in Hc1.
    assert (Hs2 : s + 2 <= e).
    { destruct (Nat.eq_dec (s + 1) e) as [Heq|]; [|lia].
      rewrite Heq, Hnext in Hc2. discriminate. }
    apply beq_eq in Hc2.
    assert (Hd : substr text s (e - s)
                 = ":"%char :: ":"%char :: substr text (s + 2) (e - (s + 2))).
    { replace (e - s) with (S (S (e - (s + 2)))) by lia.
      rewrite !substr_cons by lia. rewrite Hc1.
      replace (S s) with (s + 1) by lia. rewrite Hc2.
      replace (S (s + 1)) with (s + 2) by lia. reflexivity. }
    rewrite Hd.
    destruct (Nat.leb_spec e (s + 2)) as [|Hmore].
    + intros _. left. replace (e - (s + 2)) with 0 by lia. reflexivity.
    + intros H. right. left. eexists. split; [reflexivity|].
      apply (ipv6Loop_sound text e He _ _ _ _ _ Hmore) in H; [exact H|discriminate].
  - destruct (Nat.ltb_spec s (length text)) as [_|]; [|lia]. cbn [andb].
    destruct (at_ text s =c? ":") eqn:Hc; [intros Hx; discriminate Hx|].
    intros H. right. right.
    apply (ipv6Loop_sound text e He _ _ _ _ _ Hse) in H; [exact H|].
    intros _. exact Hc.
Qed.

Lemma tail_not_lone_colon (c : bool) (n : nat) (d : text_t) :
  IPv6Grammar.tail c n d -> d <> [":"%char].
Proof.
  intros H Hd. destruct H as [c n g Hg _|c n g Hg _ _|c n g rest Hg _ _
                             |n g Hg _|n g rest Hg _ _].
  - subst g. discriminate Hg.
  - subst g. discriminate Hg.
  - destruct g as [|x [|y g]]; try discriminate Hd. discriminate Hg.
  - destruct g as [|x [|y g]]; discriminate Hd.
  - destruct g as [|x [|y g]]; discriminate Hd.
Qed.

Lemma lone_colon_not_address : ~ IPv6Grammar.address [":"%char].
Proof.
  intros [H|[(rest & H & _)|H]]; try discriminate.
  exact (tail_not_lone_colon _ _ _ H eq_refl).
Qed.


(** The only call of [validateIPv6] is made by [validateIPLiteral], on a
    range that ends at the closing bracket: without a bracket as last byte
    the literal is rejected before any address is looked at. *)
Lemma validateIPLiteral_needs_bracket (text : text_t) (s e : nat) :
  (at_ text (e - 1) =c? "]") = false -> validateIPLiteral text s e = false.
Proof.
  intros H. unfold validateIPLiteral. cbv zeta.
  destruct ((e <=? s) || (length text <? e)); [reflexivity|].
  rewrite H. cbn [negb]. rewrite orb_true_r. reflexivity.
Qed.



(** The hypothesis on the byte after the range cannot be dropped for the
    function taken alone: its test for a leading "::" compares [pos + 1]
    with [end] by [<=], so on a one-byte range it looks at the byte after
    the range.  With a colon there, the lone colon of the range is accepted;
    with any other byte it is rejected.  No caller passes such a range. *)
Remark validateIPv6_lone_colon :
  validateIPv6 (lit "::") 0 1 = true
  /\ substr (lit "::") 0 (1 - 0) = [":"%char]
  /\ ~ IPv6Grammar.address (substr (lit "::") 0 (1 - 0))
  /\ validateIPv6 (lit ":x") 0 1 = false.
Proof.
  split; [reflexivity|]. split; [reflexivity|]. split; [|reflexivity].
  exact lone_colon_not_address.
Qed.

(* ------------------------------------------------------------------------- *)
(** ** The classification table *)

(** X1. Letters, digits and hexadecimal digits of the table are the usual ASCII
    ranges, and [isAlphaNum] is their union. *)
Theorem table_letters_digits_by_range (c : byte) :
  isAlpha c = ByteSet.upper c || ByteSet.lower c
  /\ isDigit c = ByteSet.digit c
  /\ isAlphaNum c = isAlpha c || isDigit c
  /\ isHexDigit c = ByteSet.hex c.
Proof. by_table c. Qed.

(** X2. The other classes as explicit sets.  A byte is legal in a dot-atom
    exactly when it is a letter, a digit or one of the listed punctuation
    marks (the dot among them); it is flagged [CHAR_INVALID_LOCAL] exactly
    when it is not; the scan boundaries are all flagged invalid; bytes above
    127 belong to no class but the invalid one. *)
Theorem table_classes_as_sets (c : byte) :
  isAtext c = isAlphaNum c || ByteSet.one_of ByteSet.atext_specials c
  /\ isDomainChar c = isAlphaNum c || ByteSet.one_of (lit "-.") c
  /\ isQuoteChar c = ByteSet.one_of ByteSet.quote_chars c
  /\ isScanBoundary c = ByteSet.one_of ByteSet.scan_boundaries c
  /\ isInvalidLocalChar c = negb (isAtext c)
  /\ isScanBoundary c && negb (isInvalidLocalChar c) = false
  /\ (128 <=? nat_of_ascii c)
     && (isAtext c || isDomainChar c || isQuoteChar c || isScanBoundary c
         || isHexDigit c || isQtextOrQpair c) = false.
Proof. by_table c. Qed.

(* ------------------------------------------------------------------------- *)
(** ** Local parts *)

Lemma dotAtomLoop_scanModeLoop (text : text_t) (n i : nat) (p : bool) :
  i + n <= length text ->
  scanModeLoop text i n p = dotAtomLoop text i n p.
Proof.
  revert i p. induction n as [|n IH]; intros i p H; [reflexivity|].
  cbn [scanModeLoop dotAtomLoop].
  destruct (Nat.leb_spec (length text) i) as [|_]; [lia|].
  cbv zeta. rewrite !IH by lia. reflexivity.
Qed.

Lemma dquote_not_atext (c : byte) :
  (c =c? DQUOTE) = true -> (c =c? ".") = false /\ isAtext c = false.
Proof. by_table c. Qed.

Lemma validateScanMode_validateDotAtom (text : text_t) (s e : nat) :
  validateScanMode text s e = validateDotAtom text s e.
Proof.
  unfold validateScanMode, validateDotAtom. cbv zeta.
  destruct ((e <=? s) || (length text <? e) || (MAX_LOCAL_PART <? e - s)) eqn:Hg;
    [reflexivity|].
  apply orb_false_iff in Hg. destruct Hg as [Hg _].
  apply orb_false_iff in Hg. destruct Hg as [H1 H2].
  apply Nat.leb_gt in H1. apply Nat.ltb_ge in H2.
  rewrite dotAtomLoop_scanModeLoop by lia.
  destruct (at_ text s =c? DQUOTE) eqn:Hq; [|reflexivity].
  cbn [orb]. destruct (dquote_not_atext _ Hq) as [Hd Ha].
  rewrite Hd. cbn [orb].
  destruct (at_ text (e - 1) =c? "."); [reflexivity|].
  destruct (e - s) as [|n] eqn:Hn; [lia|].
  cbn [dotAtomLoop]. cbv zeta. rewrite Hd, Ha. reflexivity.
Qed.

Lemma validate_scan_dot_atom (text : text_t) (s e : nat) :
  LocalPartValidator.validate text s e SCAN = validateDotAtom text s e.
Proof.
  unfold LocalPartValidator.validate. rewrite validateScanMode_validateDotAtom.
  destruct ((e <=? s) || (length text <? e)) eqn:Hg; [|reflexivity].
  unfold validateDotAtom. rewrite Hg. reflexivity.
Qed.

(** X3. Scan-mode validation of a local part is dot-atom validation: the extra
    test on a leading double quote and the in-loop bounds test of
    [validateScanMode] never change the answer.  Hence the two modes of
    [validate] differ only on ranges that start with a double quote. *)
Theorem scan_mode_is_dot_atom (text : text_t) (s e : nat) :
  validateScanMode text s e = validateDotAtom text s e
  /\ LocalPartValidator.validate text s e SCAN = validateDotAtom text s e
  /\ LocalPartValidator.validate text s e EXACT
     = if at_ text s =c? DQUOTE then validateQuotedString text s e
       else LocalPartValidator.validate text s e SCAN.
Proof.
  pose proof (validateScanMode_validateDotAtom text s e) as H.
  split; [exact H|].
  assert (Hs : LocalPartValidator.validate text s e SCAN = validateDotAtom text s e).
  { unfold LocalPartValidator.validate. rewrite H.
    destruct ((e <=? s) || (length text <? e)) eqn:Hg; [|reflexivity].
    unfold validateDotAtom. rewrite Hg. reflexivity. }
  split; [exact Hs|].
  rewrite Hs. unfold LocalPartValidator.validate.
  destruct ((e <=? s) || (length text <? e)) eqn:Hg; [|reflexivity].
  unfold validateDotAtom, validateQuotedString. cbv zeta. rewrite Hg.
  destruct (at_ text s =c? DQUOTE); reflexivity.
Qed.

Lemma quotedLoop_spec (text : text_t) (n i : nat) (esc : bool) :
  i + n <= length text ->
  quotedLoop text i n esc = QuotedString.content_ok (substr text i n) esc.
Proof.
  revert i esc. induction n as [|n IH]; intros i esc H; [reflexivity|].
  rewrite substr_cons by lia.
  cbn [quotedLoop QuotedString.content_ok].
  destruct (Nat.leb_spec (length text) i) as [|_]; [lia|]. cbv zeta.
  rewrite !IH by lia.
  destruct esc.
  - destruct (Nat.ltb_spec 127 (nat_of_ascii (at_ text i))) as [Hc|Hc];
      destruct (Nat.leb_spec (nat_of_ascii (at_ text i)) 127); try lia; reflexivity.
  - destruct (at_ text i =c? "\"); [reflexivity|].
    destruct (at_ text i =c? DQUOTE); [reflexivity|].
    destruct (isQtextOrQpair (at_ text i)); [reflexivity|].
    destruct (at_ text i =c? " "); [reflexivity|].
    destruct (at_ text i =c? TAB); reflexivity.
Qed.

Lemma substr_quoted_shape (text : text_t) (s e : nat) :
  s + 2 <= e -> e <= length text ->
  substr text s (e - s)
  = at_ text s :: substr text (s + 1) (e - 1 - (s + 1)) ++ [at_ text (e - 1)].
Proof.
  intros H1 H2.
  replace (e - s) with (S ((e - 1 - (s + 1)) + 1)) by lia.
  rewrite substr_cons by lia. rewrite substr_split.
  replace (S s) with (s + 1) by lia.
  replace (s + 1 + (e - 1 - (s + 1))) with (e - 1) by lia.
  rewrite (substr_cons text (e - 1) 0) by lia. rewrite substr_nil. reflexivity.
Qed.

(** [validateQuotedString] accepts exactly the ranges that are a double
    quote, 1 to 64 bytes of well-escaped content and a double quote. *)
Lemma validateQuotedString_is_quoted (text : text_t) (s e : nat) :
  validateQuotedString text s e = true
  <-> s < e <= length text
      /\ exists body, QuotedString.quoted (substr text s (e - s)) body.
Proof.
  unfold validateQuotedString. cbv zeta.
  destruct (Nat.leb_spec e s) as [Hes|Hes].
  { cbn [orb]. split; [discriminate|]. intros [H _]. lia. }
  destruct (Nat.ltb_spec (length text) e) as [Hlen|Hlen].
  { cbn [orb]. split; [discriminate|]. intros [H _]. lia. }
  cbn [orb].
  destruct (Nat.leb_spec (e - s) 1) as [Hshort|Hlong].
  { (* a one-byte range cannot hold two quotes and content *)
    assert (Hno : ~ exists body, QuotedString.quoted (substr text s (e - s)) body).
    { intros (body & Hq & Hb & _).
      apply (f_equal (@length ascii)) in Hq.
      rewrite substr_length in Hq by lia.
      cbn [length] in Hq. rewrite length_app in Hq. cbn [length] in Hq. lia. }
    destruct (Nat.ltb_spec (MAX_LOCAL_PART + 2) (e - s)) as [H|_];
      [unfold MAX_LOCAL_PART in H; lia|].
    destruct (negb (at_ text s =c? DQUOTE) || negb (at_ text (e - 1) =c? DQUOTE)).
    - split; [discriminate|]. intros [_ H]. contradiction.
    - destruct (Nat.ltb_spec (e - s) 3) as [_|H]; [|lia].
      split; [discriminate|]. intros [_ H]. contradiction. }
  rewrite (substr_quoted_shape text s e) by lia.
  set (body := substr text (s + 1) (e - 1 - (s + 1))).
  assert (Hbl : length body = e - 1 - (s + 1))
    by (unfold body; apply substr_length; lia).
  assert (Hiff : forall b, QuotedString.quoted (at_ text s :: body ++ [at_ text (e - 1)]) b
                 <-> at_ text s = DQUOTE /\ at_ text (e - 1) = DQUOTE /\ b = body
                     /\ 1 <= length body <= 64
                     /\ QuotedString.content_ok body false = true).
  { intros b. unfold QuotedString.quoted. split.
    - intros (Hq & Hb & Hc). injection Hq as H0 Hrest.
      apply app_inj_tail in Hrest. destruct Hrest as [Hbody Hlast].
      subst b. auto.
    - intros (H0 & H1 & -> & Hb & Hc). rewrite H0, H1. auto. }
  destruct (Nat.ltb_spec (MAX_LOCAL_PART + 2) (e - s)) as [Hbig|Hbig].
  { split; [discriminate|]. intros [_ (b & Hq)]. apply Hiff in Hq.
    unfold MAX_LOCAL_PART in Hbig. lia. }
  unfold MAX_LOCAL_PART in Hbig.
  destruct (at_ text s =c? DQUOTE) eqn:Hq0; cbn [negb orb].
  2:{ split; [discriminate|]. intros [_ (b & Hq)]. apply Hiff in Hq.
      apply beq_neq in Hq0. tauto. }
  destruct (at_ text (e - 1) =c? DQUOTE) eqn:Hq1; cbn [negb].
  2:{ split; [discriminate|]. intros [_ (b & Hq)]. apply Hiff in Hq.
      apply beq_neq in Hq1. tauto. }
  apply beq_eq in Hq0, Hq1.
  destruct (Nat.ltb_spec (e - s) 3) as [H3|H3].
  { split; [discriminate|]. intros [_ (b & Hq)]. apply Hiff in Hq. lia. }
  rewrite quotedLoop_spec by lia. fold body.
  split.
  - intros Hc. split; [lia|]. exists body. apply Hiff. repeat split; auto; lia.
  - intros [_ (b & Hq)]. apply Hiff in Hq. tauto.
Qed.

Lemma validate_exact_forms (text : text_t) (s e : nat) :
  LocalPartValidator.validate text s e EXACT = true
  <-> s < e <= length text
      /\ (Spec.scan_local_ok (substr text s (e - s)) = true
          \/ exists body, QuotedString.quoted (substr text s (e - s)) body).
Proof.
  assert (Hfirst : s < e <= length text ->
                   Spec.first_byte (substr text s (e - s)) = at_ text s)
    by (intros; apply first_byte_substr; lia).
  split.
  - intros H. assert (Hr : s < e <= length text).
    { unfold LocalPartValidator.validate in H.
      destruct (Nat.leb_spec e s); [discriminate H|].
      destruct (Nat.ltb_spec (length text) e); [discriminate H|]. lia. }
    split; [exact Hr|]. unfold LocalPartValidator.validate in H.
    destruct ((e <=? s) || (length text <? e)); [discriminate H|].
    destruct (at_ text s =c? DQUOTE).
    + right. apply validateQuotedString_is_quoted in H. tauto.
    + left. rewrite <- validate_scan_dot_atom in H.
      apply validate_scan_spec in H. tauto.
  - intros [Hr [H|(body & H)]].
    + assert (Hq : (at_ text s =c? DQUOTE) = false).
      { rewrite <- Hfirst by exact Hr. unfold Spec.scan_local_ok in H.
        do 4 (apply andb_true_iff in H; destruct H as [H _]).
        apply andb_true_iff in H. destruct H as [_ H].
        apply negb_true_iff in H. exact H. }
      unfold LocalPartValidator.validate.
      destruct (Nat.leb_spec e s); [lia|].
      destruct (Nat.ltb_spec (length text) e); [lia|]. cbn [orb].
      rewrite Hq. rewrite <- validate_scan_dot_atom.
      apply validate_scan_spec. tauto.
    + assert (Hq : (at_ text s =c? DQUOTE) = true).
      { rewrite <- Hfirst by exact Hr. destruct H as [-> _]. apply beq_eq. reflexivity. }
      unfold LocalPartValidator.validate.
      destruct (Nat.leb_spec e s); [lia|].
      destruct (Nat.ltb_spec (length text) e); [lia|]. cbn [orb].
      rewrite Hq. apply validateQuotedString_is_quoted. split; [exact Hr|].
      exists body. exact H.
Qed.

(** X4. In exact mode [LocalPartValidator::validate] accepts a range exactly
    when its bytes are a dot-atom (1 to 64 atext bytes and dots, no dot at
    either end, no two dots in a row) or a quoted string (a double quote, 1
    to 64 bytes of well-escaped content, a double quote).  An accepted range
    is thus at most 64 bytes long, or 66 when it starts with a double
    quote. *)
Theorem exact_local_part_forms (text : text_t) (s e : nat) :
  (LocalPartValidator.validate text s e EXACT = true
   <-> s < e <= length text
       /\ (Spec.scan_local_ok (substr text s (e - s)) = true
           \/ exists body, QuotedString.quoted (substr text s (e - s)) body))
  /\ (LocalPartValidator.validate text s e EXACT = true ->
      e - s <= (if at_ text s =c? DQUOTE then 66 else 64)).
Proof.
  split; [exact (validate_exact_forms text s e)|].
  intros H. apply validate_exact_forms in H. destruct H as [Hr H].
  assert (Hlen : length (substr text s (e - s)) = e - s)
    by (apply substr_length; lia).
  assert (Hfirst : Spec.first_byte (substr text s (e - s)) = at_ text s)
    by (apply first_byte_substr; lia).
  destruct H as [H|(body & H)].
  - pose proof (scan_local_nonempty _ H) as Hn. rewrite Hlen in Hn.
    destruct (at_ text s =c? DQUOTE); lia.
  - destruct H as (Hq & Hb & _). rewrite Hq in Hfirst, Hlen.
    cbn [Spec.first_byte hd] in Hfirst. rewrite <- Hfirst.
    replace (DQUOTE =c? DQUOTE) with true by reflexivity.
    cbn [length] in Hlen. rewrite length_app in Hlen. cbn [length] in Hlen. lia.
Qed.

(* ------------------------------------------------------------------------- *)
(** ** Whole addresses *)

Lemma unquoted_ats_skip (l rest : text_t) (i : nat) :
  forallb (fun c => negb (c =c? DQUOTE) && negb (c =c? "@")) l = true ->
  Spec.unquoted_ats (l ++ rest) i false false
  = Spec.unquoted_ats rest (i + length l) false false.
Proof.
  revert i. induction l as [|c l IH]; intros i H.
  - cbn [app length]. rewrite Nat.add_0_r. reflexivity.
  - cbn [forallb] in H. apply andb_true_iff in H. destruct H as [Hc Hl].
    apply andb_true_iff in Hc. destruct Hc as [Hq Ha].
    apply negb_true_iff in Hq, Ha.
    cbn [app Spec.unquoted_ats length]. rewrite Hq, Ha.
    rewrite IH by exact Hl. f_equal. lia.
Qed.

Lemma unquoted_ats_content (body rest : text_t) (i : nat) (esc : bool) :
  QuotedString.content_ok body esc = true ->
  Spec.unquoted_ats (body ++ DQUOTE :: rest) i true esc
  = Spec.unquoted_ats rest (i + length body + 1) false false.
Proof.
  revert i esc. induction body as [|c body IH]; intros i esc H.
  - destruct esc; [discriminate H|].
    cbn [app length Spec.unquoted_ats].
    replace (DQUOTE =c? "\") with false by reflexivity.
    replace (DQUOTE =c? DQUOTE) with true by reflexivity.
    f_equal. lia.
  - cbn [QuotedString.content_ok] in H. cbn [app length Spec.unquoted_ats].
    destruct esc.
    + apply andb_true_iff in H. destruct H as [_ H].
      rewrite IH by exact H. f_equal. lia.
    + destruct (c =c? "\").
      * rewrite IH by exact H. f_equal. lia.
      * destruct (c =c? DQUOTE); [discriminate H|].
        apply andb_true_iff in H. destruct H as [_ H].
        rewrite IH by exact H. f_equal. lia.
Qed.

Lemma atext_plain (c : byte) :
  isAtext c = true -> negb (c =c? DQUOTE) && negb (c =c? "@") = true.
Proof. by_table c. Qed.

Lemma domain_char_plain (c : byte) :
  isDomainChar c = true -> negb (c =c? DQUOTE) && negb (c =c? "@") = true.
Proof. by_table c. Qed.

(** Putting the pieces of [isValid] together. *)
Lemma isValid_assemble (l d : text_t) :
  Spec.unquoted_at_positions (l ++ "@"%char :: d) = [length l] ->
  0 < length l -> 0 < length d ->
  5 <= length (l ++ "@"%char :: d) <= 320 ->
  LocalPartValidator.validate (l ++ "@"%char :: d) 0 (length l) EXACT = true ->
  DomainPartValidator.validate (l ++ "@"%char :: d) (length l + 1)
    (length (l ++ "@"%char :: d)) = true ->
  isValid (View (l ++ "@"%char :: d)) = true.
Proof.
  intros Hat Hl Hd Hlen Hloc Hdom.
  assert (Hlen' : length (l ++ "@"%char :: d) = length l + S (length d))
    by (rewrite length_app; reflexivity).
  unfold isValid. cbn [sv_length sv_is_null sv_bytes]. cbv zeta.
  unfold MIN_EMAIL_SIZE, MAX_EMAIL_SIZE.
  destruct (Nat.ltb_spec (length (l ++ "@"%char :: d)) 5) as [|_]; [lia|].
  destruct (Nat.ltb_spec 320 (length (l ++ "@"%char :: d))) as [|_]; [lia|].
  cbn [orb].
  rewrite atLoop_spec by (cbn; try lia; discriminate).
  rewrite substr_full. fold (Spec.unquoted_at_positions (l ++ "@"%char :: d)).
  rewrite Hat. cbn [atLoop_result].
  destruct (Nat.eqb_spec (length l) 0) as [|_]; [lia|].
  destruct (Nat.leb_spec (length (l ++ "@"%char :: d) - 1) (length l)) as [|_]; [lia|].
  cbn [orb]. rewrite Hloc, Hdom. reflexivity.
Qed.

Lemma plain_at_positions (l d : text_t) :
  forallb isAtext l = true -> forallb isDomainChar d = true ->
  Spec.unquoted_at_positions (l ++ "@"%char :: d) = [length l].
Proof.
  intros Hl Hd. unfold Spec.unquoted_at_positions.
  rewrite unquoted_ats_skip by (revert Hl; apply forallb_impl, atext_plain).
  cbn [Spec.unquoted_ats Nat.add].
  replace ("@"%char =c? DQUOTE) with false by reflexivity.
  replace ("@"%char =c? "@"%char) with true by reflexivity.
  f_equal. rewrite <- (app_nil_r d).
  rewrite unquoted_ats_skip by (revert Hd; apply forallb_impl, domain_char_plain).
  reflexivity.
Qed.

Lemma isValid_plain (l d : text_t) :
  Spec.scan_local_ok l = true -> Spec.domain_labels_ok d = true ->
  5 <= length (l ++ "@"%char :: d) ->
  isValid (View (l ++ "@"%char :: d)) = true.
Proof.
  intros Hl Hd Hlen.
  pose proof (scan_local_nonempty _ Hl) as Hln.
  pose proof (domain_labels_nonempty _ Hd) as Hdn.
  assert (Hlen' : length (l ++ "@"%char :: d) = length l + S (length d))
    by (rewrite length_app; reflexivity).
  destruct (candidate_self_valid l d Hl Hd) as [_ Hdom].
  apply isValid_assemble; try lia.
  - apply plain_at_positions; [apply scan_local_chars|apply domain_labels_chars];
      assumption.
  - apply validate_exact_forms. split; [lia|]. left.
    rewrite Nat.sub_0_r, substr_app_l. exact Hl.
  - exact Hdom.
Qed.

Lemma domain_suffix_valid (p d : text_t) :
  Spec.domain_labels_ok d = true ->
  DomainPartValidator.validate (p ++ "@"%char :: d) (length p + 1)
    (length (p ++ "@"%char :: d)) = true.
Proof.
  intros Hd.
  pose proof (domain_labels_nonempty _ Hd) as Hdn.
  assert (Hlen : length (p ++ "@"%char :: d) = length p + S (length d))
    by (rewrite length_app; reflexivity).
  assert (Hre : p ++ "@"%char :: d = (p ++ ["@"%char]) ++ d)
    by (rewrite <- app_assoc; reflexivity).
  assert (Hpl : length (p ++ ["@"%char]) = length p + 1)
    by (rewrite length_app; reflexivity).
  assert (Hfirst : at_ (p ++ "@"%char :: d) (length p + 1) = at_ d 0).
  { rewrite Hre, at_app_r by lia. f_equal. lia. }
  apply validate_domain_spec.
  - rewrite Hfirst. apply beq_neq. apply domain_not_bracket.
    apply forallb_at; [apply domain_labels_chars; exact Hd|lia].
  - split; [lia|]. rewrite Hlen. rewrite Hre at 1. rewrite <- Hpl.
    rewrite substr_app_r. rewrite substr_0_all by (rewrite Hpl; lia). exact Hd.
Qed.

Lemma quoted_at_positions (q body d : text_t) :
  QuotedString.quoted q body -> forallb isDomainChar d = true ->
  Spec.unquoted_at_positions (q ++ "@"%char :: d) = [length q].
Proof.
  intros (-> & Hb & Hc) Hd. unfold Spec.unquoted_at_positions.
  cbn [app Spec.unquoted_ats].
  replace (DQUOTE =c? DQUOTE) with true by reflexivity.
  rewrite <- app_assoc. cbn [app].
  rewrite unquoted_ats_content by exact Hc.
  cbn [Spec.unquoted_ats].
  replace ("@"%char =c? DQUOTE) with false by reflexivity.
  replace ("@"%char =c? "@"%char) with true by reflexivity.
  cbn [length]. rewrite length_app. cbn [length].
  f_equal; try lia. rewrite <- (app_nil_r d).
  rewrite unquoted_ats_skip by (revert Hd; apply forallb_impl, domain_char_plain).
  reflexivity.
Qed.

Lemma isValid_quoted (q body d : text_t) :
  QuotedString.quoted q body -> Spec.domain_labels_ok d = true ->
  isValid (View (q ++ "@"%char :: d)) = true.
Proof.
  intros Hq Hd.
  pose proof (domain_labels_nonempty _ Hd) as Hdn.
  assert (Hql : length q = length body + 2).
  { destruct Hq as (-> & _). cbn [length]. rewrite length_app. cbn [length]. lia. }
  assert (Hb : 1 <= length body <= 64) by (destruct Hq as (_ & H & _); exact H).
  assert (Hlen' : length (q ++ "@"%char :: d) = length q + S (length d))
    by (rewrite length_app; reflexivity).
  apply isValid_assemble; try lia.
  - apply (quoted_at_positions q body); [exact Hq|apply domain_labels_chars; exact Hd].
  - apply validate_exact_forms. split; [lia|]. right. exists body.
    rewrite Nat.sub_0_r, substr_app_l. exact Hq.
  - apply domain_suffix_valid. exact Hd.
Qed.

(** Every string made of a dot-atom or a quoted string, an [@] and a
    dot-labelled domain, at least 5 bytes in all, is accepted by [isValid].
    (Such a string is never longer than 320 bytes.) *)
Theorem isValid_accepts_well_formed (l d : text_t) :
  (Spec.scan_local_ok l = true \/ exists body, QuotedString.quoted l body) ->
  Spec.domain_labels_ok d = true ->
  5 <= length (l ++ "@"%char :: d) ->
  isValid (View (l ++ "@"%char :: d)) = true.
Proof.
  intros [Hl|(body & Hq)] Hd Hlen.
  - apply isValid_plain; assumption.
  - apply (isValid_quoted l body); assumption.
Qed.

Lemma isValid_accepts_well_formed_witness :
  isValid (View (DQUOTE :: lit "a b@c" ++ DQUOTE :: lit "@example.com")) = true.
Proof.
  apply (isValid_accepts_well_formed (DQUOTE :: lit "a b@c" ++ [DQUOTE]) (lit "example.com")).
  - right. exists (lit "a b@c"). split; [reflexivity|]. split; [simpl; lia|reflexivity].
  - reflexivity.
  - simpl. lia.
Defined.

Lemma isValid_length (v : string_view) :
  isValid v = true -> 5 <= sv_length v <= 320.
Proof.
  unfold isValid. cbv zeta. unfold MIN_EMAIL_SIZE, MAX_EMAIL_SIZE.
  destruct (Nat.ltb_spec (sv_length v) 5); [discriminate|].
  destruct (Nat.ltb_spec 320 (sv_length v)); [discriminate|]. lia.
Qed.

Lemma extract_nonempty_contains_view (v : string_view) :
  extract v <> [] -> contains v = true.
Proof.
  unfold extract, extract_state_of, contains, contains_fuel.
  destruct ((MAX_INPUT_SIZE <? sv_length v) || (sv_length v <? 5));
    [intros H; contradiction|].
  destruct (sv_is_null v && (0 <? sv_length v)); [intros H; contradiction|].
  intros H.
  pose proof (extract_nonempty_contains (sv_bytes v) MAX_SCAN_ITERATIONS initState
                (S (sv_length v)) eq_refl eq_refl eq_refl eq_refl H) as E.
  cbn [pos totalCharsScanned initState] in E. rewrite E; [reflexivity|].
  destruct v; simpl; lia.
Qed.

(** X11. Validator and scanner agree on a standalone plain address: a dot-atom,
    an [@] and a dot-labelled domain of at least 3 bytes is accepted by
    [isValid], is reported by [contains] and is the one string [extract]
    returns. *)
Theorem scanner_finds_standalone_address (l d : text_t) :
  Spec.scan_local_ok l = true -> Spec.domain_labels_ok d = true ->
  3 <= length d ->
  isValid (View (l ++ "@"%char :: d)) = true
  /\ contains (View (l ++ "@"%char :: d)) = true
  /\ extract (View (l ++ "@"%char :: d)) = [l ++ "@"%char :: d].
Proof.
  intros Hl Hd H3.
  pose proof (scan_local_nonempty _ Hl) as Hln.
  pose proof (extract_candidate l d Hl Hd H3) as He.
  split; [|split; [|exact He]].
  - apply isValid_plain; try assumption.
    rewrite length_app. cbn [length]. lia.
  - apply extract_nonempty_contains_view. rewrite He. discriminate.
Qed.

Lemma scanner_finds_standalone_address_witness :
  isValid (View (lit "john.doe@example.com")) = true
  /\ contains (View (lit "john.doe@example.com")) = true
  /\ extract (View (lit "john.doe@example.com")) = [lit "john.doe@example.com"].
Proof.
  apply (scanner_finds_standalone_address (lit "john.doe") (lit "example.com")).
  - reflexivity.
  - reflexivity.
  - simpl. lia.
Defined.

(** X12. A string returned by [extract] is accepted by [isValid] exactly when it
    has at least 5 bytes: the scanner's matches are valid addresses in exact
    mode, apart from those too short for the validator's length guard. *)
Theorem extracted_match_isValid (v : string_view) (m : text_t) :
  In m (extract v) ->
  (isValid (View m) = true <-> 5 <= length m).
Proof.
  intros Hin. split.
  - intros H. apply isValid_length in H. cbn [sv_length] in H. lia.
  - intros Hlen. apply extract_match_span in Hin.
    destruct Hin as (sp & _ & Hm & Hgood).
    pose proof (good_span_shape _ _ Hgood) as (Hshape & Hl & Hd).
    rewrite Hm, Hshape. apply isValid_plain; try assumption.
    rewrite <- Hshape, <- Hm. exact Hlen.
Qed.

Lemma extracted_match_isValid_witness :
  isValid (View (lit "bob@site.org")) = true <-> 5 <= length (lit "bob@site.org").
Proof.
  apply (extracted_match_isValid (View (lit "mail bob@site.org now")) (lit "bob@site.org")).
  vm_compute. left. reflexivity.
Defined.

(* ------------------------------------------------------------------------- *)
(** ** What the scanner reports *)

Lemma containsLoop_anchor (text : text_t) (n pos m l t : nat) :
  containsLoop text n pos m l t = Some true ->
  exists atPos,
    1 <= atPos /\ atPos + 3 < length text /\ at_ text atPos = "@"%char
    /\ validBoundaries (findEmailBoundaries text atPos m) = true
    /\ LocalPartValidator.validate text (start (findEmailBoundaries text atPos m)) atPos
         LocalPartValidator.SCAN = true
    /\ DomainPartValidator.validate text (atPos + 1)
         (end_ (findEmailBoundaries text atPos m)) = true.
Proof.
  revert pos t. induction n as [|n IH]; intros pos t H; [discriminate|].
  rewrite containsLoop_S in H. cbv zeta in H.
  destruct (pos <? length text) eqn:Hpos; [|discriminate].
  destruct (memchrAt text (length text - pos) pos) as [atPos|] eqn:Hm; [|discriminate].
  apply memchrAt_Some in Hm. destruct Hm as (Hrange & Hat & _).
  destruct (Nat.ltb_spec atPos 1) as [|H1]; [cbn [orb] in H; eapply IH; exact H|].
  destruct (Nat.leb_spec (length text - 3) atPos) as [|H3];
    [cbn [orb] in H; eapply IH; exact H|].
  cbn [orb] in H.
  destruct (atPos <? l); [eapply IH; exact H|].
  destruct (MAX_TOTAL_CHARS_SCANNED <? _); [discriminate|].
  destruct (validBoundaries (findEmailBoundaries text atPos m)) eqn:Hvb; cbn [negb] in H;
    [|eapply IH; exact H].
  destruct (LocalPartValidator.validate text _ atPos LocalPartValidator.SCAN) eqn:Hloc;
    cbn [andb] in H; [|eapply IH; exact H].
  destruct (DomainPartValidator.validate text (atPos + 1) _) eqn:Hdom;
    [|eapply IH; exact H].
  exists atPos. repeat split; try assumption; lia.
Qed.

(** X13. [contains] answers [true] only when the text holds an address: an [@]
    that is not the first byte and has at least 3 bytes after it, a scan-mode
    local part ending just before it, and a dot-labelled domain starting
    just after it. *)
Theorem contains_true_has_address (v : string_view) :
  contains v = true ->
  exists s a e : nat,
    s < a /\ 1 <= a /\ a + 3 < sv_length v /\ a + 1 < e <= sv_length v
    /\ at_ (sv_bytes v) a = "@"%char
    /\ Spec.scan_local_ok (substr (sv_bytes v) s (a - s)) = true
    /\ Spec.domain_labels_ok (substr (sv_bytes v) (a + 1) (e - (a + 1))) = true.
Proof.
  intros H.
  assert (Hlen : sv_length v = length (sv_bytes v)).
  { destruct v as [n|l]; [|reflexivity].
    unfold contains, contains_fuel in H. cbn [sv_length sv_is_null sv_bytes] in H.
    destruct ((MAX_INPUT_SIZE <? n) || (n <? 5)); [discriminate H|].
    destruct n; [reflexivity|]. discriminate H. }
  apply contains_true_loop in H. apply containsLoop_anchor in H.
  destruct H as (a & H1 & H3 & Hat & Hvb & Hloc & Hdom).
  pose proof (findEmailBoundaries_valid (sv_bytes v) a 0 ltac:(lia) Hvb)
    as (_ & Hs & He & Hbr).
  destruct (Nat.ltb_spec (a + 1) (length (sv_bytes v))) as [_|]; [|lia].
  cbn [andb] in Hbr. apply beq_neq in Hbr.
  apply validate_scan_spec in Hloc. destruct Hloc as [_ Hloc].
  apply (validate_domain_spec _ _ _ Hbr) in Hdom. destruct Hdom as [Hr Hdom].
  exists (start (findEmailBoundaries (sv_bytes v) a 0)), a,
         (end_ (findEmailBoundaries (sv_bytes v) a 0)).
  rewrite Hlen. repeat split; try assumption; lia.
Qed.

Lemma contains_true_has_address_witness :
  exists s a e : nat,
    s < a /\ 1 <= a /\ a + 3 < 21 /\ a + 1 < e <= 21
    /\ at_ (lit "mail bob@site.org now") a = "@"%char
    /\ Spec.scan_local_ok (substr (lit "mail bob@site.org now") s (a - s)) = true
    /\ Spec.domain_labels_ok (substr (lit "mail bob@site.org now") (a + 1) (e - (a + 1)))
       = true.
Proof.
  apply (contains_true_has_address (View (lit "mail bob@site.org now"))).
  vm_compute. reflexivity.
Defined.

(** X14. The scan loop of [contains] has no iteration cap, yet it always ends:
    every round moves [pos] past the [@] it looked at, so [len + 1] rounds
    are enough and more rounds give the same answer. *)
Theorem contains_loop_terminates (v : string_view) (n : nat) :
  sv_length v < n ->
  contains_fuel n v <> None
  /\ contains_fuel n v = contains_fuel (S (sv_length v)) v.
Proof.
  intros H. rewrite (contains_total v n H).
  rewrite (contains_total v (S (sv_length v))) by lia.
  split; [discriminate|reflexivity].
Qed.

Lemma contains_loop_terminates_witness :
  contains_fuel 30 (View (lit "a@@b@c.d @x.yz @")) <> None
  /\ contains_fuel 30 (View (lit "a@@b@c.d @x.yz @"))
     = contains_fuel (S (sv_length (View (lit "a@@b@c.d @x.yz @"))))
         (View (lit "a@@b@c.d @x.yz @")).
Proof.
  apply (contains_loop_terminates (View (lit "a@@b@c.d @x.yz @")) 30).
  simpl. lia.
Defined.

Lemma extractLoop_count (text : text_t) (n : nat) (st : extract_state) :
  extractedCount st = length (emails st) ->
  extractedCount st <= MAX_EMAILS_EXTRACT ->
  extractedCount (extractLoop text n st) = length (emails (extractLoop text n st))
  /\ extractedCount (extractLoop text n st) <= MAX_EMAILS_EXTRACT.
Proof.
  revert st. induction n as [|n IH]; intros st Hc Hm; [split; assumption|].
  rewrite extractLoop_S. cbv zeta.
  destruct (pos st <? length text); [|split; assumption].
  destruct (Nat.leb_spec MAX_EMAILS_EXTRACT (extractedCount st)) as [|Hlt];
    [split; assumption|].
  destruct (memchrAt text (length text - pos st) (pos st)) as [atPos|];
    [|split; assumption].
  repeat match goal with
         | |- context [extractLoop text n (if ?b then _ else _)] => fail 1
         | |- context [if ?b then extractLoop text n _ else _] => destruct b
         | |- context [if ?b then _ else extractLoop text n _] => destruct b
         end;
    try (apply IH; cbn [extractedCount emails]; assumption);
    try (split; cbn [extractedCount emails]; assumption).
  apply IH; cbn [extractedCount emails];
    destruct (negb (existsb _ (seen st)));
    try assumption; try lia.
  rewrite length_app. cbn [length]. lia.
Qed.

(** X15. [extract] returns at most 10,000 strings, each between 3 and 318 bytes
    long. *)
Theorem extract_result_bounds (v : string_view) :
  length (extract v) <= MAX_EMAILS_EXTRACT
  /\ forall m, In m (extract v) -> 3 <= length m <= 318.
Proof.
  split.
  - unfold extract, extract_state_of.
    destruct ((MAX_INPUT_SIZE <? sv_length v) || (sv_length v <? 5));
      [cbn; lia|].
    destruct (sv_is_null v && (0 <? sv_length v)); [cbn; lia|].
    destruct (extractLoop_count (sv_bytes v) MAX_SCAN_ITERATIONS initState eq_refl)
      as [H1 H2]; [cbn; lia|].
    rewrite <- H1. exact H2.
  - intros m Hin. apply extract_match_span in Hin.
    destruct Hin as (sp & _ & Hm & Hgood).
    pose proof (good_span_shape _ _ Hgood) as (Hshape & Hl & Hd).
    apply scan_local_nonempty in Hl. apply domain_labels_nonempty in Hd.
    rewrite Hm, Hshape, length_app. cbn [length]. lia.
Qed.

(* ------------------------------------------------------------------------- *)
(** ** IPv6 literals: every address of the grammar is accepted *)

Lemma substr_eq_app (text : text_t) (p n : nat) (a b : text_t) :
  p + n <= length text ->
  substr text p n = a ++ b ->
  substr text p (length a) = a
  /\ substr text (p + length a) (n - length a) = b
  /\ length a + length b = n.
Proof.
  intros Hr H.
  assert (Hn : length a + length b = n).
  { apply (f_equal (@length ascii)) in H. rewrite substr_length in H by exact Hr.
    rewrite length_app in H. lia. }
  split; [|split; [|exact Hn]].
  - transitivity (substr (a ++ b) 0 (length a)); [|apply substr_app_l].
    rewrite <- H. rewrite substr_substr by lia. rewrite Nat.add_0_r. reflexivity.
  - rewrite <- (substr_substr text p n (length a) (n - length a)) by lia.
    rewrite H, substr_app_r. apply substr_0_all. lia.
Qed.

Lemma substr_eq_cons (text : text_t) (p n : nat) (x : byte) (r : text_t) :
  p + n <= length text ->
  substr text p n = x :: r ->
  0 < n /\ at_ text p = x /\ substr text (S p) (n - 1) = r.
Proof.
  intros Hr H. destruct n as [|n]; [rewrite substr_nil in H; discriminate H|].
  rewrite substr_cons in H by lia. injection H as H1 H2.
  rewrite Nat.sub_succ, Nat.sub_0_r. split; [lia|]. split; assumption.
Qed.

Lemma hexRun_exact (text : text_t) (e pos h : nat) :
  h <= 4 -> pos + h <= e -> e <= length text ->
  forallb isHexDigit (substr text pos h) = true ->
  (pos + h <? e) && isHexDigit (at_ text (pos + h)) = false ->
  hexRun text e 5 pos 0 = Some (pos + h, h).
Proof.
  intros Hh He Hlen Hhex Hstop.
  assert (G : forall m k fuel,
             k + m = h -> m < fuel ->
             hexRun text e fuel (pos + k) k = Some (pos + h, h)).
  { induction m as [|m IH]; intros k fuel Hk Hf.
    - destruct fuel as [|fuel]; [lia|]. cbn [hexRun].
      replace k with h by lia.
      destruct (Nat.ltb_spec (pos + h) e) as [Hlt|_]; [|reflexivity].
      destruct (Nat.ltb_spec (pos + h) (length text)) as [_|]; [|lia].
      cbn [andb] in Hstop |- *. rewrite Hstop. reflexivity.
    - destruct fuel as [|fuel]; [lia|]. cbn [hexRun].
      destruct (Nat.ltb_spec (pos + k) e) as [_|]; [|lia].
      destruct (Nat.ltb_spec (pos + k) (length text)) as [_|]; [|lia].
      rewrite (forallb_substr_at text isHexDigit pos h (pos + k)) by (lia || assumption).
      cbn [andb].
      destruct (Nat.ltb_spec 4 (S k)) as [|_]; [lia|].
      replace (S (pos + k)) with (pos + S k) by lia.
      apply IH; lia. }
  rewrite <- (Nat.add_0_r pos) at 1. apply (G h 0 5); lia.
Qed.

Lemma digit_is_hex (c : byte) : isDigit c = true -> isHexDigit c = true.
Proof. by_table c. Qed.

Lemma colon_dot_not_hex (c : byte) :
  (c =c? ":") || (c =c? ".") = true -> isHexDigit c = false.
Proof. by_table c. Qed.

Lemma hex_not_colon (c : byte) : isHexDigit c = true -> (c =c? ":") = false.
Proof. by_table c. Qed.

Lemma nonzero_digit_value (c : byte) :
  isDigit c = true -> (c =c? "0") = false -> (1 <=? Spec.digit_value c)%Z = true.
Proof. by_table c. Qed.

Lemma octet_length (o : text_t) : Spec.octet_ok o = true -> 1 <= length o <= 3.
Proof.
  unfold Spec.octet_ok. intros H.
  apply andb_true_iff in H. destruct H as [H Hv].
  apply andb_true_iff in H. destruct H as [H Hz].
  apply andb_true_iff in H. destruct H as [Hl Hd].
  apply Nat.leb_le in Hl. split; [exact Hl|].
  destruct o as [|a [|b [|c [|d o']]]]; cbn [length]; try lia.
  exfalso.
  cbn [forallb] in Hd.
  apply andb_true_iff in Hd. destruct Hd as [Ha Hd].
  apply andb_true_iff in Hd. destruct Hd as [Hb Hd].
  apply andb_true_iff in Hd. destruct Hd as [Hc Hd].
  apply andb_true_iff in Hd. destruct Hd as [Hd Ho].
  cbn [Spec.first_byte hd length] in Hz.
  replace (1 <? S (S (S (S (length o'))))) with true in Hz
    by (symmetry; apply Nat.ltb_lt; lia).
  rewrite andb_true_r in Hz. apply negb_true_iff in Hz.
  pose proof (nonzero_digit_value a Ha Hz) as Ha1. apply Z.leb_le in Ha1.
  pose proof (digit_bounds b Hb) as (Hb0 & _).
  pose proof (digit_bounds c Hc) as (Hc0 & _).
  pose proof (digit_bounds d Hd) as (Hd0 & _).
  apply Z.leb_le in Hv. unfold Spec.decimal_value in Hv. cbn [fold_left] in Hv.
  unfold Spec.dec_step at 2 3 4 5 in Hv.
  pose proof (dec_fold_mono o'
                ((((0 * 10 + Spec.digit_value a) * 10 + Spec.digit_value b) * 10
                  + Spec.digit_value c) * 10 + Spec.digit_value d)%Z Ho ltac:(lia)) as Hm.
  lia.
Qed.

Lemma split_first_piece (l : text_t) :
  2 <= length (Spec.split_on_dot l) ->
  exists rest, l = hd [] (Spec.split_on_dot l) ++ "."%char :: rest.
Proof.
  induction l as [|c l IH]; intros H; [cbn in H; lia|].
  rewrite split_on_dot_cons in H |- *.
  destruct (c =c? ".") eqn:Hc.
  - apply beq_eq in Hc. subst c. exists l. reflexivity.
  - cbn [length hd] in H |- *.
    pose proof (split_on_dot_nonempty l) as Hne.
    destruct (Spec.split_on_dot l) as [|p ps] eqn:Hs; [contradiction|].
    cbn [tl hd length] in H, IH |- *.
    destruct IH as (rest & Hr); [lia|].
    exists rest. rewrite Hr at 1. reflexivity.
Qed.

Lemma ipv4_first_octet (g : text_t) :
  Spec.ipv4_ok g = true ->
  exists o rest, g = o ++ "."%char :: rest
                 /\ 1 <= length o <= 3 /\ forallb isDigit o = true.
Proof.
  unfold Spec.ipv4_ok. intros H. apply andb_true_iff in H. destruct H as [Hn Ho].
  apply Nat.eqb_eq in Hn.
  destruct (split_first_piece g) as (rest & Hr); [lia|].
  exists (hd [] (Spec.split_on_dot g)), rest. split; [exact Hr|].
  destruct (Spec.split_on_dot g) as [|p ps]; [discriminate Hn|].
  cbn [hd forallb] in Ho |- *. apply andb_true_iff in Ho. destruct Ho as [Hp _].
  split; [apply octet_length; exact Hp|].
  unfold Spec.octet_ok in Hp.
  do 2 (apply andb_true_iff in Hp; destruct Hp as [Hp _]).
  apply andb_true_iff in Hp. tauto.
Qed.

Lemma hextet_facts (g : text_t) :
  IPv6Grammar.hextet_ok g = true ->
  1 <= length g <= 4 /\ forallb isHexDigit g = true.
Proof.
  unfold IPv6Grammar.hextet_ok. intros H.
  apply andb_true_iff in H. destruct H as [H Hh].
  apply andb_true_iff in H. destruct H as [H1 H4].
  apply Nat.leb_le in H1, H4. auto.
Qed.

(** Every continuation of the grammar begins with a hexadecimal digit. *)
Lemma tail_first_hex (c : bool) (n : nat) (d : text_t) :
  IPv6Grammar.tail c n d -> 0 < length d /\ isHexDigit (at_ d 0) = true.
Proof.
  assert (Hg : forall g r, IPv6Grammar.hextet_ok g = true ->
                 0 < length (g ++ r) /\ isHexDigit (at_ (g ++ r) 0) = true).
  { intros g r H. apply hextet_facts in H. destruct H as [Hl Hh].
    rewrite length_app. split; [lia|].
    rewrite at_app_l by lia. apply forallb_at; [exact Hh|lia]. }
  intros H. destruct H as [c n g H _|c n g H _ _|c n g rest H _ _|n g H _|n g rest H _ _];
    try (apply Hg; exact H).
  - rewrite <- (app_nil_r g). apply Hg. exact H.
  - apply ipv4_first_octet in H. destruct H as (o & rest & -> & Hl & Hd).
    rewrite length_app. split; [lia|].
    rewrite at_app_l by lia. apply digit_is_hex. apply forallb_at; [exact Hd|lia].
Qed.

Lemma tail_slots (c : bool) (n : nat) (d : text_t) : IPv6Grammar.tail c n d -> n <= 7.
Proof.
  intros H. destruct H as [c n g _ Hs|c n g _ Hs _|c n g rest _ Hs _|n g _ Hs|n g rest _ Hs _];
    try lia.
  - destruct c; cbn in Hs; lia.
  - cbn in Hs. lia.
Qed.

Lemma ipv6Finish_true (n : nat) (c : bool) (it : nat) :
  IPv6Grammar.slots_ok c n -> it < MAX_IPV6_ITERATIONS -> ipv6Finish n c it = true.
Proof.
  intros Hs Hit. unfold ipv6Finish.
  destruct (Nat.leb_spec MAX_IPV6_ITERATIONS it) as [|_]; [lia|].
  destruct c; cbn in Hs; [apply Nat.leb_le|apply Nat.eqb_eq]; exact Hs.
Qed.

(** One round of the loop on a group of [h] hexadecimal digits. *)
Lemma ipv6Loop_group (text : text_t) (e fuel pos n h : nat) (c : bool) (it : nat) :
  pos < e -> it < MAX_IPV6_ITERATIONS -> 0 < h -> n <= 7 ->
  hexRun text e 5 pos 0 = Some (pos + h, h) ->
  ipv6Loop text e (S fuel) pos n c it
  = if (pos + h <? e) && (pos + h <? length text) && (at_ text (pos + h) =c? ".") then
      if validateIPv4 text pos e then ipv6Finish (S n - 1 + 2) c (S it) else false
    else if e <=? pos + h then ipv6Finish (S n) c (S it)
    else if at_ text (pos + h) =c? ":" then
      if (S (pos + h) <? e) && (S (pos + h) <? length text)
         && (at_ text (S (pos + h)) =c? ":")
      then if c then false
           else if e <=? S (S (pos + h)) then ipv6Finish (S n) true (S it)
                else ipv6Loop text e fuel (S (S (pos + h))) (S n) true (S it)
      else if h =? 0 then false
           else if e <=? S (pos + h) then false
                else ipv6Loop text e fuel (S (pos + h)) (S n) c (S it)
    else false.
Proof.
  intros Hpos Hit Hh Hn Hrun. rewrite ipv6Loop_S. cbv zeta. rewrite Hrun.
  destruct (Nat.ltb_spec pos e) as [_|]; [|lia].
  destruct (Nat.ltb_spec it MAX_IPV6_ITERATIONS) as [_|]; [|lia].
  destruct (Nat.ltb_spec 0 h) as [_|]; [|lia].
  destruct (Nat.ltb_spec 8 (S n)) as [|_]; [lia|].
  reflexivity.
Qed.

Lemma ipv6Loop_complete (text : text_t) (e : nat) :
  e <= length text ->
  forall c n d,
    IPv6Grammar.tail c n d ->
    forall pos it fuel,
      substr text pos (e - pos) = d -> pos <= e ->
      it <= n -> MAX_IPV6_ITERATIONS - it < fuel ->
      ipv6Loop text e fuel pos n c it = true.
Proof.
  intros He c n d H.
  induction H as [c n g Hg Hs|c n g Hg Hn Hs|c n g rest Hg Hn Hrest IH
                 |n g Hg Hs|n g rest Hg Hn Hrest IH];
    intros pos it fuel Hd Hpos Hit Hfuel;
    (destruct fuel as [|fuel]; [lia|]);
    (assert (Hn7 : n <= 7)
      by (try lia; try (destruct c; cbn in *; lia); cbn in *; lia));
    assert (Hmax : it < MAX_IPV6_ITERATIONS) by (unfold MAX_IPV6_ITERATIONS; lia).
  - (* a last hextet *)
    destruct (hextet_facts g Hg) as [Hgl Hgh].
    assert (Hlen : length g = e - pos)
      by (rewrite <- Hd; apply substr_length; lia).
    assert (Hrun : hexRun text e 5 pos 0 = Some (pos + length g, length g)).
    { apply hexRun_exact; try lia.
      - rewrite Hlen, Hd. exact Hgh.
      - destruct (Nat.ltb_spec (pos + length g) e); [lia|reflexivity]. }
    rewrite (ipv6Loop_group text e fuel pos n (length g)) by (lia || exact Hrun).
    destruct (Nat.ltb_spec (pos + length g) e) as [|_]; [lia|]. cbn [andb].
    destruct (Nat.leb_spec e (pos + length g)) as [_|]; [|lia].
    apply ipv6Finish_true; [exact Hs|unfold MAX_IPV6_ITERATIONS in *; lia].
  - (* a last dotted quad *)
    destruct (ipv4_first_octet g Hg) as (o & r & Hgo & Hol & Hod).
    assert (Hlen : length g = e - pos)
      by (rewrite <- Hd; apply substr_length; lia).
    rewrite Hgo in Hd.
    destruct (substr_eq_app text pos (e - pos) o _ ltac:(lia) Hd) as (Ho & Hr & Hl).
    cbn [length] in Hl.
    destruct (substr_eq_cons text (pos + length o) (e - pos - length o) _ _ ltac:(lia) Hr)
      as (_ & Hdot & _).
    assert (Hrun : hexRun text e 5 pos 0 = Some (pos + length o, length o)).
    { apply hexRun_exact; try lia.
      - rewrite Ho. revert Hod. apply forallb_impl, digit_is_hex.
      - rewrite (colon_dot_not_hex (at_ text (pos + length o))).
        + apply andb_false_r.
        + rewrite Hdot. reflexivity. }
    rewrite (ipv6Loop_group text e fuel pos n (length o)) by (lia || exact Hrun).
    destruct (Nat.ltb_spec (pos + length o) e) as [_|]; [|lia].
    destruct (Nat.ltb_spec (pos + length o) (length text)) as [_|]; [|lia].
    rewrite Hdot. cbn [andb]. replace ("."%char =c? "."%char) with true by reflexivity.
    rewrite validateIPv4_spec by exact He.
    rewrite <- Hgo in Hd. rewrite Hd, Hg.
    apply ipv6Finish_true; [|unfold MAX_IPV6_ITERATIONS in *; lia].
    replace (S n - 1 + 2) with (n + 2) by lia. exact Hs.
  - (* a hextet, a colon, and more *)
    destruct (hextet_facts g Hg) as [Hgl Hgh].
    destruct (tail_first_hex _ _ _ Hrest) as [Hrl Hrh].
    assert (Hlen : length g + S (length rest) = e - pos).
    { apply (f_equal (@length ascii)) in Hd. rewrite substr_length in Hd by lia.
      rewrite length_app in Hd. cbn [length] in Hd. lia. }
    destruct (substr_eq_app text pos (e - pos) g _ ltac:(lia) Hd) as (Ho & Hr & _).
    destruct (substr_eq_cons text (pos + length g) (e - pos - length g) _ _ ltac:(lia) Hr)
      as (_ & Hcol & Hr2).
    assert (Hnext : at_ text (S (pos + length g)) = at_ rest 0).
    { rewrite <- Hr2. rewrite at_substr by lia. f_equal. lia. }
    assert (Hrun : hexRun text e 5 pos 0 = Some (pos + length g, length g)).
    { apply hexRun_exact; try lia.
      - rewrite Ho. exact Hgh.
      - rewrite (colon_dot_not_hex (at_ text (pos + length g))).
        + apply andb_false_r.
        + rewrite Hcol. reflexivity. }
    rewrite (ipv6Loop_group text e fuel pos n (length g)) by (lia || exact Hrun).
    rewrite Hcol. replace (":"%char =c? "."%char) with false by reflexivity.
    rewrite andb_false_r.
    destruct (Nat.leb_spec e (pos + length g)) as [|_]; [lia|].
    replace (":"%char =c? ":"%char) with true by reflexivity.
    rewrite Hnext, (hex_not_colon _ Hrh), andb_false_r.
    destruct (Nat.eqb_spec (length g) 0) as [|_]; [lia|].
    destruct (Nat.leb_spec e (S (pos + length g))) as [|_]; [lia|].
    apply IH; try lia.
    rewrite <- Hr2. f_equal. lia.
  - (* a hextet and a closing "::" *)
    destruct (hextet_facts g Hg) as [Hgl Hgh].
    assert (Hlen : length g + 2 = e - pos).
    { apply (f_equal (@length ascii)) in Hd. rewrite substr_length in Hd by lia.
      rewrite length_app in Hd. cbn [length] in Hd. lia. }
    destruct (substr_eq_app text pos (e - pos) g _ ltac:(lia) Hd) as (Ho & Hr & _).
    destruct (substr_eq_cons text (pos + length g) (e - pos - length g) _ _ ltac:(lia) Hr)
      as (_ & Hcol & Hr2).
    destruct (substr_eq_cons text (S (pos + length g)) (e - pos - length g - 1) _ _
                ltac:(lia) Hr2)
      as (_ & Hcol2 & _).
    assert (Hrun : hexRun text e 5 pos 0 = Some (pos + length g, length g)).
    { apply hexRun_exact; try lia.
      - rewrite Ho. exact Hgh.
      - rewrite (colon_dot_not_hex (at_ text (pos + length g))).
        + apply andb_false_r.
        + rewrite Hcol. reflexivity. }
    rewrite (ipv6Loop_group text e fuel pos n (length g)) by (cbn in Hs; lia || exact Hrun).
    rewrite Hcol. replace (":"%char =c? "."%char) with false by reflexivity.
    rewrite andb_false_r.
    destruct (Nat.leb_spec e (pos + length g)) as [|_]; [lia|].
    replace (":"%char =c? ":"%char) with true by reflexivity.
    rewrite Hcol2. replace (":"%char =c? ":"%char) with true by reflexivity.
    destruct (Nat.ltb_spec (S (pos + length g)) e) as [_|]; [|lia].
    destruct (Nat.ltb_spec (S (pos + length g)) (length text)) as [_|]; [|lia].
    cbn [andb].
    destruct (Nat.leb_spec e (S (S (pos + length g)))) as [_|]; [|lia].
    apply ipv6Finish_true; [exact Hs|unfold MAX_IPV6_ITERATIONS in *; lia].
  - (* a hextet, "::", and more *)
    destruct (hextet_facts g Hg) as [Hgl Hgh].
    destruct (tail_first_hex _ _ _ Hrest) as [Hrl Hrh].
    assert (Hlen : length g + S (S (length rest)) = e - pos).
    { apply (f_equal (@length ascii)) in Hd. rewrite substr_length in Hd by lia.
      rewrite length_app in Hd. cbn [length] in Hd. lia. }
    destruct (substr_eq_app text pos (e - pos) g _ ltac:(lia) Hd) as (Ho & Hr & _).
    destruct (substr_eq_cons text (pos + length g) (e - pos - length g) _ _ ltac:(lia) Hr)
      as (_ & Hcol & Hr2).
    destruct (substr_eq_cons text (S (pos + length g)) (e - pos - length g - 1) _ _
                ltac:(lia) Hr2)
      as (_ & Hcol2 & Hr3).
    assert (Hrun : hexRun text e 5 pos 0 = Some (pos + length g, length g)).
    { apply hexRun_exact; try lia.
      - rewrite Ho. exact Hgh.
      - rewrite (colon_dot_not_hex (at_ text (pos + length g))).
        + apply andb_false_r.
        + rewrite Hcol. reflexivity. }
    rewrite (ipv6Loop_group text e fuel pos n (length g)) by (lia || exact Hrun).
    rewrite Hcol. replace (":"%char =c? "."%char) with false by reflexivity.
    rewrite andb_false_r.
    destruct (Nat.leb_spec e (pos + length g)) as [|_]; [lia|].
    replace (":"%char =c? ":"%char) with true by reflexivity.
    rewrite Hcol2. replace (":"%char =c? ":"%char) with true by reflexivity.
    destruct (Nat.ltb_spec (S (pos + length g)) e) as [_|]; [|lia].
    destruct (Nat.ltb_spec (S (pos + length g)) (length text)) as [_|]; [|lia].
    cbn [andb].
    destruct (Nat.leb_spec e (S (S (pos + length g)))) as [|_]; [lia|].
    apply IH; try lia.
    rewrite <- Hr3. f_equal. lia.
Qed.

Lemma validateIPv6_complete (text : text_t) (s e : nat) :
  e <= length text ->
  IPv6Grammar.address (substr text s (e - s)) ->
  validateIPv6 text s e = true.
Proof.
  intros He Ha.
  assert (Hse : s < e).
  { destruct (Nat.lt_ge_cases s e) as [|Hge]; [assumption|exfalso].
    replace (e - s) with 0 in Ha by lia. rewrite substr_nil in Ha.
    destruct Ha as [H|[(rest & H & _)|H]]; try discriminate H.
    apply tail_first_hex in H. cbn in H. lia. }
  assert (Hlen : length (substr text s (e - s)) = e - s) by (apply substr_length; lia).
  unfold validateIPv6.
  destruct (Nat.leb_spec e s) as [|_]; [lia|].
  destruct (Nat.ltb_spec (length text) e) as [|_]; [lia|]. cbn [orb]. cbv zeta.
  destruct (Nat.leb_spec (s + 1) e) as [_|]; [|lia].
  destruct (Nat.leb_spec (s + 1) (length text)) as [_|]; [|lia]. cbn [andb].
  destruct Ha as [H|[(rest & H & Ht)|H]].
  - rewrite H in Hlen. cbn [length] in Hlen.
    destruct (substr_eq_cons text s (e - s) _ _ ltac:(lia) H) as (_ & H0 & H').
    destruct (substr_eq_cons text (S s) (e - s - 1) _ _ ltac:(lia) H') as (_ & H1 & _).
    replace (s + 1) with (S s) by lia. rewrite H0, H1.
    replace (":"%char =c? ":"%char) with true by reflexivity. cbn [andb].
    destruct (Nat.leb_spec e (s + 2)) as [_|]; [reflexivity|lia].
  - destruct (tail_first_hex _ _ _ Ht) as [Hrl _].
    rewrite H in Hlen. cbn [length] in Hlen.
    destruct (substr_eq_cons text s (e - s) _ _ ltac:(lia) H) as (_ & H0 & H').
    destruct (substr_eq_cons text (S s) (e - s - 1) _ _ ltac:(lia) H') as (_ & H1 & H'').
    replace (s + 1) with (S s) by lia. rewrite H0, H1.
    replace (":"%char =c? ":"%char) with true by reflexivity. cbn [andb].
    destruct (Nat.leb_spec e (s + 2)) as [|_]; [lia|].
    apply (ipv6Loop_complete text e He true 0 rest Ht);
      try (unfold MAX_IPV6_ITERATIONS; lia).
    rewrite <- H''. f_equal; lia.
  - destruct (tail_first_hex _ _ _ H) as [Hdl Hdh].
    rewrite at_substr in Hdh by lia. rewrite Nat.add_0_r in Hdh.
    rewrite (hex_not_colon _ Hdh). cbn [andb].
    destruct (s <? length text); cbn [andb];
      apply (ipv6Loop_complete text e He false 0 _ H);
      try (unfold MAX_IPV6_ITERATIONS; lia); reflexivity.
Qed.

(** X5. On a range that is not followed by a colon, [validateIPv6] answers [true]
    exactly for the addresses of the grammar: groups of 1 to 4 hexadecimal
    digits separated by single colons, at most one "::" (at the start, in
    the middle or at the end), an optional dotted quad as last group that
    fills two slots, 8 slots in all without "::" and at most 7 with it. *)
Theorem validateIPv6_accepts_exactly_addresses (text : text_t) (s e : nat) :
  e <= length text ->
  (at_ text e =c? ":") = false ->
  (validateIPv6 text s e = true <-> IPv6Grammar.address (substr text s (e - s))).
Proof.
  intros He Hnext. split.
  - apply validateIPv6_sound; assumption.
  - apply validateIPv6_complete; assumption.
Qed.

Lemma validateIPv6_accepts_exactly_addresses_witness :
  validateIPv6 (lit "[IPv6:2001:db8::192.168.0.1]") 6 27 = true
  <-> IPv6Grammar.address (substr (lit "[IPv6:2001:db8::192.168.0.1]") 6 (27 - 6)).
Proof.
  apply (validateIPv6_accepts_exactly_addresses (lit "[IPv6:2001:db8::192.168.0.1]") 6 27).
  - simpl. lia.
  - reflexivity.
Defined.

(* ------------------------------------------------------------------------- *)
(** ** Bracketed IP literals *)

Lemma colonLoop_false (text : text_t) (n i : nat) : colonLoop text i n = false.
Proof.
  revert i. induction n as [|n IH]; intros i; [reflexivity|].
  cbn [colonLoop]. destruct (length text <=? i); [reflexivity|].
  destruct (at_ text i =c? ":"); [reflexivity|apply IH].
Qed.

Lemma firstn_substr (text : text_t) (s n k : nat) :
  k <= n -> firstn k (substr text s n) = substr text s k.
Proof.
  intros H. unfold substr. rewrite firstn_firstn.
  replace (Nat.min k n) with k by lia. reflexivity.
Qed.

Lemma skipn_substr (text : text_t) (s n k : nat) :
  k <= n -> skipn k (substr text s n) = substr text (s + k) (n - k).
Proof.
  intros H. unfold substr. rewrite skipn_firstn_comm, skipn_skipn.
  f_equal. f_equal. lia.
Qed.

Lemma substr5 (text : text_t) (s : nat) :
  s + 5 <= length text ->
  substr text s 5
  = [at_ text s; at_ text (s + 1); at_ text (s + 2); at_ text (s + 3); at_ text (s + 4)].
Proof.
  intros H. rewrite !substr_cons by lia. rewrite substr_nil.
  repeat f_equal; lia.
Qed.

Lemma tagged_range (text : text_t) (s e : nat) :
  s + 7 <= e -> e <= length text ->
  let ipStart := s + 1 in
  let ipEnd := e - 1 in
  let inner := substr text ipStart (ipEnd - ipStart) in
  let addrStart :=
    if (ipStart + 5 <? ipEnd) && (ipStart + 5 <? length text)
       && (at_ text (ipStart + 5) =c? ":")
    then ipStart + 4 else ipStart + 5 in
  at_ text (ipStart + 4) = ":"%char ->
  substr text addrStart (ipEnd - addrStart) = IPLiteral.tagged_address inner.
Proof.
  intros Hs He ipStart ipEnd inner addrStart Hcol.
  unfold IPLiteral.tagged_address, inner. cbv zeta.
  rewrite skipn_substr by (unfold ipStart, ipEnd; lia).
  unfold addrStart.
  destruct (Nat.ltb_spec (ipStart + 5) ipEnd) as [Hlt|Hge].
  - destruct (Nat.ltb_spec (ipStart + 5) (length text)) as [_|];
      [|unfold ipStart, ipEnd in *; lia].
    rewrite at_substr by (unfold ipStart, ipEnd in *; lia).
    rewrite Nat.add_0_r. cbn [andb].
    destruct (at_ text (ipStart + 5) =c? ":"); [|f_equal; lia].
    replace (ipEnd - (ipStart + 4)) with (S (ipEnd - ipStart - 5)) by lia.
    rewrite substr_cons by (unfold ipStart, ipEnd in *; lia).
    rewrite Hcol. f_equal. f_equal; lia.
  - cbn [andb].
    replace (ipEnd - ipStart - 5) with 0 by lia.
    replace (ipEnd - (ipStart + 5)) with 0 by lia.
    rewrite !substr_nil. reflexivity.
Qed.

Lemma tag_check (text : text_t) (s e : nat) :
  s + 2 < e -> e <= length text ->
  let ipStart := s + 1 in
  (6 <? e - s) && (ipStart + 5 <=? length text)
  && eq_nocase (at_ text ipStart) "i"
  && eq_nocase (at_ text (ipStart + 1)) "p"
  && eq_nocase (at_ text (ipStart + 2)) "v"
  && (at_ text (ipStart + 3) =c? "6")
  && (at_ text (ipStart + 4) =c? ":")
  = IPLiteral.ipv6_tag (firstn 5 (substr text ipStart (e - 1 - ipStart))).
Proof.
  intros Hs He ipStart.
  destruct (Nat.ltb_spec 6 (e - s)) as [Hlong|Hshort].
  - destruct (Nat.leb_spec (ipStart + 5) (length text)) as [_|];
      [|unfold ipStart in *; lia].
    rewrite firstn_substr by (unfold ipStart; lia).
    rewrite substr5 by (unfold ipStart; lia).
    reflexivity.
  - cbn [andb]. rewrite firstn_all2 by (rewrite substr_length; unfold ipStart; lia).
    assert (Hl : length (substr text ipStart (e - 1 - ipStart)) < 5)
      by (rewrite substr_length; unfold ipStart; lia).
    destruct (substr text ipStart (e - 1 - ipStart)) as [|a [|b [|c [|d [|x xs]]]]];
      try reflexivity.
    cbn [length] in Hl. lia.
Qed.

Lemma literal_shape (x y : byte) (inner : text_t) :
  IPLiteral.literal (x :: inner ++ [y])
  <-> x = "["%char /\ y = "]"%char /\ IPLiteral.inner_ok inner.
Proof.
  unfold IPLiteral.literal. split.
  - intros (i & H & Hi). injection H as Hx Hrest.
    apply app_inj_tail in Hrest. destruct Hrest as [-> ->]. auto.
  - intros (-> & -> & Hi). exists inner. auto.
Qed.

Lemma validateIPLiteral_forms (text : text_t) (s e : nat) :
  validateIPLiteral text s e = true
  <-> s < e <= length text /\ IPLiteral.literal (substr text s (e - s)).
Proof.
  unfold validateIPLiteral. cbv zeta.
  destruct (Nat.leb_spec e s) as [Hes|Hes].
  { cbn [orb]. split; [discriminate|]. intros [H _]. lia. }
  destruct (Nat.ltb_spec (length text) e) as [Hlen|Hlen].
  { cbn [orb]. split; [discriminate|]. intros [H _]. lia. }
  cbn [orb].
  destruct (Nat.eq_dec (e - s) 1) as [H1|H1].
  { (* a single byte cannot be both brackets *)
    replace (e - 1) with s by lia.
    assert (Hno : ~ IPLiteral.literal (substr text s (e - s))).
    { intros (i & H & _). apply (f_equal (@length ascii)) in H.
      rewrite substr_length in H by lia. cbn [length] in H.
      rewrite length_app in H. cbn [length] in H. lia. }
    destruct (at_ text s =c? "[") eqn:Hb; cbn [negb orb].
    - apply beq_eq in Hb. rewrite Hb.
      replace ("["%char =c? "]"%char) with false by reflexivity. cbn [negb].
      split; [discriminate|]. intros [_ H]. contradiction.
    - split; [discriminate|]. intros [_ H]. contradiction. }
  rewrite (substr_quoted_shape text s e) by lia.
  rewrite literal_shape.
  destruct (at_ text s =c? "[") eqn:Hb; cbn [negb orb].
  2:{ apply beq_neq in Hb. split; [discriminate|]. tauto. }
  destruct (at_ text (e - 1) =c? "]") eqn:Hc; cbn [negb].
  2:{ apply beq_neq in Hc. split; [discriminate|]. tauto. }
  apply beq_eq in Hb, Hc.
  destruct (Nat.leb_spec (e - 1) (s + 1)) as [Hempty|Hinner].
  { cbn [orb]. replace (e - 1 - (s + 1)) with 0 by lia. rewrite substr_nil.
    split; [discriminate|]. intros (_ & _ & _ & H). discriminate H. }
  destruct (Nat.ltb_spec (length text) (e - 1)) as [|_]; [lia|]. cbn [orb].
  rewrite (tag_check text s e) by lia.
  unfold IPLiteral.inner_ok.
  destruct (IPLiteral.ipv6_tag (firstn 5 (substr text (s + 1) (e - 1 - (s + 1))))) eqn:Htag.
  - (* tagged: the range handed to validateIPv6 ends at the closing bracket *)
    rewrite <- (tag_check text s e) in Htag by lia.
    apply andb_true_iff in Htag. destruct Htag as [Htag Hcol].
    do 5 (apply andb_true_iff in Htag; destruct Htag as [Htag _]).
    apply Nat.ltb_lt in Htag. apply beq_eq in Hcol.
    rewrite <- (tagged_range text s e) by (lia || exact Hcol).
    assert (Hnext : (at_ text (e - 1) =c? ":") = false) by (rewrite Hc; reflexivity).
    split.
    + intros H. split; [lia|]. split; [exact Hb|]. split; [exact Hc|].
      apply validateIPv6_sound; [lia|exact Hnext|exact H].
    + intros (_ & _ & _ & H). apply validateIPv6_complete; [lia|exact H].
  - rewrite validateIPv4_spec by lia. rewrite colonLoop_false.
    destruct (Spec.ipv4_ok (substr text (s + 1) (e - 1 - (s + 1)))).
    + split; [intros _|reflexivity]. split; [lia|]. auto.
    + split; [discriminate|]. intros (_ & _ & _ & H). discriminate H.
Qed.

(** X6. [validateIPLiteral] accepts exactly the bracketed literals: between the
    brackets either the tag "IPv6:" (letters in either case) and an IPv6
    address, or a dotted quad.  When the byte after the tag is a colon the
    address is read from the colon of the tag, so "[IPv6::1]" is accepted as
    the address "::1" and "[IPv6:::1]" is rejected. *)
Theorem ip_literal_forms (text : text_t) (s e : nat) :
  (validateIPLiteral text s e = true
   <-> s < e <= length text /\ IPLiteral.literal (substr text s (e - s)))
  /\ validateIPLiteral (lit "[IPv6::1]") 0 9 = true
  /\ validateIPLiteral (lit "[IPv6:::1]") 0 10 = false.
Proof.
  split; [exact (validateIPLiteral_forms text s e)|].
  split; vm_compute; reflexivity.
Qed.

(* ------------------------------------------------------------------------- *)
(** ** The forms [isValid] accepts *)

Lemma validate_domain_forms (text : text_t) (s e : nat) :
  DomainPartValidator.validate text s e = true
  <-> s < e <= length text
      /\ (Spec.domain_labels_ok (substr text s (e - s)) = true
          \/ IPLiteral.literal (substr text s (e - s))).
Proof.
  assert (Hfirst : s < e <= length text ->
                   at_ (substr text s (e - s)) 0 = at_ text s).
  { intros H. rewrite at_substr by lia. f_equal. lia. }
  assert (Hlab : s < e <= length text ->
                 Spec.domain_labels_ok (substr text s (e - s)) = true ->
                 (at_ text s =c? "[") = false).
  { intros Hr H. rewrite <- Hfirst by exact Hr. apply domain_not_bracket.
    apply forallb_at; [apply domain_labels_chars; exact H|].
    rewrite substr_length; lia. }
  assert (Hlit : s < e <= length text ->
                 IPLiteral.literal (substr text s (e - s)) ->
                 (at_ text s =c? "[") = true).
  { intros Hr (i & H & _). rewrite <- Hfirst by exact Hr. rewrite H. reflexivity. }
  destruct (at_ text s =c? "[") eqn:Hb.
  - unfold DomainPartValidator.validate. rewrite Hb.
    destruct ((e <=? s) || (length text <? e)) eqn:Hg.
    + split; [discriminate|]. intros [Hr _].
      apply orb_true_iff in Hg. destruct Hg as [Hg|Hg];
        [apply Nat.leb_le in Hg|apply Nat.ltb_lt in Hg]; lia.
    + rewrite validateIPLiteral_forms. split.
      * intros [Hr H]. auto.
      * intros [Hr [H|H]]; [|auto]. discriminate (Hlab Hr H).
  - assert (Hb' := Hb). apply beq_neq in Hb'.
    rewrite (validate_domain_spec text s e Hb'). split.
    + intros [Hr H]. auto.
    + intros [Hr [H|H]]; [auto|]. discriminate (Hlit Hr H).
Qed.

Lemma unquoted_ats_In (l : text_t) (i : nat) (q e : bool) (p : nat) :
  In p (Spec.unquoted_ats l i q e) -> i <= p /\ at_ l (p - i) = "@"%char.
Proof.
  revert i q e. induction l as [|c l IHl]; intros i q e Hin;
    cbn [Spec.unquoted_ats] in Hin; [contradiction|].
  assert (Hrec : forall q' e', In p (Spec.unquoted_ats l (S i) q' e') ->
                               i <= p /\ at_ (c :: l) (p - i) = "@"%char).
  { intros q' e' Hin'. apply IHl in Hin'. destruct Hin' as [Hle Hn].
    split; [lia|]. replace (p - i) with (S (p - S i)) by lia. exact Hn. }
  destruct e; [eapply Hrec; eassumption|].
  destruct q.
  - destruct (c =c? "\"); [eapply Hrec; eassumption|].
    destruct (c =c? DQUOTE); eapply Hrec; eassumption.
  - destruct (c =c? DQUOTE); [eapply Hrec; eassumption|].
    destruct (c =c? "@") eqn:Hc; [|eapply Hrec; eassumption].
    destruct Hin as [<-|Hin]; [|eapply Hrec; eassumption].
    split; [lia|]. rewrite Nat.sub_diag. apply beq_eq. exact Hc.
Qed.

Lemma split_pieces_chars (f : byte -> bool) (g : text_t) :
  forallb (forallb f) (Spec.split_on_dot g) = true ->
  forallb (fun c => f c || (c =c? ".")) g = true.
Proof.
  induction g as [|c g IH]; intros H; [reflexivity|].
  rewrite split_on_dot_cons in H. cbn [forallb].
  destruct (c =c? ".") eqn:Hc.
  - cbn [forallb] in H. rewrite orb_true_r. apply IH. exact H.
  - pose proof (split_on_dot_nonempty g) as Hne.
    destruct (Spec.split_on_dot g) as [|p ps]; [contradiction|].
    cbn [hd tl forallb] in H, IH.
    apply andb_true_iff in H. destruct H as [H Hps].
    apply andb_true_iff in H. destruct H as [Hfc Hp].
    rewrite Hfc. cbn [orb andb]. apply IH. rewrite Hp, Hps. reflexivity.
Qed.

Lemma ipv4_chars (g : text_t) :
  Spec.ipv4_ok g = true -> forallb (fun c => isDigit c || (c =c? ".")) g = true.
Proof.
  unfold Spec.ipv4_ok. intros H. apply andb_true_iff in H. destruct H as [_ H].
  apply split_pieces_chars. revert H. apply forallb_impl.
  intros o Ho. unfold Spec.octet_ok in Ho.
  do 2 (apply andb_true_iff in Ho; destruct Ho as [Ho _]).
  apply andb_true_iff in Ho. tauto.
Qed.

Lemma digit_dot_literal_byte (c : byte) :
  isDigit c || (c =c? ".") = true -> IPLiteral.literal_byte c = true.
Proof. by_table c. Qed.

Lemma hex_literal_byte (c : byte) : isHexDigit c = true -> IPLiteral.literal_byte c = true.
Proof. intros H. unfold IPLiteral.literal_byte. rewrite H. reflexivity. Qed.

Lemma tail_chars (c : bool) (n : nat) (d : text_t) :
  IPv6Grammar.tail c n d -> forallb IPLiteral.literal_byte d = true.
Proof.
  assert (Hg : forall g, IPv6Grammar.hextet_ok g = true ->
                         forallb IPLiteral.literal_byte g = true).
  { intros g H. apply hextet_facts in H. destruct H as [_ H].
    revert H. apply forallb_impl, hex_literal_byte. }
  intros H.
  induction H as [c n g H _|c n g H _ _|c n g rest H _ _ IH|n g H _|n g rest H _ _ IH].
  - apply Hg. exact H.
  - apply ipv4_chars in H. revert H. apply forallb_impl, digit_dot_literal_byte.
  - rewrite forallb_app. rewrite (Hg g H). cbn [forallb andb]. rewrite IH. reflexivity.
  - rewrite forallb_app. rewrite (Hg g H). reflexivity.
  - rewrite forallb_app. rewrite (Hg g H). cbn [forallb andb]. rewrite IH. reflexivity.
Qed.

Lemma address_chars (a : text_t) :
  IPv6Grammar.address a -> forallb IPLiteral.literal_byte a = true.
Proof.
  intros [->|[(rest & -> & H)|H]]; [reflexivity| |apply (tail_chars _ _ _ H)].
  cbn [forallb]. rewrite (tail_chars _ _ _ H). reflexivity.
Qed.

Lemma tag_chars (t : text_t) :
  IPLiteral.ipv6_tag t = true -> forallb IPLiteral.literal_byte t = true.
Proof.
  assert (Hi : forall c, eq_nocase c "i" = true -> IPLiteral.literal_byte c = true)
    by (intros c; by_table c).
  assert (Hp : forall c, eq_nocase c "p" = true -> IPLiteral.literal_byte c = true)
    by (intros c; by_table c).
  assert (Hv : forall c, eq_nocase c "v" = true -> IPLiteral.literal_byte c = true)
    by (intros c; by_table c).
  assert (H6 : forall c, (c =c? "6") = true -> IPLiteral.literal_byte c = true)
    by (intros c; by_table c).
  assert (Hc : forall c, (c =c? ":") = true -> IPLiteral.literal_byte c = true)
    by (intros c; by_table c).
  destruct t as [|a [|b [|c [|d [|x [|y t]]]]]]; try discriminate.
  cbn [IPLiteral.ipv6_tag]. intros H.
  repeat (apply andb_true_iff in H; destruct H as [H ?]).
  cbn [forallb]. rewrite (Hi a), (Hp b), (Hv c), (H6 d), (Hc x) by assumption.
  reflexivity.
Qed.

Lemma literal_chars (d : text_t) :
  IPLiteral.literal d -> forallb IPLiteral.literal_byte d = true.
Proof.
  intros (inner & -> & H). cbn [forallb]. rewrite forallb_app.
  replace (IPLiteral.literal_byte "[") with true by reflexivity.
  cbn [forallb andb].
  replace (IPLiteral.literal_byte "]") with true by reflexivity.
  rewrite andb_true_r. unfold IPLiteral.inner_ok in H.
  destruct (IPLiteral.ipv6_tag (firstn 5 inner)) eqn:Htag.
  - rewrite <- (firstn_skipn 5 inner), forallb_app.
    rewrite (tag_chars _ Htag). cbn [andb].
    apply address_chars in H. unfold IPLiteral.tagged_address in H. cbv zeta in H.
    destruct (at_ (skipn 5 inner) 0 =c? ":"); [|exact H].
    cbn [forallb] in H. apply andb_true_iff in H. tauto.
  - apply ipv4_chars in H. revert H. apply forallb_impl, digit_dot_literal_byte.
Qed.

Lemma literal_byte_plain (c : byte) :
  IPLiteral.literal_byte c = true ->
  negb (c =c? DQUOTE) && negb (c =c? "@") = true.
Proof. by_table c. Qed.

Lemma isValid_split (s : text_t) :
  isValid (View s) = true ->
  5 <= length s <= 320
  /\ exists p, 0 < p < length s - 1 /\ at_ s p = "@"%char
               /\ LocalPartValidator.validate s 0 p EXACT = true
               /\ DomainPartValidator.validate s (p + 1) (length s) = true.
Proof.
  unfold isValid. cbn [sv_length sv_is_null sv_bytes]. cbv zeta.
  unfold MIN_EMAIL_SIZE, MAX_EMAIL_SIZE.
  destruct (Nat.ltb_spec (length s) 5) as [|H5]; [discriminate|].
  destruct (Nat.ltb_spec 320 (length s)) as [|H320]; [discriminate|].
  cbn [orb].
  rewrite atLoop_spec by (cbn; lia || discriminate).
  rewrite substr_full.
  destruct (Spec.unquoted_ats s 0 false false) as [|p [|p' l]] eqn:Hu;
    cbn [atLoop_result]; try discriminate.
  destruct (Nat.eqb_spec p 0) as [|Hp0]; [discriminate|].
  destruct (Nat.leb_spec (length s - 1) p) as [|Hp1]; [discriminate|].
  cbn [orb]. intros H. apply andb_true_iff in H. destruct H as [Hl Hd].
  split; [lia|]. exists p. split; [lia|]. split; [|split; assumption].
  destruct (unquoted_ats_In s 0 false false p) as [_ Hat];
    [rewrite Hu; left; reflexivity|].
  rewrite Nat.sub_0_r in Hat. exact Hat.
Qed.

Lemma split_at (s : text_t) (p : nat) :
  p < length s ->
  s = substr s 0 p ++ at_ s p :: substr s (p + 1) (length s - (p + 1)).
Proof.
  intros H. rewrite <- (substr_full s) at 1.
  replace (length s) with (p + S (length s - (p + 1))) at 1 by lia.
  rewrite substr_split. rewrite substr_cons by lia.
  cbn [Nat.add]. replace (S p) with (p + 1) by lia. reflexivity.
Qed.

Lemma suffix_of_address (l d : text_t) :
  substr (l ++ "@"%char :: d) (length l + 1)
    (length (l ++ "@"%char :: d) - (length l + 1)) = d.
Proof.
  assert (Hre : l ++ "@"%char :: d = (l ++ ["@"%char]) ++ d)
    by (rewrite <- app_assoc; reflexivity).
  assert (Hpl : length (l ++ ["@"%char]) = length l + 1)
    by (rewrite length_app; reflexivity).
  rewrite length_app. cbn [length]. rewrite Hre, <- Hpl, substr_app_r.
  apply substr_0_all. rewrite Hpl. lia.
Qed.

Lemma at_positions_of_address (l d : text_t) :
  (forall rest i, Spec.unquoted_ats (l ++ rest) i false false
                  = Spec.unquoted_ats rest (i + length l) false false) ->
  forallb (fun c => negb (c =c? DQUOTE) && negb (c =c? "@")) d = true ->
  Spec.unquoted_at_positions (l ++ "@"%char :: d) = [length l].
Proof.
  intros Hl Hd. unfold Spec.unquoted_at_positions. rewrite Hl.
  cbn [Spec.unquoted_ats Nat.add].
  replace ("@"%char =c? DQUOTE) with false by reflexivity.
  replace ("@"%char =c? "@"%char) with true by reflexivity.
  f_equal. rewrite <- (app_nil_r d). rewrite unquoted_ats_skip by exact Hd.
  reflexivity.
Qed.

Lemma local_skips (l : text_t) :
  Spec.scan_local_ok l = true \/ (exists body, QuotedString.quoted l body) ->
  forall rest i, Spec.unquoted_ats (l ++ rest) i false false
                 = Spec.unquoted_ats rest (i + length l) false false.
Proof.
  intros [H|(body & -> & _ & Hc)] rest i.
  - apply unquoted_ats_skip. apply scan_local_chars in H.
    revert H. apply forallb_impl, atext_plain.
  - cbn [app Spec.unquoted_ats].
    replace (DQUOTE =c? DQUOTE) with true by reflexivity.
    rewrite <- app_assoc. cbn [app].
    rewrite unquoted_ats_content by exact Hc.
    f_equal. cbn [length]. rewrite length_app. cbn [length]. lia.
Qed.

Lemma domain_plain (d : text_t) :
  Spec.domain_labels_ok d = true \/ IPLiteral.literal d ->
  0 < length d
  /\ forallb (fun c => negb (c =c? DQUOTE) && negb (c =c? "@")) d = true.
Proof.
  intros [H|H].
  - split; [apply domain_labels_nonempty in H; lia|].
    apply domain_labels_chars in H. revert H. apply forallb_impl, domain_char_plain.
  - split; [destruct H as (i & -> & _); cbn [length]; lia|].
    apply literal_chars in H. revert H. apply forallb_impl, literal_byte_plain.
Qed.

(** X8. [isValid] accepts exactly the strings of 5 to 320 bytes made of a local
    part, an [@] and a domain part, where the local part is a dot-atom or a
    quoted string and the domain part is a dot-labelled domain or a
    bracketed IP literal. *)
Theorem isValid_forms (s : text_t) :
  isValid (View s) = true
  <-> 5 <= length s <= 320
      /\ exists l d,
           s = l ++ "@"%char :: d
           /\ (Spec.scan_local_ok l = true \/ exists body, QuotedString.quoted l body)
           /\ (Spec.domain_labels_ok d = true \/ IPLiteral.literal d).
Proof.
  split.
  - intros H. apply isValid_split in H.
    destruct H as (Hlen & p & Hp & Hat & Hloc & Hdom).
    split; [exact Hlen|].
    exists (substr s 0 p), (substr s (p + 1) (length s - (p + 1))).
    split; [rewrite <- Hat; apply split_at; lia|].
    apply validate_exact_forms in Hloc. rewrite Nat.sub_0_r in Hloc.
    apply validate_domain_forms in Hdom. tauto.
  - intros (Hlen & l & d & -> & Hl & Hd).
    destruct (domain_plain d Hd) as [Hdn Hdp].
    assert (Hln : 0 < length l).
    { destruct Hl as [H|(body & -> & _)]; [apply scan_local_nonempty in H; lia|].
      cbn [length]. lia. }
    assert (Hlen' : length (l ++ "@"%char :: d) = length l + S (length d))
      by (rewrite length_app; reflexivity).
    apply isValid_assemble; try lia.
    + apply at_positions_of_address; [apply local_skips; exact Hl|exact Hdp].
    + apply validate_exact_forms. split; [lia|].
      rewrite Nat.sub_0_r, substr_app_l. exact Hl.
    + apply validate_domain_forms. split; [lia|].
      rewrite suffix_of_address. exact Hd.
Qed.

Lemma atext_ascii (c : byte) : isAtext c = true -> (nat_of_ascii c <=? 127) = true.
Proof. by_table c. Qed.

Lemma domain_char_ascii (c : byte) :
  isDomainChar c = true -> (nat_of_ascii c <=? 127) = true.
Proof. by_table c. Qed.

Lemma literal_byte_ascii (c : byte) :
  IPLiteral.literal_byte c = true -> (nat_of_ascii c <=? 127) = true.
Proof. by_table c. Qed.

Lemma content_byte_ascii (c : byte) :
  (c =c? "\") || isQtextOrQpair c || (c =c? " ") || (c =c? TAB) = true ->
  (nat_of_ascii c <=? 127) = true.
Proof. by_table c. Qed.

Lemma content_ascii (body : text_t) (esc : bool) :
  QuotedString.content_ok body esc = true ->
  forallb (fun c => nat_of_ascii c <=? 127) body = true.
Proof.
  revert esc. induction body as [|c body IH]; intros esc H; [reflexivity|].
  cbn [QuotedString.content_ok] in H. cbn [forallb].
  destruct esc.
  - apply andb_true_iff in H. destruct H as [Hc H].
    rewrite Hc. exact (IH _ H).
  - destruct (c =c? "\") eqn:Hb.
    + rewrite (content_byte_ascii c) by (rewrite Hb; reflexivity). exact (IH _ H).
    + destruct (c =c? DQUOTE); [discriminate H|].
      apply andb_true_iff in H. destruct H as [Hc H].
      rewrite (content_byte_ascii c)
        by (rewrite Hb; cbn [orb]; exact Hc).
      exact (IH _ H).
Qed.

(** X9. [isValid] never accepts a string that holds a byte above 127. *)
Theorem isValid_ascii_only (s : text_t) :
  isValid (View s) = true ->
  forallb (fun c => nat_of_ascii c <=? 127) s = true.
Proof.
  intros H. apply isValid_split in H.
  destruct H as (_ & p & Hp & Hat & Hloc & Hdom).
  rewrite (split_at s p) by lia. rewrite Hat.
  apply validate_exact_forms in Hloc. rewrite Nat.sub_0_r in Hloc.
  apply validate_domain_forms in Hdom.
  destruct Hloc as [_ Hloc]. destruct Hdom as [_ Hdom].
  rewrite forallb_app. cbn [forallb].
  replace (nat_of_ascii "@" <=? 127) with true by reflexivity.
  apply andb_true_iff. split; [|cbn [andb]].
  - destruct Hloc as [H|(body & Hq & _ & Hc)].
    + apply scan_local_chars in H. revert H. apply forallb_impl, atext_ascii.
    + rewrite Hq. cbn [forallb]. rewrite forallb_app.
      rewrite (content_ascii body false Hc). reflexivity.
  - destruct Hdom as [H|H].
    + apply domain_labels_chars in H. revert H. apply forallb_impl, domain_char_ascii.
    + apply literal_chars in H. revert H. apply forallb_impl, literal_byte_ascii.
Qed.

Lemma isValid_ascii_only_witness :
  forallb (fun c => nat_of_ascii c <=? 127) (lit "john.doe@example.com") = true.
Proof.
  apply (isValid_ascii_only (lit "john.doe@example.com")).
  vm_compute. reflexivity.
Defined.

(* ------------------------------------------------------------------------- *)
(** ** Statistics *)

Lemma recorded_isValid_step (st : ValidationStats.t) (e : string_view) :
  RecordingValidator.isValid st e
  = (isValid e,
     if isValid e then ValidationStats.recordValidation st
     else ValidationStats.recordError (ValidationStats.recordValidation st)).
Proof.
  unfold RecordingValidator.isValid, isValid. cbv zeta.
  destruct ((sv_length e <? MIN_EMAIL_SIZE) || (MAX_EMAIL_SIZE <? sv_length e));
    [reflexivity|].
  destruct (sv_is_null e); [reflexivity|].
  destruct (atLoop (sv_bytes e) 0 (sv_length e) None false false) as [[p|]|];
    try reflexivity.
  destruct ((p =? 0) || (sv_length e - 1 <=? p)); [reflexivity|].
  destruct (LocalPartValidator.validate (sv_bytes e) 0 p EXACT
            && DomainPartValidator.validate (sv_bytes e) (p + 1) (sv_length e));
    reflexivity.
Qed.

Lemma isValid_all_counts (emails : list string_view) :
  forall st : ValidationStats.t,
    let n := N.of_nat (length emails) in
    let bad := N.of_nat (length (filter (fun e => negb (isValid e)) emails)) in
    (ValidationStats.validationCount st + n < ValidationStats.UINT64_RANGE)%N ->
    (ValidationStats.errorCount st + bad < ValidationStats.UINT64_RANGE)%N ->
    fst (RecordingValidator.isValid_all st emails) = map isValid emails
    /\ snd (RecordingValidator.isValid_all st emails)
       = ValidationStats.mkStats
           (ValidationStats.validationCount st + n)
           (ValidationStats.scanCount st) (ValidationStats.extractCount st)
           (ValidationStats.errorCount st + bad).
Proof.
  induction emails as [|e rest IH]; intros st n bad Hv He.
  - cbn. unfold n, bad. cbn. rewrite !N.add_0_r. destruct st; auto.
  - cbn [RecordingValidator.isValid_all]. rewrite recorded_isValid_step.
    unfold n, bad in *. cbn [length filter map] in *.
    assert (Hfa : forall x, (x + 1 < ValidationStats.UINT64_RANGE)%N ->
                            ValidationStats.fetch_add1 x = (x + 1)%N).
    { intros x Hx. unfold ValidationStats.fetch_add1. apply N.mod_small. exact Hx. }
    destruct (isValid e) eqn:Hr; cbn [negb length] in *.
    + specialize (IH (ValidationStats.recordValidation st)).
      cbv zeta in IH. cbn [ValidationStats.recordValidation
                           ValidationStats.validationCount ValidationStats.scanCount
                           ValidationStats.extractCount ValidationStats.errorCount] in IH.
      rewrite Hfa in IH by lia.
      destruct IH as [IH1 IH2]; [lia|lia|].
      destruct (RecordingValidator.isValid_all _ rest) as [rs st'].
      cbn [fst snd] in *. split; [f_equal; exact IH1|].
      rewrite IH2. f_equal; lia.
    + specialize (IH (ValidationStats.recordError (ValidationStats.recordValidation st))).
      cbv zeta in IH. cbn [ValidationStats.recordValidation ValidationStats.recordError
                           ValidationStats.validationCount ValidationStats.scanCount
                           ValidationStats.extractCount ValidationStats.errorCount] in IH.
      cbn [length] in He.
      rewrite !Hfa in IH by lia.
      destruct IH as [IH1 IH2]; [lia|lia|].
      destruct (RecordingValidator.isValid_all _ rest) as [rs st'].
      cbn [fst snd] in *. split; [f_equal; exact IH1|].
      rewrite IH2. f_equal; lia.
Qed.

Lemma no_rejects_forallb {A : Type} (f : A -> bool) (l : list A) :
  (0 <? N.of_nat (length (filter (fun x => negb (f x)) l)))%N = negb (forallb f l).
Proof.
  induction l as [|x l IH]; [reflexivity|].
  cbn [filter forallb]. destruct (f x); cbn [negb andb]; [exact IH|].
  cbn [length]. apply N.ltb_lt. lia.
Qed.

(** X10. Statistics of a validator object over a run of fewer than 2^64 calls of
    [isValid], starting from a fresh object: each call returns what the
    validator decides; the validation counter is the number of calls, the
    error counter the number of rejected inputs (every [false] is recorded
    as an error), the scan and extract counters stay 0; the snapshot's
    success count is the number of accepted inputs, and it reports errors
    exactly when some input was rejected. *)
Theorem isValid_statistics (emails : list string_view) :
  (N.of_nat (length emails) < ValidationStats.UINT64_RANGE)%N ->
  let results := fst (RecordingValidator.isValid_all ValidationStats.fresh emails) in
  let st := snd (RecordingValidator.isValid_all ValidationStats.fresh emails) in
  results = map isValid emails
  /\ ValidationStats.validationCount st = N.of_nat (length emails)
  /\ ValidationStats.errorCount st
     = N.of_nat (length (filter (fun e => negb (isValid e)) emails))
  /\ ValidationStats.scanCount st = 0%N
  /\ ValidationStats.extractCount st = 0%N
  /\ ValidationStats.getSuccessCount (ValidationStats.getSnapshot st)
     = N.of_nat (length (filter isValid emails))
  /\ ValidationStats.hasErrors (ValidationStats.getSnapshot st)
     = negb (forallb isValid emails).
Proof.
  intros Hn results st.
  assert (Hsplit : length (filter isValid emails)
                   + length (filter (fun e => negb (isValid e)) emails)
                   = length emails) by apply filter_length.
  pose proof (isValid_all_counts emails ValidationStats.fresh) as Hc.
  cbv zeta in Hc.
  cbn [ValidationStats.fresh ValidationStats.validationCount ValidationStats.errorCount
       ValidationStats.scanCount ValidationStats.extractCount] in Hc.
  rewrite !N.add_0_l in Hc.
  destruct Hc as [H1 H2]; [lia|lia|].
  unfold results, st. rewrite H2.
  cbn [ValidationStats.validationCount ValidationStats.errorCount
       ValidationStats.scanCount ValidationStats.extractCount
       ValidationStats.getSnapshot].
  split; [exact H1|]. split; [reflexivity|]. split; [reflexivity|].
  split; [reflexivity|]. split; [reflexivity|]. split.
  - unfold ValidationStats.getSuccessCount, ValidationStats.getSnapshot.
    cbn [ValidationStats.validations ValidationStats.errors
         ValidationStats.validationCount ValidationStats.errorCount].
    destruct (N.ltb_spec (N.of_nat (length (filter (fun e => negb (isValid e)) emails)))
                (N.of_nat (length emails))); lia.
  - unfold ValidationStats.hasErrors, ValidationStats.getSnapshot.
    cbn [ValidationStats.errors ValidationStats.errorCount].
    apply no_rejects_forallb.
Qed.

Lemma isValid_statistics_witness :
  let emails := [View (lit "a@b.co"); View (lit "nope"); View (lit "x.y@z.org")] in
  let results := fst (RecordingValidator.isValid_all ValidationStats.fresh emails) in
  let st := snd (RecordingValidator.isValid_all ValidationStats.fresh emails) in
  results = map isValid emails
  /\ ValidationStats.validationCount st = N.of_nat (length emails)
  /\ ValidationStats.errorCount st
     = N.of_nat (length (filter (fun e => negb (isValid e)) emails))
  /\ ValidationStats.scanCount st = 0%N
  /\ ValidationStats.extractCount st = 0%N
  /\ ValidationStats.getSuccessCount (ValidationStats.getSnapshot st)
     = N.of_nat (length (filter isValid emails))
  /\ ValidationStats.hasErrors (ValidationStats.getSnapshot st)
     = negb (forallb isValid emails).
Proof.
  apply (isValid_statistics
           [View (lit "a@b.co"); View (lit "nope"); View (lit "x.y@z.org")]).
  vm_compute. reflexivity.
Defined.

(* ------------------------------------------------------------------------- *)
(** ** The candidate window of the scanner *)

Lemma leftScan_lower (data : text_t) (atPos e effMin : nat) (n start0 s inv : nat)
  (hit : bool) :
  effMin <= start0 ->
  leftScan data atPos e effMin n start0 = (s, hit, inv) ->
  effMin <= s.
Proof.
  revert start0. induction n as [|n IH]; intros start0 Hmin H;
    [cbn in H; injection H as <- _ _; exact Hmin|].
  rewrite leftScan_S in H. cbv zeta in H.
  destruct (Nat.ltb_spec effMin start0) as [Hlt|_];
    [|injection H as <- _ _; exact Hmin].
  destruct (at_ data (start0 - 1) =c? "@"); [injection H as <- _ _; exact Hmin|].
  cbn [andb] in H.
  repeat match type of H with
         | (if ?b then _ else _) = _ => destruct b
         end;
    try (injection H as <- _ _; lia);
    try (apply (IH (start0 - 1)); [lia|exact H]).
Qed.

Lemma domainRun_chars (data : text_t) (n e : nat) :
  forall j, e <= j < domainRun data n e -> isDomainChar (at_ data j) = true.
Proof.
  revert e. induction n as [|n IH]; intros e j Hj; cbn [domainRun] in Hj; [lia|].
  destruct (e <? length data); cbn [andb] in Hj; [|lia].
  destruct (isDomainChar (at_ data e)) eqn:Hc; [|lia].
  destruct (Nat.eq_dec j e) as [->|]; [exact Hc|]. apply (IH (S e)). lia.
Qed.

Lemma rightBoundary_chars (data : text_t) (atPos : nat) :
  atPos < length data ->
  forall j, atPos < j < rightBoundary data atPos -> isDomainChar (at_ data j) = true.
Proof.
  intros Hlen j Hj.
  apply (domainRun_chars data (length data - (atPos + 1)) (atPos + 1)).
  unfold rightBoundary in Hj. cbv zeta in Hj.
  pose proof (domainRun_bounds data (length data - (atPos + 1)) (atPos + 1) ltac:(lia)) as H1.
  pose proof (trimTrailing_bounds data atPos "."
                (domainRun data (length data - (atPos + 1)) (atPos + 1)) ltac:(lia)) as H2.
  revert Hj.
  match goal with |- context [if ?b then _ else _] => destruct b end; [|lia].
  match goal with |- context [trimTrailing data atPos "-" ?e] =>
    pose proof (trimTrailing_bounds data atPos "-" e ltac:(lia)) end.
  lia.
Qed.

Lemma recoverStart_Some (data : text_t) (atPos effMin s inv s' : nat) (hit dr : bool) :
  effMin <= s -> s <= atPos ->
  (forall j, s <= j < atPos -> isAtext (at_ data j) = true) ->
  (hit = true ->
   effMin < s /\ (inv = s \/ (inv + 1 = s /\ (at_ data inv =c? ".") = true))) ->
  recoverStart data atPos effMin s hit inv = Some (s', dr) ->
  effMin <= s'
  /\ (s' < atPos -> forall j, s' <= j < atPos -> isAtext (at_ data j) = true).
Proof.
  intros Hmin Hs Hatext Hhit H. unfold recoverStart in H.
  destruct hit; [|injection H as <- _; auto].
  destruct (Hhit eq_refl) as [Hlt Hinv].
  assert (G : forall r, Nat.max inv effMin <= r < atPos ->
                        effMin <= r
                        /\ (r < atPos -> forall j, r <= j < atPos ->
                                          isAtext (at_ data j) = true)).
  { intros r Hr. split; [lia|]. intros _ j Hj.
    destruct Hinv as [->|[Hi Hdot]]; [apply Hatext; lia|].
    destruct (Nat.eq_dec j inv) as [->|]; [apply dot_is_atext; exact Hdot|].
    apply Hatext. lia. }
  destruct (findFirstAlnum data _ atPos) as [r|] eqn:Hf.
  - injection H as <- _. apply findFirstAlnum_Some in Hf. apply G. lia.
  - destruct (findFirstAtext data _ atPos) as [r|] eqn:Hf2; [|discriminate H].
    injection H as <- _. apply findFirstAtext_Some in Hf2. apply G. lia.
Qed.

(** X16. The window [findEmailBoundaries] proposes around an [@].  When it is
    declared valid: [skipTo] is 0; the window starts before the [@], not
    before [minScannedIndex] and not more than [MAX_LEFT_SCAN] bytes before
    the [@]; it ends after the [@], inside the text; every byte before the
    [@] is an atext byte and every byte after it a domain byte.  When it is
    declared invalid, the scan resumes at the byte after the [@], whatever
    [skipTo] says. *)
Theorem findEmailBoundaries_window (text : text_t) (atPos m : nat) :
  atPos < length text ->
  let b := findEmailBoundaries text atPos m in
  if validBoundaries b then
    skipTo b = 0
    /\ m <= start b /\ atPos - MAX_LEFT_SCAN <= start b
    /\ start b < atPos /\ atPos < end_ b <= length text
    /\ (forall j, start b <= j < atPos -> isAtext (at_ text j) = true)
    /\ (forall j, atPos < j < end_ b -> isDomainChar (at_ text j) = true)
  else
    (if 0 <? skipTo b then skipTo b else atPos + 1) = atPos + 1.
Proof.
  intros Hlen b.
  destruct (validBoundaries b) eqn:Hv; [|apply resume_after_reject; assumption].
  unfold b in *. clear b. revert Hv. unfold findEmailBoundaries.
  destruct (Nat.leb_spec (length text) atPos) as [|_]; [lia|].
  destruct ((atPos + 1 <? length text) && (at_ text (atPos + 1) =c? "["));
    [cbn; discriminate|].
  cbv zeta.
  pose proof (rightBoundary_bounds text atPos Hlen) as He.
  pose proof (rightBoundary_chars text atPos Hlen) as Hdom.
  assert (Hmin : m <= effectiveMinOf atPos m
                 /\ atPos - MAX_LEFT_SCAN <= effectiveMinOf atPos m
                 /\ (m <= atPos -> effectiveMinOf atPos m <= atPos)).
  { unfold effectiveMinOf. destruct (Nat.ltb_spec MAX_LEFT_SCAN atPos); lia. }
  destruct (Nat.le_gt_cases m atPos) as [Hm|Hm].
  2:{ (* nothing to scan on the left: no window *)
    assert (Hem : atPos < effectiveMinOf atPos m) by lia.
    destruct (leftScan text atPos (rightBoundary text atPos) (effectiveMinOf atPos m)
                atPos atPos) as [[s hit] inv] eqn:Hls.
    assert (Hs : s = atPos /\ hit = false).
    { destruct atPos as [|a]; [cbn in Hls; injection Hls as <- <- _; auto|].
      rewrite leftScan_S in Hls. cbv zeta in Hls.
      destruct (Nat.ltb_spec (effectiveMinOf (S a) m) (S a)) as [|_]; [lia|].
      injection Hls as <- <- _. auto. }
    destruct Hs as [-> ->]. cbn [recoverStart].
    pose proof (adjustStart_bounds text atPos (effectiveMinOf atPos m) atPos) as Ha.
    destruct (Nat.leb_spec atPos (adjustStart text atPos (effectiveMinOf atPos m) atPos));
      [cbn; discriminate|lia]. }
  destruct (leftScan text atPos (rightBoundary text atPos) (effectiveMinOf atPos m)
              atPos atPos) as [[s hit] inv] eqn:Hls.
  assert (Hlow : effectiveMinOf atPos m <= s)
    by (refine (leftScan_lower _ _ _ _ _ _ _ _ _ _ Hls); lia).
  apply leftScan_inv in Hls; [|intros; lia].
  destruct Hls as (Hs & Hatext & Hhit & Hnohit).
  destruct (recoverStart text atPos (effectiveMinOf atPos m) s hit inv)
    as [[s' dr]|] eqn:Hrec; [|cbn; discriminate].
  destruct (recoverStart_Some _ _ _ _ _ _ _ _ Hlow Hs Hatext Hhit Hrec) as [Hlow' Hat'].
  pose proof (adjustStart_bounds text atPos (effectiveMinOf atPos m) s') as Ha.
  destruct (Nat.leb_spec atPos (adjustStart text atPos (effectiveMinOf atPos m) s'))
    as [|Hx]; [cbn; discriminate|].
  cbn [validBoundaries skipTo start end_]. intros _.
  repeat split; try lia.
  - intros j Hj. apply Hat'; lia.
  - intros j Hj. apply Hdom. lia.
Qed.

Lemma findEmailBoundaries_window_witness :
  let b := findEmailBoundaries (lit "mail bob@site.org now") 8 0 in
  if validBoundaries b then
    skipTo b = 0
    /\ 0 <= start b /\ 8 - MAX_LEFT_SCAN <= start b
    /\ start b < 8 /\ 8 < end_ b <= length (lit "mail bob@site.org now")
    /\ (forall j, start b <= j < 8 ->
                  isAtext (at_ (lit "mail bob@site.org now") j) = true)
    /\ (forall j, 8 < j < end_ b ->
                  isDomainChar (at_ (lit "mail bob@site.org now") j) = true)
  else
    (if 0 <? skipTo b then skipTo b else 8 + 1) = 8 + 1.
Proof.
  apply (findEmailBoundaries_window (lit "mail bob@site.org now") 8 0).
  simpl. lia.
Defined.

(* ------------------------------------------------------------------------- *)
(** ** The forward searches of the scanner *)

Lemma findFirstAlnumLoop_first (data : text_t) (n pos : nat) :
  match findFirstAlnumLoop data n pos with
  | Some r => pos <= r < pos + n /\ isAlphaNum (at_ data r) = true
              /\ forall j, pos <= j < r -> isAlphaNum (at_ data j) = false
  | None => forall j, pos <= j < pos + n -> isAlphaNum (at_ data j) = false
  end.
Proof.
  revert pos. induction n as [|n IH]; intros pos; cbn [findFirstAlnumLoop]; [intros; lia|].
  destruct (isAlphaNum (at_ data pos)) eqn:Hc.
  - split; [lia|]. split; [exact Hc|]. intros; lia.
  - specialize (IH (S pos)).
    destruct (findFirstAlnumLoop data n (S pos)) as [r|].
    + destruct IH as (Hr & Ha & Hb). split; [lia|]. split; [exact Ha|].
      intros j Hj. destruct (Nat.eq_dec j pos) as [->|]; [exact Hc|]. apply Hb. lia.
    + intros j Hj. destruct (Nat.eq_dec j pos) as [->|]; [exact Hc|]. apply IH. lia.
Qed.

Lemma findFirstAtextLoop_first (data : text_t) (n pos : nat) :
  match findFirstAtextLoop data n pos with
  | Some r => pos <= r < pos + n /\ isAtext (at_ data r) = true
              /\ forall j, pos <= j < r -> isAtext (at_ data j) = false
  | None => forall j, pos <= j < pos + n -> isAtext (at_ data j) = false
  end.
Proof.
  revert pos. induction n as [|n IH]; intros pos; cbn [findFirstAtextLoop]; [intros; lia|].
  destruct (isAtext (at_ data pos)) eqn:Hc.
  - split; [lia|]. split; [exact Hc|]. intros; lia.
  - specialize (IH (S pos)).
    destruct (findFirstAtextLoop data n (S pos)) as [r|].
    + destruct IH as (Hr & Ha & Hb). split; [lia|]. split; [exact Ha|].
      intros j Hj. destruct (Nat.eq_dec j pos) as [->|]; [exact Hc|]. apply Hb. lia.
    + intros j Hj. destruct (Nat.eq_dec j pos) as [->|]; [exact Hc|]. apply IH. lia.
Qed.

(** X17. [findFirstAlnum] and [findFirstAtext] return the least index at or after
    [pos], below [limit] and inside the buffer, whose byte is alphanumeric
    (respectively atext), and [npos] exactly when there is none. *)
Theorem findFirst_least_index (data : text_t) (pos limit : nat) :
  match findFirstAlnum data pos limit with
  | Some r => pos <= r < Nat.min limit (length data)
              /\ isAlphaNum (at_ data r) = true
              /\ forall j, pos <= j < r -> isAlphaNum (at_ data j) = false
  | None => forall j, pos <= j < Nat.min limit (length data) ->
                      isAlphaNum (at_ data j) = false
  end
  /\ match findFirstAtext data pos limit with
     | Some r => pos <= r < Nat.min limit (length data)
                 /\ isAtext (at_ data r) = true
                 /\ forall j, pos <= j < r -> isAtext (at_ data j) = false
     | None => forall j, pos <= j < Nat.min limit (length data) ->
                         isAtext (at_ data j) = false
     end.
Proof.
  unfold findFirstAlnum, findFirstAtext. cbv zeta. split.
  - pose proof (findFirstAlnumLoop_first data (Nat.min limit (length data) - pos) pos) as H.
    destruct (findFirstAlnumLoop data _ pos) as [r|].
    + destruct H as (Hr & Ha & Hb). split; [lia|]. split; assumption.
    + intros j Hj. apply H. lia.
  - pose proof (findFirstAtextLoop_first data (Nat.min limit (length data) - pos) pos) as H.
    destruct (findFirstAtextLoop data _ pos) as [r|].
    + destruct H as (Hr & Ha & Hb). split; [lia|]. split; assumption.
    + intros j Hj. apply H. lia.
Qed.

(* ------------------------------------------------------------------------- *)
(** ** Domain parts *)

(** X7. [DomainPartValidator::validate] accepts a range exactly when its bytes
    are a dot-labelled domain or a bracketed IP literal; the answer depends
    on the bytes of the range only. *)
Theorem domain_part_forms (text : text_t) (s e : nat) :
  (DomainPartValidator.validate text s e = true
   <-> s < e <= length text
       /\ (Spec.domain_labels_ok (substr text s (e - s)) = true
           \/ IPLiteral.literal (substr text s (e - s))))
  /\ (forall (text' : text_t) (s' e' : nat),
        s < e <= length text -> s' < e' <= length text' ->
        substr text s (e - s) = substr text' s' (e' - s') ->
        DomainPartValidator.validate text s e
        = DomainPartValidator.validate text' s' e').
Proof.
  split; [exact (validate_domain_forms text s e)|].
  intros text' s' e' Hr Hr' Heq.
  pose proof (validate_domain_forms text s e) as H.
  pose proof (validate_domain_forms text' s' e') as H'.
  rewrite Heq in H.
  destruct (DomainPartValidator.validate text s e);
    destruct (DomainPartValidator.validate text' s' e'); try reflexivity.
  - destruct H as [H _]. destruct (H eq_refl) as [_ Hd].
    destruct H' as [_ H']. symmetry. apply H'. auto.
  - destruct H' as [H' _]. destruct (H' eq_refl) as [_ Hd].
    destruct H as [_ H]. apply H. auto.
Qed.

(* ------------------------------------------------------------------------- *)
(** ** Anchors the scanner never looks at *)

(** X18. An [@] that is the first byte of the text, or that has fewer than 3
    bytes after it, is skipped: when the text has no other [@] (or none at
    all), [contains] answers [false] and [extract] returns nothing. *)
Theorem edge_anchors_are_skipped (text : text_t) :
  (forall j, j < length text -> at_ text j = "@"%char ->
             j = 0 \/ length text <= j + 3) ->
  contains (View text) = false /\ extract (View text) = [].
Proof.
  intros Hedge.
  assert (Hc : contains (View text) = false).
  { destruct (contains (View text)) eqn:H; [exfalso|reflexivity].
    apply contains_true_loop in H. apply containsLoop_anchor in H.
    destruct H as (a & H1 & H3 & Hat & _). cbn [sv_bytes] in *.
    destruct (Hedge a ltac:(lia) Hat); lia. }
  split; [exact Hc|].
  destruct (extract (View text)) as [|m ms] eqn:He; [reflexivity|exfalso].
  assert (Hne : extract (View text) <> []) by (rewrite He; discriminate).
  apply extract_nonempty_contains_view in Hne. rewrite Hc in Hne. discriminate.
Qed.

Lemma edge_anchors_are_skipped_witness :
  contains (View (lit "@abc.de user@ab")) = false
  /\ extract (View (lit "@abc.de user@ab")) = [].
Proof.
  apply (edge_anchors_are_skipped (lit "@abc.de user@ab")).
  intros j Hj Hat.
  do 16 (destruct j as [|j]; [try discriminate Hat; cbn; lia|]).
  cbn in Hj. lia.
Defined.

(* ------------------------------------------------------------------------- *)
(** ** A valid window is not cut inside an alphanumeric run *)

Lemma at_not_alnum (c : byte) : (c =c? "@") = true -> isAlphaNum c = false.
Proof. by_table c. Qed.

Lemma dot_not_alnum (c : byte) : (c =c? ".") = true -> isAlphaNum c = false.
Proof. by_table c. Qed.

Lemma hyphen_not_alnum (c : byte) : (c =c? "-") = true -> isAlphaNum c = false.
Proof. by_table c. Qed.

Lemma slash_not_alnum (c : byte) : (c =c? "/") = true -> isAlphaNum c = false.
Proof. by_table c. Qed.

Lemma quote_not_alnum (c : byte) : isQuoteChar c = true -> isAlphaNum c = false.
Proof. by_table c. Qed.

Lemma not_atext_not_alnum (c : byte) : isAtext c = false -> isAlphaNum c = false.
Proof. by_table c. Qed.

Lemma not_domain_not_alnum (c : byte) : isDomainChar c = false -> isAlphaNum c = false.
Proof. by_table c. Qed.

Lemma domainRun_stop (data : text_t) (n e : nat) :
  e + n = length data ->
  domainRun data n e = length data
  \/ isDomainChar (at_ data (domainRun data n e)) = false.
Proof.
  revert e. induction n as [|n IH]; intros e H; cbn [domainRun]; [left; lia|].
  destruct (Nat.ltb_spec e (length data)) as [_|]; [|lia]. cbn [andb].
  destruct (isDomainChar (at_ data e)) eqn:Hc; [apply IH; lia|right; exact Hc].
Qed.

Lemma trimTrailing_stop (data : text_t) (atPos : nat) (c : byte) (e : nat) :
  trimTrailing data atPos c e = e
  \/ (trimTrailing data atPos c e < e
      /\ (at_ data (trimTrailing data atPos c e) =c? c) = true).
Proof.
  induction e as [|e IH]; cbn [trimTrailing]; [left; reflexivity|].
  destruct ((atPos + 1 <? S e) && (at_ data e =c? c)) eqn:Hc; [|left; reflexivity].
  apply andb_true_iff in Hc. destruct Hc as [_ Hc].
  right. destruct IH as [->|[Hlt Hat]]; [split; [lia|exact Hc]|].
  split; [lia|exact Hat].
Qed.

Lemma rightBoundary_next (data : text_t) (atPos : nat) :
  atPos < length data ->
  rightBoundary data atPos = length data
  \/ isAlphaNum (at_ data (rightBoundary data atPos)) = false.
Proof.
  intros Hlen. unfold rightBoundary. cbv zeta.
  set (r := domainRun data (length data - (atPos + 1)) (atPos + 1)).
  assert (Hr : r = length data \/ isAlphaNum (at_ data r) = false).
  { destruct (domainRun_stop data (length data - (atPos + 1)) (atPos + 1) ltac:(lia))
      as [H|H]; [left; exact H|right; apply not_domain_not_alnum; exact H]. }
  set (e1 := trimTrailing data atPos "." r).
  assert (He1 : e1 = length data \/ isAlphaNum (at_ data e1) = false).
  { destruct (trimTrailing_stop data atPos "." r) as [H|[_ H]].
    - unfold e1. rewrite H. exact Hr.
    - right. apply dot_not_alnum. exact H. }
  destruct ((e1 <? length data) && (at_ data e1 =c? "@")); [|exact He1].
  destruct (trimTrailing_stop data atPos "-" e1) as [H|[_ H]].
  - rewrite H. exact He1.
  - right. apply hyphen_not_alnum. exact H.
Qed.

Lemma leftScan_prev (data : text_t) (atPos e effMin : nat) :
  forall n start0 s inv,
    start0 <= n ->
    leftScan data atPos e effMin n start0 = (s, false, inv) ->
    effMin < s -> isAlphaNum (at_ data (s - 1)) = false.
Proof.
  induction n as [|n IH]; intros start0 s inv Hn H Hs.
  - cbn [leftScan] in H. inversion H; subst. lia.
  - rewrite leftScan_S in H. cbv zeta in H.
    assert (Hrec : leftScan data atPos e effMin n (start0 - 1) = (s, false, inv) ->
                   isAlphaNum (at_ data (s - 1)) = false).
    { intros Hr. apply (IH (start0 - 1) s inv); [lia|exact Hr|exact Hs]. }
    destruct (Nat.ltb_spec effMin start0) as [Hlt|Hge]; [|injection H as <- _; lia].
    destruct (at_ data (start0 - 1) =c? "@") eqn:Hat.
    { injection H as <- _. apply at_not_alnum. exact Hat. }
    cbn [andb] in H.
    destruct ((at_ data (start0 - 1) =c? ".") && (effMin + 1 <? start0) && (2 <=? start0)
              && (at_ data (start0 - 2) =c? ".")); [discriminate H|].
    destruct (isInvalidLocalChar (at_ data (start0 - 1))); [discriminate H|].
    destruct (isQuoteChar (at_ data (start0 - 1))) eqn:Hq.
    { repeat match type of H with
             | (if ?b then _ else _) = _ => destruct b eqn:?
             end;
        try (apply Hrec; exact H).
      - injection H as <- _. apply quote_not_alnum. exact Hq.
      - injection H as <- _.
        match goal with Hx : (start0 =? effMin + 1) = true |- _ =>
          apply Nat.eqb_eq in Hx; lia end. }
    destruct (at_ data (start0 - 1) =c? "."); [apply Hrec; exact H|].
    destruct (isAtext (at_ data (start0 - 1))) eqn:Ha; [apply Hrec; exact H|].
    injection H as <- _. apply not_atext_not_alnum. exact Ha.
Qed.

Lemma skipLeadingDots_prev (data : text_t) (atPos n start : nat) :
  skipLeadingDots data atPos n start = start
  \/ (start < skipLeadingDots data atPos n start
      /\ (at_ data (skipLeadingDots data atPos n start - 1) =c? ".") = true).
Proof.
  revert start. induction n as [|n IH]; intros start; cbn [skipLeadingDots];
    [left; reflexivity|].
  destruct ((start <? atPos) && (at_ data start =c? ".")) eqn:Hc; [|left; reflexivity].
  apply andb_true_iff in Hc. destruct Hc as [_ Hc]. right.
  destruct (IH (S start)) as [->|[Hlt Hat]].
  - split; [lia|]. cbn [Nat.sub]. rewrite Nat.sub_0_r. exact Hc.
  - split; [lia|exact Hat].
Qed.

Lemma adjustStart_prev (data : text_t) (atPos effMin s : nat) :
  (effMin < s -> isAlphaNum (at_ data (s - 1)) = false) ->
  effMin < adjustStart data atPos effMin s ->
  isAlphaNum (at_ data (adjustStart data atPos effMin s - 1)) = false.
Proof.
  intros Hs. unfold adjustStart. cbv zeta.
  set (d := skipLeadingDots data atPos (atPos - s) s).
  assert (Hd : effMin < d -> isAlphaNum (at_ data (d - 1)) = false).
  { intros Hlt. destruct (skipLeadingDots_prev data atPos (atPos - s) s) as [H|[_ H]].
    - fold d in H. rewrite H in *. apply Hs. exact Hlt.
    - apply dot_not_alnum. exact H. }
  destruct ((d <? atPos) && (effMin <? d) && (0 <? d)
            && isInvalidLocalChar (at_ data (d - 1))); [|exact Hd].
  pose proof (findFirstAlnumLoop_first data (Nat.min atPos (length data) - d) d) as Hf.
  unfold findFirstAlnum. cbv zeta.
  destruct (findFirstAlnumLoop data (Nat.min atPos (length data) - d) d) as [r|];
    [|exact Hd].
  destruct Hf as (Hr & _ & Hmin). intros Hlt.
  destruct (Nat.eq_dec r d) as [->|Hne]; [apply Hd; exact Hlt|].
  apply Hmin. lia.
Qed.

Lemma leftBoundaryOk_recovered (data : text_t) (effMin s : nat) :
  leftBoundaryOk data effMin s true = true ->
  effMin < s -> isAlphaNum (at_ data (s - 1)) = false.
Proof.
  unfold leftBoundaryOk. intros H Hlt.
  destruct (Nat.ltb_spec effMin s) as [_|]; [|lia].
  destruct (Nat.ltb_spec 0 s) as [_|]; [|lia].
  cbn [andb] in H. cbv zeta in H.
  destruct (isAlphaNum (at_ data (s - 1))) eqn:Ha; [exfalso|reflexivity].
  assert (Hq : isQuoteChar (at_ data (s - 1)) = false).
  { destruct (isQuoteChar (at_ data (s - 1))) eqn:Hq; [|reflexivity].
    rewrite (quote_not_alnum _ Hq) in Ha. discriminate Ha. }
  assert (Hsl : (at_ data (s - 1) =c? "/") = false).
  { destruct (at_ data (s - 1) =c? "/") eqn:Hsl; [|reflexivity].
    rewrite (slash_not_alnum _ Hsl) in Ha. discriminate Ha. }
  rewrite Hq, Hsl in H. cbn [andb negb] in H. discriminate H.
Qed.

Lemma rightBoundaryOk_true (data : text_t) (e : nat) (v : bool) :
  rightBoundaryOk data e v = true -> v = true.
Proof.
  unfold rightBoundaryOk. destruct v; [reflexivity|].
  rewrite andb_false_r. intros H. exact H.
Qed.

Lemma effectiveMinOf_max (atPos m : nat) :
  effectiveMinOf atPos m = Nat.max m (atPos - MAX_LEFT_SCAN).
Proof. unfold effectiveMinOf. destruct (Nat.ltb_spec MAX_LEFT_SCAN atPos); lia. Qed.

(** X19. A window that [findEmailBoundaries] declares valid is not cut inside
    a run of letters and digits.  On the left, it starts at the look-back
    limit (the larger of [minScannedIndex] and [atPos - MAX_LEFT_SCAN]) or
    the byte before it is not alphanumeric; on the right, it ends at the end
    of the text or the byte after it is not alphanumeric. *)
Theorem valid_window_is_maximal (text : text_t) (atPos m : nat) :
  atPos < length text ->
  validBoundaries (findEmailBoundaries text atPos m) = true ->
  (start (findEmailBoundaries text atPos m) = Nat.max m (atPos - MAX_LEFT_SCAN)
   \/ isAlphaNum (at_ text (start (findEmailBoundaries text atPos m) - 1)) = false)
  /\ (end_ (findEmailBoundaries text atPos m) = length text
      \/ isAlphaNum (at_ text (end_ (findEmailBoundaries text atPos m))) = false).
Proof.
  intros Hlen. rewrite <- effectiveMinOf_max. unfold findEmailBoundaries.
  destruct (Nat.leb_spec (length text) atPos) as [|_]; [lia|].
  destruct ((atPos + 1 <? length text) && (at_ text (atPos + 1) =c? "["));
    [cbn; discriminate|].
  cbv zeta.
  pose proof (rightBoundary_next text atPos Hlen) as Hright.
  destruct (leftScan text atPos (rightBoundary text atPos) (effectiveMinOf atPos m)
              atPos atPos) as [[s hit] inv] eqn:Hls.
  destruct (recoverStart text atPos (effectiveMinOf atPos m) s hit inv)
    as [[s' dr]|] eqn:Hrec; [|cbn; discriminate].
  destruct (Nat.leb_spec atPos (adjustStart text atPos (effectiveMinOf atPos m) s'))
    as [|Hx]; [cbn; discriminate|].
  cbn [validBoundaries start end_]. intros Hv.
  apply rightBoundaryOk_true in Hv.
  split; [|exact Hright].
  set (f := adjustStart text atPos (effectiveMinOf atPos m) s') in *.
  destruct (Nat.lt_ge_cases (effectiveMinOf atPos m) f) as [Hlt|Hge].
  2:{ (* at or below the limit: the left scan never goes below it *)
    left. destruct (Nat.le_gt_cases (effectiveMinOf atPos m) atPos) as [Hm|Hm].
    2:{ exfalso.
        assert (Hs : s = atPos /\ hit = false).
        { destruct atPos as [|a]; [cbn in Hls; injection Hls as <- <- _; auto|].
          rewrite leftScan_S in Hls. cbv zeta in Hls.
          destruct (Nat.ltb_spec (effectiveMinOf (S a) m) (S a)) as [|_]; [lia|].
          injection Hls as <- <- _. auto. }
        destruct Hs as [-> ->]. cbn [recoverStart] in Hrec. injection Hrec as <- _.
        pose proof (adjustStart_bounds text atPos (effectiveMinOf atPos m) atPos) as Ha.
        fold f in Ha. lia. }
    assert (Hlow : effectiveMinOf atPos m <= s)
      by (refine (leftScan_lower _ _ _ _ _ _ _ _ _ _ Hls); lia).
    apply leftScan_inv in Hls; [|intros; lia].
    destruct Hls as (Hs & Hatext & Hhit & _).
    destruct (recoverStart_Some _ _ _ _ _ _ _ _ Hlow Hs Hatext Hhit Hrec) as [Hlow' _].
    pose proof (adjustStart_bounds text atPos (effectiveMinOf atPos m) s') as Ha.
    fold f in Ha. lia. }
  right. destruct dr.
  - apply (leftBoundaryOk_recovered text (effectiveMinOf atPos m) f); assumption.
  - apply adjustStart_prev; [|exact Hlt].
    unfold recoverStart in Hrec. destruct hit.
    + destruct (findFirstAlnum text _ atPos); [discriminate Hrec|].
      destruct (findFirstAtext text _ atPos); discriminate Hrec.
    + injection Hrec as <-. intros Hs.
      apply (leftScan_prev text atPos (rightBoundary text atPos)
               (effectiveMinOf atPos m) atPos atPos s inv); [lia|exact Hls|exact Hs].
Qed.

Lemma valid_window_is_maximal_witness :
  (start (findEmailBoundaries (lit "mail bob@site.org now") 8 0)
   = Nat.max 0 (8 - MAX_LEFT_SCAN)
   \/ isAlphaNum (at_ (lit "mail bob@site.org now")
                    (start (findEmailBoundaries (lit "mail bob@site.org now") 8 0) - 1))
      = false)
  /\ (end_ (findEmailBoundaries (lit "mail bob@site.org now") 8 0)
      = length (lit "mail bob@site.org now")
      \/ isAlphaNum (at_ (lit "mail bob@site.org now")
                       (end_ (findEmailBoundaries (lit "mail bob@site.org now") 8 0)))
         = false).
Proof.
  apply (valid_window_is_maximal (lit "mail bob@site.org now") 8 0).
  - simpl. lia.
  - vm_compute. reflexivity.
Defined.

Lemma findEmailBoundaries_end (text : text_t) (atPos m : nat) :
  validBoundaries (findEmailBoundaries text atPos m) = true ->
  end_ (findEmailBoundaries text atPos m) = rightBoundary text atPos.
Proof.
  unfold findEmailBoundaries.
  destruct (length text <=? atPos); [cbn; discriminate|].
  destruct ((atPos + 1 <? length text) && (at_ text (atPos + 1) =c? "["));
    [cbn; discriminate|].
  cbv zeta.
  destruct (leftScan text atPos (rightBoundary text atPos) (effectiveMinOf atPos m)
              atPos atPos) as [[s hit] inv].
  destruct (recoverStart text atPos (effectiveMinOf atPos m) s hit inv) as [[s' dr]|];
    [|cbn; discriminate].
  destruct (atPos <=? adjustStart text atPos (effectiveMinOf atPos m) s');
    [cbn; discriminate|].
  reflexivity.
Qed.

Lemma extractLoop_span_ends (text : text_t) (n : nat) (st : extract_state) :
  Forall (fun sp => m_at sp < length text /\ m_end sp = rightBoundary text (m_at sp))
    (spans st) ->
  Forall (fun sp => m_at sp < length text /\ m_end sp = rightBoundary text (m_at sp))
    (spans (extractLoop text n st)).
Proof.
  revert st. induction n as [|n IH]; intros st Hinv; [exact Hinv|].
  rewrite extractLoop_S. cbv zeta.
  destruct (pos st <? length text) eqn:Hpos; [|exact Hinv].
  destruct (MAX_EMAILS_EXTRACT <=? extractedCount st); [exact Hinv|].
  destruct (memchrAt text (length text - pos st) (pos st)) as [atPos|] eqn:Hm;
    [|exact Hinv].
  apply memchrAt_Some in Hm. destruct Hm as (Hrange & _).
  apply Nat.ltb_lt in Hpos.
  destruct ((atPos <? 1) || (length text - 3 <=? atPos)); [apply IH; exact Hinv|].
  destruct (atPos <? lastConsumedEnd st); [apply IH; exact Hinv|].
  set (b := findEmailBoundaries text atPos (minScannedIndex st)).
  destruct (MAX_TOTAL_CHARS_SCANNED <? _); [exact Hinv|].
  destruct (validBoundaries b) eqn:Hvb; cbn [negb]; [|apply IH; exact Hinv].
  destruct (LocalPartValidator.validate text (start b) atPos LocalPartValidator.SCAN
            && DomainPartValidator.validate text (atPos + 1) (end_ b));
    [|apply IH; exact Hinv].
  destruct ((length text <=? start b) || (length text <? end_ b) || (end_ b <=? start b));
    [apply IH; exact Hinv|].
  apply IH. cbn [spans].
  destruct (negb (existsb (text_eqb (substr text (start b) (end_ b - start b))) (seen st)));
    [|exact Hinv].
  apply Forall_app. split; [exact Hinv|]. constructor; [|constructor].
  cbn [m_at m_end]. split; [lia|].
  apply findEmailBoundaries_end. exact Hvb.
Qed.

(** X20. [extract] never cuts a domain inside a run of letters and digits:
    each returned string is a piece of the text that ends at the end of the
    text or just before a byte that is not alphanumeric. *)
Theorem extract_match_right_maximal (v : string_view) (m : text_t) :
  In m (extract v) ->
  exists s e : nat,
    m = substr (sv_bytes v) s (e - s) /\ s < e <= length (sv_bytes v)
    /\ (e = length (sv_bytes v) \/ isAlphaNum (at_ (sv_bytes v) e) = false).
Proof.
  intros Hin. apply extract_match_span in Hin.
  destruct Hin as (sp & Hsp & Hm & Hgood).
  assert (Hends : Forall (fun sp => m_at sp < length (sv_bytes v)
                                    /\ m_end sp = rightBoundary (sv_bytes v) (m_at sp))
                    (extract_spans v)).
  { unfold extract_spans, extract_state_of.
    destruct ((MAX_INPUT_SIZE <? sv_length v) || (sv_length v <? 5)); [constructor|].
    destruct (sv_is_null v && (0 <? sv_length v)); [constructor|].
    apply extractLoop_span_ends. constructor. }
  rewrite Forall_forall in Hends. destruct (Hends sp Hsp) as [Hat Hend].
  destruct Hgood as (H1 & H2 & H3 & _).
  exists (m_start sp), (m_end sp). split; [exact Hm|]. split; [lia|].
  rewrite Hend. apply rightBoundary_next. exact Hat.
Qed.

Lemma extract_match_right_maximal_witness :
  exists s e : nat,
    lit "bob@site.org" = substr (lit "mail bob@site.org now") s (e - s)
    /\ s < e <= length (lit "mail bob@site.org now")
    /\ (e = length (lit "mail bob@site.org now")
        \/ isAlphaNum (at_ (lit "mail bob@site.org now") e) = false).
Proof.
  apply (extract_match_right_maximal (View (lit "mail bob@site.org now"))
           (lit "bob@site.org")).
  vm_compute. left. reflexivity.
Defined.
